(** * Cluster expansion on Au-Cu with CLEASE: the tutorial notebook

    A shallow embedding of [CLEASE/part1_clease_script.ipynb].  The notebook
    is a sequence of code cells; every cell is a sequence of calls into the
    external libraries (CLEASE, ASE, numpy, json, matplotlib) glued together
    with a few Python built-ins.  A cell becomes a program of the monad
    [Prog]: a call into a library is a node [Call] whose continuation receives
    what the library returned, a Python built-in that fails is a [Throw], and
    the Python control flow is Gallina's.  What the libraries do is given by
    a handler, over which the theorems quantify. *)

From stdpp Require Import gmap strings list numbers sorting.
From Stdlib Require Import QArith Qcanon.

Local Close Scope Qc_scope.
Local Close Scope Q_scope.
Local Open Scope string_scope.
Local Open Scope list_scope.

(** ** Python data seen by the notebook *)

(** Exceptions.  The first ones are raised by Python built-ins used in the
    cells; a library may raise any of them. *)
Inductive exn : Type :=
| IndexError
| AttributeError (attr : string)
| ZeroDivisionError
| KeyError
| ValueError
| AssertionError
| FileNotFoundError
| LibraryError (msg : string).

Inductive Result (A : Type) : Type :=
| Ok (a : A)
| Raise (e : exn).
Arguments Ok {A} a.
Arguments Raise {A} e.

(** Decimal literals of the notebook ([3.8], [0.02], [1E-7]): the rational the
    literal denotes. *)
Definition lit (num : Z) (den : positive) : Qc := Q2Qc (num # den)%Q.

(** Values of the key-value pairs of a database row. *)
Inductive value : Type :=
| VBool (b : bool)
| VInt (z : Z)
| VFloat (q : Qc)
| VStr (s : string).

#[global] Instance value_eq_dec : EqDecision value.
Proof. solve_decision. Defined.

(** A row of the ASE database, as far as the notebook reads it: [row.id],
    [row.natoms], the key-value pairs ([name], [gen], [struct_type],
    [formula_unit], [converged], [final_struct_id], ...) and [row.energy],
    present once a calculation result is attached. *)
Record Row : Type := mkRow {
  row_id : nat;
  row_natoms : nat;
  key_value_pairs : gmap string value;
  row_energy : option Qc
}.

#[global] Instance Row_eq_dec : EqDecision Row.
Proof. solve_decision. Defined.

(** A selection: the conjunction of [key=value] conditions, written in the
    notebook as keywords ([converged=False], [id=...]) or as a string
    (['formula_unit=Au3Cu1,struct_type=initial']). *)
Definition query : Type := list (string * value).

Definition matches_cond (row : Row) (c : string * value) : bool :=
  if bool_decide (c.1 = "id")
  then bool_decide (c.2 = VInt (Z.of_nat (row_id row)))
  else bool_decide (key_value_pairs row !! c.1 = Some c.2).

Definition matches (q : query) (row : Row) : bool :=
  forallb (matches_cond row) q.

(** ** Library objects and calls *)

(** Classes of the library objects the notebook holds in variables. *)
Inductive class : Type :=
| CConcentration | CSettings | CNewStructures | CDatabase | CAtoms
| CCalculator | CFilter | COptimizer | CEvaluate | CFile | CObject.

#[global] Instance class_eq_dec : EqDecision class.
Proof. solve_decision. Defined.

(** A reference to a library object: its identity.  Two variables bound to
    the same object hold the same reference. *)
Record ref (c : class) : Type := Ref { addr : nat }.
Arguments Ref {c} addr.
Arguments addr {c} r.

(** Types of the results the notebook receives from a call.  [TUnit] is also
    the type of a call whose result the notebook discards. *)
Inductive ty : Type :=
| TUnit
| TObj (c : class)
| TRow
| TRows
| TIndex
| TScan
| TEci.

#[global] Instance ty_eq_dec : EqDecision ty.
Proof. solve_decision. Defined.

Definition El (t : ty) : Type :=
  match t with
  | TUnit => unit
  | TObj c => ref c
  | TRow => Row
  | TRows => list Row
  | TIndex => nat
  | TScan => list Qc * list Qc
  | TEci => gmap string Qc
  end.

(** The [atoms] argument of [generate_gs_structure]: one [Atoms] object or a
    list of them. *)
Inductive atoms_arg : Type :=
| One (a : ref CAtoms)
| Many (l : list (ref CAtoms)).

Inductive plot : Type := plot_cv | plot_fit | plot_convex_hull | plot_eci.

(** What the notebook prints. *)
Inductive printable : Type :=
| PStr (s : string)
| PFormat (template : string) (args : list (ref CObject))
| PFormatInt (template : string) (n : nat)
| PList (l : list value).

(** The calls of the notebook into the libraries, the interpreter and the
    shell, with the arguments the notebook passes. *)
Inductive Ext : ty -> Type :=
(* interpreter *)
| Import (stmt : string) : Ext TUnit
| Magic (line : string) : Ext TUnit
| Shell (cmd : string) : Ext TUnit
| Print (x : printable) : Ext TUnit
| PPrint (d : gmap string Qc) : Ext TUnit
| Open (fname : string) : Ext (TObj CFile)
| Close (f : ref CFile) : Ext TUnit
| JsonLoad (f : ref CFile) : Ext TEci
(* clease.settings *)
| Concentration (basis_elements : list (list string)) : Ext (TObj CConcentration)
| ConcAttr (conc : ref CConcentration) (name : string) : Ext (TObj CObject)
| CEBulk (crystalstructure : string) (a : Qc) (supercell_factor : nat)
         (concentration : ref CConcentration) (db_name : string)
         (max_cluster_dia : list Qc) : Ext (TObj CSettings)
| SettingsSave (settings : ref CSettings) (fname : string) : Ext TUnit
| ViewClusters (settings : ref CSettings) : Ext TUnit
(* clease.structgen *)
| NewStructures (settings : ref CSettings) (generation_number : option nat)
                (struct_per_gen : nat) : Ext (TObj CNewStructures)
| GenerateInitialPool (ns : ref CNewStructures) : Ext TUnit
| GenerateRandomStructures (ns : ref CNewStructures) (atoms : ref CAtoms) : Ext TUnit
| GenerateProbeStructure (ns : ref CNewStructures) : Ext TUnit
| GenerateGsStructure (ns : ref CNewStructures) (atoms : atoms_arg)
                      (eci : gmap string Qc)
                      (init_temp final_temp num_temp num_steps_per_temp : nat)
                      (random_composition : bool) : Ext TUnit
(* ase.db *)
| Connect (name : string) : Ext (TObj CDatabase)
| DbGet (db : ref CDatabase) (q : query) : Ext TRow
| DbSelect (db : ref CDatabase) (q : query) : Ext TRows
| ToAtoms (row : Row) : Ext (TObj CAtoms)
| Repeat (atoms : ref CAtoms) (rep : nat * nat * nat) : Ext (TObj CAtoms)
(* ase calculators, optimizers, io *)
| EMT : Ext (TObj CCalculator)
| SetCalc (atoms : ref CAtoms) (calc : ref CCalculator) : Ext TUnit
| UnitCellFilter (atoms : ref CAtoms) : Ext (TObj CFilter)
| BFGS (ucf : ref CFilter) (logfile : option string) : Ext (TObj COptimizer)
| OptRun (opt : ref COptimizer) (fmax : Qc) : Ext TUnit
| UpdateDb (uid_initial : nat) (final_struct : ref CAtoms) (db_name : string) : Ext TUnit
| Read (fname : string) : Ext (TObj CAtoms)
| View (images : list (ref CAtoms)) : Ext TUnit
(* clease.Evaluate, clease.plot_post_process, numpy *)
| Evaluate (settings : ref CSettings) (fitting_scheme scoring_scheme : string)
           (nsplits : nat) : Ext (TObj CEvaluate)
| AlphaCV (eva : ref CEvaluate) (alpha_min alpha_max : Qc) (num_alpha : nat) : Ext TScan
| Argmin (a : list Qc) : Ext TIndex
| SetFittingScheme (eva : ref CEvaluate) (fitting_scheme : string) (alpha : Qc) : Ext TUnit
| Fit (eva : ref CEvaluate) : Ext TUnit
| GetEci (eva : ref CEvaluate) : Ext TUnit
| GetEciDict (eva : ref CEvaluate) : Ext TEci
| SaveEci (eva : ref CEvaluate) (fname : string) : Ext TUnit
| Plot (kind : plot) (eva : ref CEvaluate) : Ext TUnit.

(** ** Programs

    A cell is a tree of calls.  After [Call c k] an exception of [c] ends the
    program; after [Try c k] the program goes on with what [c] returned or
    raised, which is what the body of a [with] block needs, whose file is
    closed on the way out of the block whether the body raised or not.  The
    notebook has no [try] statement. *)

Inductive Prog (A : Type) : Type :=
| Ret (a : A)
| Throw (e : exn)
| Call (t : ty) (c : Ext t) (k : El t -> Prog A)
| Try (t : ty) (c : Ext t) (k : Result (El t) -> Prog A).
Arguments Ret {A} a.
Arguments Throw {A} e.
Arguments Call {A t} c k.
Arguments Try {A t} c k.

Fixpoint bind {A B : Type} (p : Prog A) (f : A -> Prog B) : Prog B :=
  match p with
  | Ret a => f a
  | Throw e => Throw e
  | Call c k => Call c (fun x => bind (k x) f)
  | Try c k => Try c (fun r => bind (k r) f)
  end.

Definition call {t : ty} (c : Ext t) : Prog (El t) := Call c Ret.

#[global] Instance Prog_ret : MRet Prog := @Ret.
#[global] Instance Prog_bind : MBind Prog := fun A B f p => bind p f.

(** [for x in l: body], the loop threading the variables the body assigns. *)
Fixpoint for_in {X S : Type} (l : list X) (body : X -> S -> Prog S) (s : S) : Prog S :=
  match l with
  | [] => Ret s
  | x :: l' => bind (body x s) (for_in l' body)
  end.

(** *** Python built-ins used by the cells *)

(** [row.<key>] for a key-value pair of the row. *)
Definition getattr (row : Row) (key : string) : Prog value :=
  match key_value_pairs row !! key with
  | Some v => Ret v
  | None => Throw (AttributeError key)
  end.

(** [row.energy]. *)
Definition energy_of (row : Row) : Prog Qc :=
  match row_energy row with
  | Some e => Ret e
  | None => Throw (AttributeError "energy")
  end.

(** Floats.  A float is the rational it stands for, and [round_float q] is
    the float nearest to [q], ties going to the even significand, the
    rounding of IEEE 754 binary64 arithmetic: 53 bits of significand, the
    exponent of the last bit not below -1074.  (The quotient of a float by a
    positive int is never beyond the largest float, so that infinities are
    left out.) *)

(** [a / b] rounded to the nearest integer, ties to the even one. *)
Definition round_half_even (a b : Z) : Z :=
  let q := (a / b)%Z in
  match (2 * (a mod b) ?= b)%Z with
  | Lt => q
  | Gt => (q + 1)%Z
  | Eq => if Z.even q then q else (q + 1)%Z
  end.

(** [a / (b * 2^e)] as a fraction of integers. *)
Definition scaled (a b e : Z) : Z * Z :=
  if (0 <=? e)%Z then (a, (b * 2 ^ e)%Z) else ((a * 2 ^ (- e))%Z, b).

(** The exponent of the last bit of the float nearest to [a / b], for
    positive [a] and [b]. *)
Definition float_exponent (a b : Z) : Z :=
  let k0 := (Z.log2 a - Z.log2 b)%Z in
  let k := if (let nd := scaled a b k0 in nd.1 <? nd.2)%Z then (k0 - 1)%Z else k0 in
  Z.max (k - 52) (-1074).

(** [m * 2^e]. *)
Definition times_pow2 (m e : Z) : Qc :=
  if (0 <=? e)%Z then Q2Qc (inject_Z (m * 2 ^ e))
  else Q2Qc (m # Z.to_pos (2 ^ (- e))).

Definition round_float (q : Qc) : Qc :=
  let a := Qnum q in
  let b := Z.pos (Qden q) in
  if (a =? 0)%Z then q
  else
    let e := float_exponent (Z.abs a) b in
    let nd := scaled (Z.abs a) b e in
    times_pow2 (Z.sgn a * round_half_even nd.1 nd.2) e.

(** [x / n] for a float [x] and an int [n]: the int is converted to a float
    and the quotient is rounded to a float. *)
Definition per_atom (x : Qc) (n : nat) : Qc :=
  round_float (x / round_float (Q2Qc (inject_Z (Z.of_nat n))))%Qc.

Arguments round_float : simpl never.
Arguments per_atom : simpl never.

Definition truediv (x : Qc) (n : nat) : Prog Qc :=
  match n with
  | O => Throw ZeroDivisionError
  | S _ => Ret (per_atom x n)
  end.

(** [l[i]]. *)
Definition getitem {A : Type} (l : list A) (i : nat) : Prog A :=
  match l !! i with
  | Some x => Ret x
  | None => Throw IndexError
  end.

(** [l.sort(key=...)]: ascending and stable, as Python's sort is. *)
Fixpoint insert_key {A : Type} (key : A -> Qc) (x : A) (l : list A) : list A :=
  match l with
  | [] => [x]
  | y :: l' =>
      if bool_decide (key x ≤ key y)%Qc then x :: y :: l'
      else y :: insert_key key x l'
  end.

Fixpoint sort_key {A : Type} (key : A -> Qc) (l : list A) : list A :=
  match l with
  | [] => []
  | x :: l' => insert_key key x (sort_key key l')
  end.

Definition key_le {A : Type} (key : A -> Qc) (x y : A) : Prop := (key x <= key y)%Qc.

(** ** The notebook, cell by cell

    A cell takes the notebook variables it reads and returns those that later
    cells read.  Numbers in the comments are the positions of the cells in
    the notebook file. *)

Definition db_name : string := "aucu_script.db".
Definition eci_file : string := "cluster_name_eci_l1.json".

(** Cell 2. *)
Definition concentration_cell : Prog (ref CConcentration) :=
  call (Import "from clease.settings import Concentration");;
  conc ← call (Concentration [["Au"; "Cu"]]);
  call (Print (PStr "Done"));;
  mret conc.

(** Cell 4. *)
Definition print_constraints_cell (conc : ref CConcentration) : Prog unit :=
  A_eq ← call (ConcAttr conc "A_eq");
  b_eq ← call (ConcAttr conc "b_eq");
  A_lb ← call (ConcAttr conc "A_lb");
  b_lb ← call (ConcAttr conc "b_lb");
  call (Print (PFormat "A_eq = {}\nb_eq = {}\nA_lb = {}\nb_lb = {}"
                       [A_eq; b_eq; A_lb; b_lb])).

(** Cell 7. *)
Definition settings_cell (conc : ref CConcentration) : Prog (ref CSettings) :=
  call (Import "from clease.settings import CEBulk");;
  settings ← call (CEBulk "fcc" (lit 38 10) 64 conc db_name
                          [lit 7 1; lit 5 1; lit 45 10]);
  call (SettingsSave settings "settings.json");;
  call (Print (PStr "Done"));;
  mret settings.

(** Cells 9, 17, 19 and 23: a shell command. *)
Definition ase_db_cell (cmd : string) : Prog unit := call (Shell cmd).

(** Cell 11. *)
Definition view_clusters_cell (settings : ref CSettings) : Prog unit :=
  call (ViewClusters settings).

(** Cell 14. *)
Definition initial_pool_cell (settings : ref CSettings) : Prog unit :=
  call (Import "from clease.structgen import NewStructures");;
  ns ← call (NewStructures settings (Some 0) 10);
  call (GenerateInitialPool ns);;
  call (Print (PStr "Done")).

(** Cell 16. *)
Definition random_structures_cell (settings : ref CSettings) : Prog unit :=
  call (Import "from clease.structgen import NewStructures");;
  call (Import "from ase.db import connect");;
  db ← call (Connect db_name);
  row ← call (DbGet db [("name", VStr "primitive_cell")]);
  atoms ← call (ToAtoms row);
  template ← call (Repeat atoms (3, 3, 3));
  ns ← call (NewStructures settings (Some 1) 10);
  call (GenerateRandomStructures ns template).

(** Cell 21: the body of the loop, then the cell. *)
Definition calculation_body (calc : ref CCalculator) (row : Row) : Prog unit :=
  call (Print (PFormatInt "Calculating the structure in row ID = {}." (row_id row)));;
  atoms ← call (ToAtoms row);
  call (SetCalc atoms calc);;
  ucf ← call (UnitCellFilter atoms);
  opt ← call (BFGS ucf None);
  call (OptRun opt (lit 2 100));;
  call (UpdateDb (row_id row) atoms db_name).

Definition calculation_loop (calc : ref CCalculator) (db : ref CDatabase) : Prog unit :=
  rows ← call (DbSelect db [("converged", VBool false)]);
  for_in rows (fun row _ => calculation_body calc row) tt.

Definition calculation_cell : Prog (ref CDatabase) :=
  call (Import "from ase.calculators.emt import EMT");;
  call (Import "from ase.db import connect");;
  call (Import "from ase.constraints import UnitCellFilter");;
  call (Import "from ase.optimize import BFGS");;
  call (Import "from clease.tools import update_db");;
  calc ← call EMT;
  db ← call (Connect db_name);
  calculation_loop calc db;;
  call (Print (PStr "Done."));;
  mret db.

(** Cell 25. *)
Definition evaluation_cell (settings : ref CSettings) : Prog unit :=
  call (Magic "%matplotlib notebook");;
  call (Import "from clease import Evaluate");;
  call (Import "import clease.plot_post_process as pp");;
  call (Import "from pprint import pprint");;
  eva ← call (Evaluate settings "l1" "k-fold" 10);
  scan ← call (AlphaCV eva (lit 1 10000000%positive) (lit 1 1) 50);
  let alphas := scan.1 in
  let cvs := scan.2 in
  call (Plot plot_cv eva);;
  idx ← call (Argmin cvs);
  alpha ← getitem alphas idx;
  call (SetFittingScheme eva "l1" alpha);;
  call (Fit eva);;
  call (GetEci eva);;
  call (Plot plot_fit eva);;
  call (Plot plot_convex_hull eva);;
  call (Plot plot_eci eva);;
  d ← call (GetEciDict eva);
  call (PPrint d);;
  call (SaveEci eva eci_file).

(** Cell 27. *)
Definition probe_structures_cell (settings : ref CSettings) : Prog unit :=
  ns ← call (NewStructures settings None 10);
  call (GenerateProbeStructure ns);;
  call (Print (PStr "Done")).

(** What a name of the body of a [with] block is bound to once the block is
    left: the value, or the exception goes on. *)
Definition reraise {A : Type} (r : Result A) : Prog A :=
  match r with
  | Ok a => Ret a
  | Raise e => Throw e
  end.

(** [with open(fname) as f: eci = json.load(f)]: the file is closed when the
    block is left, also when [json.load] raised, and the exception of
    [json.load] goes on after that (that of the close, if the close fails as
    well). *)
Definition load_eci (fname : string) : Prog (gmap string Qc) :=
  f ← call (Open fname);
  Try (JsonLoad f) (fun loaded =>
    call (Close f);;
    reraise loaded).

(** Cell 29. *)
Definition gs_random_cell (settings : ref CSettings) (db : ref CDatabase) : Prog unit :=
  call (Import "import json");;
  row ← call (DbGet db [("name", VStr "primitive_cell")]);
  atoms ← call (ToAtoms row);
  template ← call (Repeat atoms (6, 6, 6));
  eci ← load_eci eci_file;
  ns ← call (NewStructures settings None 1);
  call (GenerateGsStructure ns (One template) eci 2000 1 10 5000 true);;
  call (Print (PStr "Done")).

(** Cell 31. *)
Definition templates_cell : Prog (list (ref CAtoms)) :=
  call (Import "from ase.io import read");;
  call (Import "from ase.visualize import view");;
  au3cu ← call (Read "template_au3cu.traj");
  aucu ← call (Read "template_aucu.traj");
  aucu3 ← call (Read "template_aucu3.traj");
  let template_list := [au3cu; aucu; aucu3] in
  call (View template_list);;
  mret template_list.

(** Cell 32. *)
Definition gs_templates_cell (settings : ref CSettings)
    (template_list : list (ref CAtoms)) : Prog unit :=
  call (Import "import json");;
  eci ← load_eci eci_file;
  ns ← call (NewStructures settings None 3);
  call (GenerateGsStructure ns (Many template_list) eci 2000 1 10 5000 false);;
  call (Print (PStr "Done")).

(** Cell 35. *)
Definition stable_phases_cell : Prog unit :=
  call (Import "from ase.visualize import view");;
  call (Import "from ase.io import read");;
  let struct := [] in
  a ← call (Read "Au3Cu1.xyz");
  let struct := struct ++ [a] in
  a ← call (Read "Au1Cu1.xyz");
  let struct := struct ++ [a] in
  a ← call (Read "Au1Cu3.xyz");
  let struct := struct ++ [a] in
  call (View struct).

(** Cell 37.  The cell repeats one block for [Au3Cu1], [Au1Cu1] and [Au1Cu3]:
    collect [(row.name, energy per atom)] over the initial structures of the
    formula unit, sort by the energy, append the first name to [names]. *)
Definition energy_per_atom_body (db : ref CDatabase) (row : Row)
    (l : list (value * Qc)) : Prog (list (value * Qc)) :=
  final_struct_id ← getattr row "final_struct_id";
  final ← call (DbGet db [("id", final_struct_id)]);
  energy ← energy_of final;
  energy ← truediv energy (row_natoms row);
  name ← getattr row "name";
  mret (l ++ [(name, energy)]).

Definition minimum_energy_block (db : ref CDatabase) (formula_unit : string)
    (names : list value) : Prog (list value) :=
  rows ← call (DbSelect db [("formula_unit", VStr formula_unit);
                            ("struct_type", VStr "initial")]);
  l ← for_in rows (energy_per_atom_body db) [];
  let l := sort_key snd l in
  first ← getitem l 0;
  mret (names ++ [first.1]).

Definition minimum_energy_names (db : ref CDatabase) : Prog (list value) :=
  let names := [] in
  names ← minimum_energy_block db "Au3Cu1" names;
  names ← minimum_energy_block db "Au1Cu1" names;
  names ← minimum_energy_block db "Au1Cu3" names;
  mret names.

Definition view_image_body (db : ref CDatabase) (name : value)
    (images : list (ref CAtoms)) : Prog (list (ref CAtoms)) :=
  row ← call (DbGet db [("name", name); ("struct_type", VStr "initial")]);
  atoms ← call (ToAtoms row);
  mret (images ++ [atoms]).

Definition minimum_energy_cell (db : ref CDatabase) : Prog unit :=
  names ← minimum_energy_names db;
  call (Print (PList names));;
  images ← for_in names (view_image_body db) [];
  call (View images).

(** The cells in the order of the file. *)
Definition notebook : Prog unit :=
  conc ← concentration_cell;
  print_constraints_cell conc;;
  settings ← settings_cell conc;
  ase_db_cell "ase db aucu_script.db -c +name -L 0";;
  view_clusters_cell settings;;
  initial_pool_cell settings;;
  random_structures_cell settings;;
  ase_db_cell "ase db aucu_script.db -c +name -L 0";;
  ase_db_cell "ase db aucu_script.db -c +name,gen,struct_type -L 0";;
  db ← calculation_cell;
  ase_db_cell "ase db aucu_script.db -c +gen,struct_type,final_struct_id -L 0";;
  evaluation_cell settings;;
  probe_structures_cell settings;;
  gs_random_cell settings db;;
  template_list ← templates_cell;
  gs_templates_cell settings template_list;;
  stable_phases_cell;;
  minimum_energy_cell db.

(** ** Running a program against the libraries *)

(** What the libraries do: a call in a world gives a result, or raises, and
    the next world. *)
Definition Handler (W : Type) : Type := forall t, Ext t -> W -> Result (El t) * W.

(** One call as it happened: the call, what it returned or raised, and the
    world it left. *)
Record Entry (W : Type) : Type := mkEntry {
  ent_ty : ty;
  ent_call : Ext ent_ty;
  ent_result : Result (El ent_ty);
  ent_world : W
}.
Arguments mkEntry {W ent_ty} ent_call ent_result ent_world.
Arguments ent_ty {W} e.
Arguments ent_call {W} e.
Arguments ent_result {W} e.
Arguments ent_world {W} e.

Definition raised {W : Type} (e : Entry W) : option exn :=
  match ent_result e with
  | Ok _ => None
  | Raise ex => Some ex
  end.

Fixpoint run {W A : Type} (h : Handler W) (p : Prog A) (w : W)
    : list (Entry W) * Result A * W :=
  match p with
  | Ret a => ([], Ok a, w)
  | Throw e => ([], Raise e, w)
  | Call c k =>
      let rw := h _ c w in
      match rw.1 with
      | Ok x =>
          let out := run h (k x) rw.2 in
          (mkEntry c rw.1 rw.2 :: out.1.1, out.1.2, out.2)
      | Raise e => ([mkEntry c rw.1 rw.2], Raise e, rw.2)
      end
  | Try c k =>
      let rw := h _ c w in
      let out := run h (k rw.1) rw.2 in
      (mkEntry c rw.1 rw.2 :: out.1.1, out.1.2, out.2)
  end.

Definition trace {W A : Type} (h : Handler W) (p : Prog A) (w : W) : list (Entry W) :=
  (run h p w).1.1.
Definition outcome {W A : Type} (h : Handler W) (p : Prog A) (w : W) : Result A :=
  (run h p w).1.2.
Definition final {W A : Type} (h : Handler W) (p : Prog A) (w : W) : W :=
  (run h p w).2.

Arguments trace : simpl never.
Arguments outcome : simpl never.
Arguments final : simpl never.

(** *** Reference behaviour of the database and of numpy *)

(** [db.select(q)]: the rows that match, in the order of the database. *)
Definition select_rows (q : query) (rows : list Row) : list Row :=
  filter (fun row => matches q row = true) rows.

(** [db.get(q)]: the one row that matches. *)
Definition get_row (q : query) (rows : list Row) : Result Row :=
  match select_rows q rows with
  | [] => Raise KeyError
  | [row] => Ok row
  | _ :: _ :: _ => Raise AssertionError
  end.

(** [a.argmin()]: the index of the first occurrence of the minimum. *)
Fixpoint argmin_from (best : Qc) (ibest i : nat) (l : list Qc) : nat :=
  match l with
  | [] => ibest
  | x :: l' =>
      if bool_decide (x < best)%Qc then argmin_from x i (S i) l'
      else argmin_from best ibest (S i) l'
  end.

Definition argmin (l : list Qc) : Result nat :=
  match l with
  | [] => Raise ValueError
  | x :: l' => Ok (argmin_from x 0 1 l')
  end.

(** ** A small toolkit

    One concrete behaviour of the libraries, small enough to compute with:
    objects are numbered as they are created, the database is a list of rows,
    files are named contents.  [update_db] follows the notebook's description
    of it: it adds an entry with the result under the same [name] and, on the
    initial entry, sets [converged] and [final_struct_id] and empties [started]
    and [queued]. *)
Module Toy.

Inductive FileData : Type :=
| Json (d : gmap string Qc)
| Geometry (natoms : nat)
| Text (s : string).

Record World : Type := mkWorld {
  store : list Row;
  files : gmap string FileData;
  handles : gmap nat string;
  next : nat;
  fitted : gmap string Qc
}.

Definition fresh {c : class} (w : World) : Result (ref c) * World :=
  (Ok (Ref (next w)),
   mkWorld (store w) (files w) (handles w) (S (next w)) (fitted w)).

Definition set_store (l : list Row) (w : World) : World :=
  mkWorld l (files w) (handles w) (next w) (fitted w).

Definition set_files (fs : gmap string FileData) (w : World) : World :=
  mkWorld (store w) fs (handles w) (next w) (fitted w).

Definition set_handles (hs : gmap nat string) (w : World) : World :=
  mkWorld (store w) (files w) hs (next w) (fitted w).

Definition next_id (l : list Row) : nat := S (foldr (fun r m => max (row_id r) m) 0 l).

(** The energy the toy calculator gives the relaxed structure of a row. *)
Definition toy_energy (row : Row) : Qc :=
  Q2Qc (- Z.of_nat (row_id row * row_natoms row) # 10)%Q.

Definition mark_converged (final_id : nat) (row : Row) : Row :=
  mkRow (row_id row) (row_natoms row)
        (<["converged" := VBool true]>
         (<["final_struct_id" := VInt (Z.of_nat final_id)]>
          (delete "started" (delete "queued" (key_value_pairs row)))))
        (row_energy row).

Definition final_row (final_id : nat) (row : Row) : Row :=
  mkRow final_id (row_natoms row)
        (<["struct_type" := VStr "final"]>
         (match key_value_pairs row !! "name" with
          | Some n => {["name" := n]}
          | None => ∅
          end))
        (Some (toy_energy row)).

Definition update_db (uid_initial : nat) (w : World) : Result unit * World :=
  match get_row [("id", VInt (Z.of_nat uid_initial))] (store w) with
  | Ok row =>
      let fid := next_id (store w) in
      (Ok tt,
       set_store (map (fun r => if bool_decide (row_id r = uid_initial)
                                then mark_converged fid r else r) (store w)
                  ++ [final_row fid row]) w)
  | Raise e => (Raise e, w)
  end.

(** The scan of the toy evaluator: [num_alpha] strengths and a score for
    each, lowest at the eighteenth. *)
Definition toy_scan (num_alpha : nat) : list Qc * list Qc :=
(map (fun i => Q2Qc (Z.of_nat (S i) # 1000)%Q) (seq 0 num_alpha),
 map (fun i => Q2Qc ((Z.of_nat i - 17) * (Z.of_nat i - 17) + 3 # 100)%Q)
     (seq 0 num_alpha)).

Definition toolkit : Handler World :=
  fun t c =>
    match c in Ext t return World -> Result (El t) * World with
    | Import _ | Magic _ | Shell _ | Print _ | PPrint _ => fun w => (Ok tt, w)
    | Open fname => fun w =>
        match files w !! fname with
        | Some _ => (Ok (Ref (next w)),
                     mkWorld (store w) (files w) (<[next w := fname]> (handles w))
                             (S (next w)) (fitted w))
        | None => (Raise FileNotFoundError, w)
        end
    | Close f => fun w => (Ok tt, set_handles (delete (addr f) (handles w)) w)
    | JsonLoad f => fun w =>
        match handles w !! addr f with
        | Some fname =>
            match files w !! fname with
            | Some (Json d) => (Ok d, w)
            | _ => (Raise (LibraryError "JSONDecodeError"), w)
            end
        | None => (Raise ValueError, w)
        end
    | Concentration _ => fresh
    | ConcAttr _ _ => fresh
    | CEBulk _ _ _ _ _ _ => fresh
    | SettingsSave _ fname => fun w =>
        (Ok tt, set_files (<[fname := Text "settings"]> (files w)) w)
    | ViewClusters _ => fun w => (Ok tt, w)
    | NewStructures _ _ _ => fresh
    | GenerateInitialPool _ | GenerateRandomStructures _ _
    | GenerateProbeStructure _ | GenerateGsStructure _ _ _ _ _ _ _ _ =>
        fun w => (Ok tt, w)
    | Connect _ => fresh
    | DbGet _ q => fun w => (get_row q (store w), w)
    | DbSelect _ q => fun w => (Ok (select_rows q (store w)), w)
    | ToAtoms _ => fresh
    | Repeat _ _ => fresh
    | EMT => fresh
    | SetCalc _ _ => fun w => (Ok tt, w)
    | UnitCellFilter _ => fresh
    | BFGS _ _ => fresh
    | OptRun _ _ => fun w => (Ok tt, w)
    | UpdateDb uid _ _ => update_db uid
    | Read fname => fun w =>
        match files w !! fname with
        | Some _ => fresh w
        | None => (Raise FileNotFoundError, w)
        end
    | View _ => fun w => (Ok tt, w)
    | Evaluate _ _ _ _ => fresh
    | AlphaCV _ _ _ num_alpha => fun w => (Ok (toy_scan num_alpha), w)
    | Argmin a => fun w => (argmin a, w)
    | SetFittingScheme _ _ _ | Fit _ | GetEci _ | Plot _ _ => fun w => (Ok tt, w)
    | GetEciDict _ => fun w => (Ok (fitted w), w)
    | SaveEci _ fname => fun w =>
        (Ok tt, set_files (<[fname := Json (fitted w)]> (files w)) w)
    end.

(** A database after the first rounds: the primitive cell, initial
    structures of the three formula units, some of them calculated. *)
Definition initial (id natoms : nat) (name formula : string) (converged : bool) : Row :=
  mkRow id natoms
        (<["name" := VStr name]>
         (<["formula_unit" := VStr formula]>
          (<["struct_type" := VStr "initial"]>
           (<["converged" := VBool converged]>
            (<["gen" := VInt 0]> ∅)))))
        None.

Definition primitive_cell : Row :=
  mkRow 1 1 {["name" := VStr "primitive_cell"]} None.

Definition rows0 : list Row :=
  [ primitive_cell;
    initial 2 4 "Au3Cu1_0" "Au3Cu1" false;
    initial 3 8 "Au3Cu1_1" "Au3Cu1" false;
    initial 4 2 "Au1Cu1_0" "Au1Cu1" false;
    initial 5 4 "Au1Cu3_0" "Au1Cu3" false;
    initial 6 8 "Au1Cu3_1" "Au1Cu3" false ].

Definition files0 : gmap string FileData :=
  list_to_map
    [ ("template_au3cu.traj", Geometry 216); ("template_aucu.traj", Geometry 216);
      ("template_aucu3.traj", Geometry 216); ("Au3Cu1.xyz", Geometry 4);
      ("Au1Cu1.xyz", Geometry 2); ("Au1Cu3.xyz", Geometry 4) ].

Definition world0 : World :=
  mkWorld rows0 files0 ∅ 0
          (<["c0" := lit (-37) 10]> (<["c2_d0000_0_00" := lit 12 100]> ∅)).


(** The database once the calculation cell has run on [world0]. *)
Definition calculated : World := final toolkit calculation_cell world0.

(** The same, with no structure of [Au1Cu1]. *)
Definition without_aucu : World :=
  set_store
    (filter (fun row => key_value_pairs row !! "formula_unit" <> Some (VStr "Au1Cu1"))
            (store calculated))
    calculated.

(** A database with one structure of [Au3Cu1], not calculated, and none of
    the other formula units. *)
Definition one_pending : World :=
  set_store [primitive_cell; initial 2 4 "Au3Cu1_0" "Au3Cu1" false] world0.


(** json in the small toolkit: a file holds the mapping itself. *)
Definition toy_path (w : World) (f : ref CFile) : option string := handles w !! addr f.

Definition toy_loads (c : FileData) : Result (gmap string Qc) :=
match c with
| Json d => Ok d
| _ => Raise (LibraryError "JSONDecodeError")
end.

End Toy.

(** A database whose coefficients file does not hold json. *)
Definition not_json : Toy.World :=
  Toy.set_files (<[eci_file := Toy.Text "not json"]> Toy.files0) Toy.world0.


(** ** Properties of runs *)

(** Packed calls, to compare calls of different result types. *)
Definition packed : Type := sigT Ext.
Definition pack {t : ty} (c : Ext t) : packed := existT t c.
Definition calls {W : Type} (tr : list (Entry W)) : list packed :=
  map (fun e => pack (ent_call e)) tr.

(** *** Exceptions (C5) *)

(** The file a call loads and the file a call closes. *)
Definition loaded_file {t : ty} (c : Ext t) : option (ref CFile) :=
  match c with
  | JsonLoad f => Some f
  | _ => None
  end.

Definition closed_file {t : ty} (c : Ext t) : option (ref CFile) :=
  match c with
  | Close f => Some f
  | _ => None
  end.

(** A trace in which an exception is not caught.  A call that raises is the
    last call and its exception is the outcome of the run.  The one call made
    after a failure is the close of the file on the way out of the [with]
    block, when [json.load] raised in it: the exception of [json.load] is
    then the outcome, unless the close raises as well, whose exception is
    the one that goes on. *)
Fixpoint unhandled {W A : Type} (tr : list (Entry W)) (out : Result A) : Prop :=
  match tr with
  | [] => True
  | e :: tr' =>
      match raised e with
      | None => unhandled tr' out
      | Some ex =>
          match loaded_file (ent_call e) with
          | None => tr' = [] /\ out = Raise ex
          | Some f =>
              exists c, tr' = [c] /\ closed_file (ent_call c) = Some f /\
                        out = Raise (default ex (raised c))
          end
      end
  end.

(** Every exception raised in the trace is the outcome of the run. *)
Definition unmodified {W A : Type} (tr : list (Entry W)) (out : Result A) : Prop :=
  forall e ex, e ∈ tr -> raised e = Some ex -> out = Raise ex.

(** Closing a file does not fail. *)
Definition closes_quietly {W : Type} (h : Handler W) : Prop :=
  forall f w, (h _ (Close f) w).1 = Ok tt.

(** The programs without a handler: a call whose exception does not end the
    program is the [json.load] of a [with] block, after whose failure the
    program closes the file and raises the exception again. *)
Definition closes_and_reraises {A : Type} (f : ref CFile) (e : exn) (p : Prog A) : Prop :=
  match p with
  | Call c k => closed_file c = Some f /\ forall x, k x = Throw e
  | _ => False
  end.

Fixpoint propagating {A : Type} (p : Prog A) : Prop :=
  match p with
  | Ret _ | Throw _ => True
  | Call c k => loaded_file c = None /\ forall x, propagating (k x)
  | Try c k =>
      exists f, loaded_file c = Some f /\
                (forall x, propagating (k (Ok x))) /\
                (forall e, closes_and_reraises f e (k (Raise e)))
  end.

(** The code cells, on the variables they read. *)
Definition discard {A : Type} (p : Prog A) : Prog unit := p ;; mret tt.

(** All code cells but the last, and all of them. *)
Definition plumbing_cells (conc : ref CConcentration) (settings : ref CSettings)
    (db : ref CDatabase) (template_list : list (ref CAtoms)) : list (Prog unit) :=
  [ discard concentration_cell;
    print_constraints_cell conc;
    discard (settings_cell conc);
    ase_db_cell "ase db aucu_script.db -c +name -L 0";
    view_clusters_cell settings;
    initial_pool_cell settings;
    random_structures_cell settings;
    ase_db_cell "ase db aucu_script.db -c +name -L 0";
    ase_db_cell "ase db aucu_script.db -c +name,gen,struct_type -L 0";
    discard calculation_cell;
    ase_db_cell "ase db aucu_script.db -c +gen,struct_type,final_struct_id -L 0";
    evaluation_cell settings;
    probe_structures_cell settings;
    gs_random_cell settings db;
    discard templates_cell;
    gs_templates_cell settings template_list;
    stable_phases_cell ].

Definition code_cells (conc : ref CConcentration) (settings : ref CSettings)
    (db : ref CDatabase) (template_list : list (ref CAtoms)) : list (Prog unit) :=
  plumbing_cells conc settings db template_list ++ [minimum_energy_cell db].

(** *** Order of the stages (C6) *)

Inductive stage : Type :=
| Constraints | Generation | Relaxation | Fitting | GroundState.

Definition stage_index (s : stage) : nat :=
  match s with
  | Constraints => 0
  | Generation => 1
  | Relaxation => 2
  | Fitting => 3
  | GroundState => 4
  end.

(** [db.select(converged=False)], the query of the relaxation loop. *)
Definition is_pending_query (q : query) : bool :=
  match q with
  | [(key, VBool false)] => String.eqb key "converged"
  | _ => false
  end.

(** The stage a call belongs to, for the calls that do the work of a stage.
    The relaxation stage starts with the selection of the structures that are
    not converged; creating the calculator is no work of the stage. *)
Definition stage_of {t : ty} (c : Ext t) : option stage :=
  match c with
  | Concentration _ => Some Constraints
  | GenerateInitialPool _ | GenerateRandomStructures _ _
  | GenerateProbeStructure _ => Some Generation
  | DbSelect _ q => if is_pending_query q then Some Relaxation else None
  | SetCalc _ _ | UnitCellFilter _ | BFGS _ _ | OptRun _ _
  | UpdateDb _ _ _ => Some Relaxation
  | Evaluate _ _ _ _ | AlphaCV _ _ _ _ | SetFittingScheme _ _ _
  | Fit _ => Some Fitting
  | GenerateGsStructure _ _ _ _ _ _ _ _ => Some GroundState
  | _ => None
  end.

Definition entry_stage {W : Type} (e : Entry W) : option nat :=
  stage_index <$> stage_of (ent_call e).

(** No call of a stage before a call of each earlier stage. *)
Definition stages_in_order {W : Type} (tr : list (Entry W)) : Prop :=
  forall pre e post j,
    tr = pre ++ e :: post -> entry_stage e = Some j ->
    forall i, i < j -> exists e', e' ∈ pre /\ entry_stage e' = Some i.

Definition all_stages {W : Type} (tr : list (Entry W)) : Prop :=
  forall i, i < 5 -> exists e, e ∈ tr /\ entry_stage e = Some i.

(** *** Monitors and weakest preconditions *)

Section Monitor.
Context {W S : Type}.
Variable ok : S -> Entry W -> Prop.
Variable next : S -> Entry W -> S.

Fixpoint accepted (s : S) (tr : list (Entry W)) : Prop :=
  match tr with
  | [] => True
  | e :: tr' => ok s e /\ accepted (next s e) tr'
  end.

Definition after (s : S) (tr : list (Entry W)) : S := foldl next s tr.

Variable h : Handler W.

Fixpoint wp {A : Type} (p : Prog A) (Q : Result A -> S -> W -> Prop)
    (s : S) (w : W) : Prop :=
  match p with
  | Ret a => Q (Ok a) s w
  | Throw e => Q (Raise e) s w
  | Call c k =>
      forall r w', h _ c w = (r, w') ->
        ok s (mkEntry c r w') /\
        match r with
        | Ok x => wp (k x) Q (next s (mkEntry c r w')) w'
        | Raise ex => Q (Raise ex) (next s (mkEntry c r w')) w'
        end
  | Try c k =>
      forall r w', h _ c w = (r, w') ->
        ok s (mkEntry c r w') /\ wp (k r) Q (next s (mkEntry c r w')) w'
  end.
End Monitor.

(** The monitor of the stages: the state is the number of stages started. *)
Definition stage_ok {W : Type} (n : nat) (e : Entry W) : Prop :=
  match entry_stage e with
  | Some j => j <= n
  | None => True
  end.

Definition stage_next {W : Type} (n : nat) (e : Entry W) : nat :=
  match entry_stage e with
  | Some j => max n (S j)
  | None => n
  end.

(** The run, if it completes, has started [n] stages. *)
Definition reaches {W A : Type} (n : nat) (r : Result A) (s : nat) (_ : W) : Prop :=
  match r with
  | Ok _ => s = n
  | Raise _ => True
  end.

(** ** What the notebook relies on in the libraries *)

(** Calls that may write the structure database. *)
Definition writes_db {t : ty} (c : Ext t) : bool :=
  match c with
  | CEBulk _ _ _ _ _ _ | GenerateInitialPool _ | GenerateRandomStructures _ _
  | GenerateProbeStructure _ | GenerateGsStructure _ _ _ _ _ _ _ _
  | UpdateDb _ _ _ => true
  | _ => false
  end.

(** The database [aucu_script.db], the only one the notebook connects to:
    [rows w] are its rows in the world [w].  [select] and [get] answer from
    these rows, calls that do not write the database leave them as they are,
    and [update_db] leaves the entries of the other ids in place. *)
Record db_contract {W : Type} (h : Handler W) (rows : W -> list Row) : Prop := {
  select_result : forall db q w,
    (h _ (DbSelect db q) w).1 = Ok (select_rows q (rows w));
  get_result : forall db q w,
    (h _ (DbGet db q) w).1 = get_row q (rows w);
  db_frame : forall t (c : Ext t) w,
    writes_db c = false -> rows (h _ c w).2 = rows w;
  update_frame : forall uid atoms name w row,
    row ∈ rows w -> row_id row <> uid ->
    row ∈ rows (h _ (UpdateDb uid atoms name) w).2
}.

(** *** The minimum-energy selection (C9, C10) *)

Definition formula_units : list string := ["Au3Cu1"; "Au1Cu1"; "Au1Cu3"].

(** The initial structures of a formula unit. *)
Definition candidates (formula_unit : string) (rows : list Row) : list Row :=
  select_rows [("formula_unit", VStr formula_unit); ("struct_type", VStr "initial")] rows.

(** Energy of the final structure of a row, per atom of the row: the float
    [energy / row.natoms] that the cell computes. *)
Definition energy_per_atom (rows : list Row) (row : Row) : option Qc :=
  match key_value_pairs row !! "final_struct_id" with
  | Some fid =>
      match get_row [("id", fid)] rows with
      | Ok final =>
          match row_energy final, row_natoms row with
          | Some e, S _ => Some (per_atom e (row_natoms row))
          | _, _ => None
          end
      | Raise _ => None
      end
  | None => None
  end.

(** The row has a name and a final structure with an energy. *)
Definition ready (rows : list Row) (row : Row) : Prop :=
  is_Some (energy_per_atom rows row) /\ is_Some (key_value_pairs row !! "name").

(** The same as a check, and the check that every formula unit of a list has
    initial structures, all of them ready. *)
Definition readyb (rows : list Row) (row : Row) : bool :=
  match energy_per_atom rows row, key_value_pairs row !! "name" with
  | Some _, Some _ => true
  | _, _ => false
  end.

Definition all_ready (rows : list Row) (formula_units : list string) : bool :=
  forallb (fun F => match candidates F rows with
                    | [] => false
                    | row :: l => forallb (readyb rows) (row :: l)
                    end) formula_units.

(** [name] is the name of an initial structure of the formula unit whose
    energy per atom is the lowest among them. *)
Definition lowest (rows : list Row) (formula_unit : string) (name : value) : Prop :=
  exists row e,
    row ∈ candidates formula_unit rows /\
    key_value_pairs row !! "name" = Some name /\
    energy_per_atom rows row = Some e /\
    forall row' e', row' ∈ candidates formula_unit rows ->
      energy_per_atom rows row' = Some e' -> (e <= e')%Qc.

(** Nothing is printed in the trace. *)
Definition prints_nothing {W : Type} (tr : list (Entry W)) : Prop :=
  forall e x, e ∈ tr -> pack (ent_call e) <> pack (Print x).

(** *** The calculation loop (C4) *)

(** The entry of a call that returned [x]. *)
Definition returned {W : Type} {t : ty} (c : Ext t) (x : El t) (e : Entry W) : Prop :=
exists w, e = mkEntry c (Ok x) w.

(** A trace made of the given calls, each with the given result. *)
Definition made_of {W : Type} (steps : list (Entry W -> Prop)) (tr : list (Entry W)) : Prop :=
Forall2 (fun step e => step e) steps tr.

(** The rows the loop selects. *)
Definition pending (rows : list Row) : list Row :=
select_rows [("converged", VBool false)] rows.

(** One iteration of the loop on [row]: the structure of the row gets the EMT
    calculator [calc], is wrapped in a [UnitCellFilter], relaxed by [BFGS]
    down to [fmax=0.02], and handed to [update_db] with the id of the row. *)
Definition relaxation {W : Type} (calc : ref CCalculator) (row : Row)
  (tr : list (Entry W)) : Prop :=
exists atoms ucf opt,
  made_of
    [ returned (Print (PFormatInt "Calculating the structure in row ID = {}." (row_id row))) tt;
      returned (ToAtoms row) atoms;
      returned (SetCalc atoms calc) tt;
      returned (UnitCellFilter atoms) ucf;
      returned (BFGS ucf None) opt;
      returned (OptRun opt (lit 2 100)) tt;
      returned (UpdateDb (row_id row) atoms db_name) tt ] tr.

(** A complete run of the calculation cell over the rows [selected]. *)
Definition calculation_run {W : Type} (selected : list Row) (db : ref CDatabase)
  (tr : list (Entry W)) : Prop :=
exists calc head blocks tail,
  tr = head ++ concat blocks ++ tail /\
  made_of
    [ returned (Import "from ase.calculators.emt import EMT") tt;
      returned (Import "from ase.db import connect") tt;
      returned (Import "from ase.constraints import UnitCellFilter") tt;
      returned (Import "from ase.optimize import BFGS") tt;
      returned (Import "from clease.tools import update_db") tt;
      returned EMT calc;
      returned (Connect db_name) db;
      returned (DbSelect db [("converged", VBool false)]) selected ] head /\
  Forall2 (relaxation calc) selected blocks /\
  made_of [ returned (Print (PStr "Done.")) tt ] tail.

(** The ids handed to [update_db] in a trace, in order. *)
Definition updated {t : ty} (c : Ext t) : list nat :=
match c with
| UpdateDb uid _ _ => [uid]
| _ => []
end.

Definition updated_ids {W : Type} (tr : list (Entry W)) : list nat :=
concat (map (fun e => updated (ent_call e)) tr).

(** Monitors that accept every call. *)
Definition any_call {W S : Type} (_ : S) (_ : Entry W) : Prop := True.
Definition no_state {W : Type} (s : unit) (_ : Entry W) : unit := s.

(** The monitor that records the ids handed to [update_db]. *)
Definition record_updates {W : Type} (s : list nat) (e : Entry W) : list nat :=
s ++ updated (ent_call e).

(** The rows of [keep] are in the database of the world. *)
Definition kept {W : Type} (rows : W -> list Row) (keep : list Row) (w : W) : Prop :=
forall row, row ∈ keep -> row ∈ rows w.

(** *** The choice of the regularization strength (C3) *)

(** What the cell relies on: the scan returns one strength and one score for
    each of the [num_alpha] values it is asked for, and [argmin] is numpy's. *)
Record scan_contract {W : Type} (h : Handler W) : Prop := {
  argmin_result : forall a w, (h _ (Argmin a) w).1 = argmin a;
  alpha_cv_lengths : forall eva lo hi n w alphas cvs,
    (h _ (AlphaCV eva lo hi n) w).1 = Ok (alphas, cvs) ->
    length alphas = n /\ length cvs = n
}.

(** A complete run of the evaluation cell. *)
Definition evaluation_run {W : Type} (settings : ref CSettings) (eva : ref CEvaluate)
  (alphas cvs : list Qc) (idx : nat) (alpha : Qc) (d : gmap string Qc)
  (tr : list (Entry W)) : Prop :=
made_of
  [ returned (Magic "%matplotlib notebook") tt;
    returned (Import "from clease import Evaluate") tt;
    returned (Import "import clease.plot_post_process as pp") tt;
    returned (Import "from pprint import pprint") tt;
    returned (Evaluate settings "l1" "k-fold" 10) eva;
    returned (AlphaCV eva (lit 1 10000000%positive) (lit 1 1) 50) (alphas, cvs);
    returned (Plot plot_cv eva) tt;
    returned (Argmin cvs) idx;
    returned (SetFittingScheme eva "l1" alpha) tt;
    returned (Fit eva) tt;
    returned (GetEci eva) tt;
    returned (Plot plot_fit eva) tt;
    returned (Plot plot_convex_hull eva) tt;
    returned (Plot plot_eci eva) tt;
    returned (GetEciDict eva) d;
    returned (PPrint d) tt;
    returned (SaveEci eva eci_file) tt ] tr.

(** The monitor that remembers whether the last call raised. *)
Definition last_raised {W : Type} (_ : option exn) (e : Entry W) : option exn :=
raised e.

(** The exception of a failed run is the one the last call raised. *)
Definition from_library {W A : Type} (tr : list (Entry W)) (out : Result A) : Prop :=
forall ex, out = Raise ex -> exists e, last tr = Some e /\ raised e = Some ex.

(** *** Files (C2, C8) *)

(** The geometry files that come with the notebook. *)
Definition traj_templates : list string :=
["template_au3cu.traj"; "template_aucu.traj"; "template_aucu3.traj"].

Definition xyz_structures : list string :=
["Au3Cu1.xyz"; "Au1Cu1.xyz"; "Au1Cu3.xyz"].

Definition template_files : list string := traj_templates ++ xyz_structures.

(** The file a call is asked to save. *)
Definition saved {t : ty} (c : Ext t) : list string :=
match c with
| SettingsSave _ fname | SaveEci _ fname => [fname]
| _ => []
end.

(** The call names the file [f]: as a file-name argument, or inside a shell
    command. *)
Definition mentions (f : string) {t : ty} (c : Ext t) : bool :=
match c with
| Open g | SettingsSave _ g | SaveEci _ g | Connect g | Read g
| CEBulk _ _ _ _ g _ | UpdateDb _ _ g => bool_decide (g = f)
| Shell cmd => bool_decide (is_Some (String.index 0 f cmd))
| _ => false
end.

(** What the libraries do to files, as far as the notebook relies on it: a
    call changes no file but the structure database and the file it is asked
    to save. *)
Record files_contract {W C : Type} (h : Handler W) (files : W -> gmap string C) : Prop := {
  file_frame : forall t (c : Ext t) w f,
    f <> db_name -> f ∉ saved c -> files (h _ c w).2 !! f = files w !! f
}.

(** json: [save_eci] dumps a mapping into the file, [json.load] on a file
    opened by name loads its content, and loading what was dumped gives the
    mapping back. *)
Record json_contract {W C : Type} (h : Handler W) (files : W -> gmap string C)
  (path : W -> ref CFile -> option string)
  (dumps : gmap string Qc -> C) (loads : C -> Result (gmap string Qc)) : Prop := {
  json_files : files_contract h files;
  open_path : forall f w fh,
    (h _ (Open f) w).1 = Ok fh -> path (h _ (Open f) w).2 fh = Some f;
  load_result : forall fh w f c,
    path w fh = Some f -> files w !! f = Some c ->
    (h _ (JsonLoad fh) w).1 = loads c;
  save_result : forall eva f w,
    (h _ (SaveEci eva f) w).1 = Ok tt ->
    exists d, files (h _ (SaveEci eva f) w).2 !! f = Some (dumps d);
  round_trip : forall d, loads (dumps d) = Ok d
}.

(** The [eci] and [atoms] arguments of a ground-state search. *)
Definition gs_eci {t : ty} (c : Ext t) : option (gmap string Qc) :=
match c with
| GenerateGsStructure _ _ eci _ _ _ _ _ => Some eci
| _ => None
end.

Definition gs_atoms {t : ty} (c : Ext t) : option atoms_arg :=
match c with
| GenerateGsStructure _ atoms _ _ _ _ _ _ => Some atoms
| _ => None
end.

Definition gs_ecis {W : Type} (tr : list (Entry W)) : list (gmap string Qc) :=
omap (fun e => gs_eci (ent_call e)) tr.

(** Programs that keep a monitor in its state and an invariant of the world. *)
Section Quiet.
Context {W S : Type}.
Variable ok : S -> Entry W -> Prop.
Variable next : S -> Entry W -> S.
Variable Inv : S -> W -> Prop.
Variable h : Handler W.

Definition quiet {A : Type} (p : Prog A) : Prop :=
forall (Q : Result A -> S -> W -> Prop) s w,
  Inv s w ->
  (forall r w', Inv s w' -> Q r s w') ->
  wp ok next h p Q s w.

(** A call that the monitor accepts and that keeps state and invariant. *)
Definition calm {t : ty} (c : Ext t) : Prop :=
forall s w r w',
  Inv s w -> h _ c w = (r, w') ->
  ok s (mkEntry c r w') /\ next s (mkEntry c r w') = s /\ Inv s w'.
End Quiet.

(** The monitor of the coefficients file: its state is the content of the
    file right after [save_eci], once that has happened, and the number of
    ground-state searches so far.  It accepts [save_eci] once, on
    [cluster_name_eci_l1.json], and a ground-state search only with the [eci]
    whose dump is that content. *)
Section EciMonitor.
Context {W C : Type} (files : W -> gmap string C) (dumps : gmap string Qc -> C).

Definition saves_eci {t : ty} (c : Ext t) : bool :=
match c with
| SaveEci _ _ => true
| _ => false
end.

Definition eci_ok (s : option (option C) * nat) (e : Entry W) : Prop :=
(forall eci, gs_eci (ent_call e) = Some eci -> s.1 = Some (Some (dumps eci))) /\
(saves_eci (ent_call e) = true ->
   s.1 = None /\ mentions eci_file (ent_call e) = true /\
   (raised e = None -> exists d, files (ent_world e) !! eci_file = Some (dumps d))).

Definition eci_next (s : option (option C) * nat) (e : Entry W) : option (option C) * nat :=
(if saves_eci (ent_call e) && bool_decide (raised e = None)
 then Some (files (ent_world e) !! eci_file) else s.1,
 s.2 + length (option_list (gs_eci (ent_call e)))).

Definition eci_inv (s : option (option C) * nat) (w : W) : Prop :=
forall c, s.1 = Some c -> files w !! eci_file = c.

(** Calls that leave the monitor and the file alone. *)
Definition eci_calm {t : ty} (c : Ext t) : bool :=
negb (saves_eci c) && bool_decide (gs_eci c = None) && bool_decide (eci_file ∉ saved c).
End EciMonitor.

#[global] Instance ref_eq_dec (c : class) : EqDecision (ref c).
Proof. solve_decision. Defined.

(** The entry is a [save_eci] of [eva] on the coefficients file that returned. *)
Definition save_returned {W : Type} (eva : ref CEvaluate) (e : Entry W) : bool :=
match ent_call e in Ext t return Result (El t) -> bool with
| SaveEci eva' fname => fun r =>
    match r with
    | Ok _ => bool_decide (eva' = eva) && bool_decide (fname = eci_file)
    | Raise _ => false
    end
| _ => fun _ => false
end (ent_result e).

(** The monitor of the geometry files: its state is what the reads have
    returned so far, with the file names.  It accepts a call that names one
    of the files only if it is a read of that file, a ground-state search on
    a list of templates only with the list the reads of the trajectory
    templates returned, and only worlds where the files are as at the start. *)
Section TemplateMonitor.
Context {W C : Type} (files : W -> gmap string C) (w0 : W).

Definition is_read {t : ty} (c : Ext t) : bool :=
match c with
| Read _ => true
| _ => false
end.

Definition read_result (e : Entry W) : list (string * ref CAtoms) :=
match ent_call e in Ext t return Result (El t) -> list (string * ref CAtoms) with
| Read fname => fun r =>
    match r with
    | Ok atoms => [(fname, atoms)]
    | Raise _ => []
    end
| _ => fun _ => []
end (ent_result e).

Definition reads (tr : list (Entry W)) : list (string * ref CAtoms) :=
concat (map read_result tr).

Definition read_from (fs : list string) (s : list (string * ref CAtoms)) : list (ref CAtoms) :=
map snd (filter (fun p => p.1 ∈ fs) s).

Definition gs_many {t : ty} (c : Ext t) : option (list (ref CAtoms)) :=
match c with
| GenerateGsStructure _ (Many l) _ _ _ _ _ _ => Some l
| _ => None
end.

Definition only_read (e : Entry W) : Prop :=
forall f, f ∈ template_files -> mentions f (ent_call e) = true ->
  pack (ent_call e) = pack (Read f).

Definition unchanged (w : W) : Prop :=
forall f, f ∈ template_files -> files w !! f = files w0 !! f.

Definition template_ok (s : list (string * ref CAtoms)) (e : Entry W) : Prop :=
only_read e /\
(forall l, gs_many (ent_call e) = Some l -> l = read_from traj_templates s) /\
unchanged (ent_world e).

Definition template_next (s : list (string * ref CAtoms)) (e : Entry W)
  : list (string * ref CAtoms) :=
s ++ read_result e.

Definition template_inv (_ : list (string * ref CAtoms)) (w : W) : Prop :=
unchanged w.

(** Calls that name none of the files, read nothing and save none of them. *)
Definition template_calm {t : ty} (c : Ext t) : bool :=
forallb (fun f => negb (mentions f c) && bool_decide (f ∉ saved c)) template_files
&& negb (is_read c) && bool_decide (gs_many c = None).
End TemplateMonitor.

(** Complete runs of the two cells that read the geometry files: what the
    reads return is what [view] gets. *)
Definition templates_run {W : Type} (template_list : list (ref CAtoms))
  (tr : list (Entry W)) : Prop :=
exists au3cu aucu aucu3,
  template_list = [au3cu; aucu; aucu3] /\
  made_of
    [ returned (Import "from ase.io import read") tt;
      returned (Import "from ase.visualize import view") tt;
      returned (Read "template_au3cu.traj") au3cu;
      returned (Read "template_aucu.traj") aucu;
      returned (Read "template_aucu3.traj") aucu3;
      returned (View [au3cu; aucu; aucu3]) tt ] tr.

Definition stable_phases_run {W : Type} (tr : list (Entry W)) : Prop :=
exists a1 a2 a3,
  made_of
    [ returned (Import "from ase.visualize import view") tt;
      returned (Import "from ase.io import read") tt;
      returned (Read "Au3Cu1.xyz") a1;
      returned (Read "Au1Cu1.xyz") a2;
      returned (Read "Au1Cu3.xyz") a3;
      returned (View [a1; a2; a3]) tt ] tr.

(** *** Parameter passing (C1) *)

(** The numbers the libraries compute (energies, cross-validation scores,
    regularization strengths, fitted coefficients) relabelled by [phi], in
    what a call returns and in the arguments of a call. *)
Definition relabel_row (phi : Qc -> Qc) (row : Row) : Row :=
mkRow (row_id row) (row_natoms row) (key_value_pairs row) (phi <$> row_energy row).

Definition relabel_el (phi : Qc -> Qc) (t : ty) : El t -> El t :=
match t return El t -> El t with
| TRow => relabel_row phi
| TRows => map (relabel_row phi)
| TScan => fun scan => (map phi scan.1, map phi scan.2)
| TEci => fmap phi
| TUnit => fun x => x
| TObj _ => fun x => x
| TIndex => fun x => x
end.

Definition relabel_result (phi : Qc -> Qc) (t : ty) (r : Result (El t)) : Result (El t) :=
match r with
| Ok x => Ok (relabel_el phi t x)
| Raise e => Raise e
end.

Definition relabel_call (phi : Qc -> Qc) {t : ty} (c : Ext t) : Ext t :=
match c in Ext t return Ext t with
| PPrint d => PPrint (phi <$> d)
| GenerateGsStructure ns atoms eci a b c d rc =>
    GenerateGsStructure ns atoms (phi <$> eci) a b c d rc
| ToAtoms row => ToAtoms (relabel_row phi row)
| Argmin a => Argmin (map phi a)
| SetFittingScheme eva scheme alpha => SetFittingScheme eva scheme (phi alpha)
| c => c
end.

(** [para phi R p q]: [q] makes the calls of [p] with the numbers relabelled,
    as long as it is answered with the relabelled answers, and ends as [p]
    does, with results related by [R]. *)
Fixpoint para (phi : Qc -> Qc) {A : Type} (R : A -> A -> Prop) (p q : Prog A) : Prop :=
match p, q with
| Ret a, Ret b => R a b
| Throw e, Throw e' => e = e'
| @Call _ t c k, @Call _ t' c' k' =>
    exists H : t = t',
      eq_rect t Ext (relabel_call phi c) t' H = c' /\
      forall x : El t, para phi R (k x) (k' (eq_rect t El (relabel_el phi t x) t' H))
| @Try _ t c k, @Try _ t' c' k' =>
    exists H : t = t',
      eq_rect t Ext (relabel_call phi c) t' H = c' /\
      forall r : Result (El t),
        para phi R (k r)
             (k' (eq_rect t (fun t => Result (El t)) (relabel_result phi t r) t' H))
| _, _ => False
end.

(** A program that only passes the numbers on: whatever the relabelling, it
    makes the same calls on the relabelled numbers. *)
Definition passes_on {A : Type} (p : Prog A) : Prop :=
forall phi, para phi eq p p.

(** The final structure of a row, with its energy. *)
Definition relaxed (fid : nat) (energy : Qc) : Row :=
mkRow fid 1 ∅ (Some energy).

(** A database that answers [select] and [get] from the rows [rows] and
    returns from every other call; and the lists of names that a run
    printed. *)
Definition default_el (t : ty) : El t :=
match t with
| TUnit => tt
| TObj _ => Ref 0
| TRow => mkRow 0 0 ∅ None
| TRows => []
| TIndex => 0
| TScan => ([], [])
| TEci => ∅
end.

Definition db_answers (rows : list Row) : Handler unit :=
fun t c w =>
  (match c in Ext t return Result (El t) with
   | DbSelect _ q => Ok (select_rows q rows)
   | DbGet _ q => get_row q rows
   | _ => Ok (default_el _)
   end, w).

Definition printed_list {t : ty} (c : Ext t) : option (list value) :=
match c with
| Print (PList l) => Some l
| _ => None
end.

Definition printed {W : Type} (tr : list (Entry W)) : list (list value) :=
omap (fun e => printed_list (ent_call e)) tr.

(** The rows of the counterexample: two structures of [Au3Cu1], one of each
    of the other formula units, and their final structures. *)
Definition selectable (id fid : nat) (name formula : string) : Row :=
Toy.mark_converged fid (Toy.initial id 1 name formula false).

Definition two_candidates : list Row :=
[ selectable 1 3 "a" "Au3Cu1"; selectable 2 4 "b" "Au3Cu1";
  relaxed 3 (lit 1 1); relaxed 4 (lit 2 1);
  selectable 5 6 "c" "Au1Cu1"; relaxed 6 (lit 1 1);
  selectable 7 8 "d" "Au1Cu3"; relaxed 8 (lit 1 1) ].

(** ** Further properties of the cells *)

(** A database with a tie: the structure [first] has three atoms and the
    final energy -1.0, the structure [second] one atom and the final energy
    -0.3333333333333333, the float nearest to -1/3. *)
Definition tied_rows : list Row :=
[ Toy.mark_converged 3 (Toy.initial 1 3 "first" "Au3Cu1" false);
  Toy.mark_converged 4 (Toy.initial 2 1 "second" "Au3Cu1" false);
  mkRow 3 3 ∅ (Some (lit (-1) 1));
  mkRow 4 1 ∅ (Some (round_float (lit (-1) 3))) ].

Definition tied : Toy.World := Toy.set_store tied_rows Toy.world0.

(** [name] is the name of the first initial structure of the formula unit, in
    the order of the database, whose energy per atom is the lowest. *)
Definition first_lowest (rows : list Row) (formula_unit : string) (name : value) : Prop :=
exists pre row post e,
  candidates formula_unit rows = pre ++ row :: post /\
  key_value_pairs row !! "name" = Some name /\
  energy_per_atom rows row = Some e /\
  (forall row' e', row' ∈ pre -> energy_per_atom rows row' = Some e' -> (e < e')%Qc) /\
  (forall row' e', row' ∈ post -> energy_per_atom rows row' = Some e' -> (e <= e')%Qc).

(** The exception the body of the selection loop raises on a row, if any:
    the attributes are read in the order [final_struct_id], [energy] (of the
    final structure), [natoms], [name]. *)
Definition row_error (rows : list Row) (row : Row) : option exn :=
match key_value_pairs row !! "final_struct_id" with
| None => Some (AttributeError "final_struct_id")
| Some fid =>
    match get_row [("id", fid)] rows with
    | Raise e => Some e
    | Ok final =>
        match row_energy final, row_natoms row, key_value_pairs row !! "name" with
        | None, _, _ => Some (AttributeError "energy")
        | Some _, 0, _ => Some ZeroDivisionError
        | Some _, S _, None => Some (AttributeError "name")
        | Some _, S _, Some _ => None
        end
    end
end.

(** A program whose calls all satisfy [P], whatever they return. *)
Fixpoint calls_only (P : forall t, Ext t -> bool) {A : Type} (p : Prog A) : Prop :=
match p with
| Ret _ | Throw _ => True
| Call c k => P _ c = true /\ forall x, calls_only P (k x)
| Try c k => P _ c = true /\ forall r, calls_only P (k r)
end.

Definition reads_db (t : ty) (c : Ext t) : bool := negb (writes_db c).

(** The calls that query the database. *)
Definition query_call (t : ty) (c : Ext t) : bool :=
match c with
| DbSelect _ _ | DbGet _ _ => true
| _ => false
end.

(** The calls the selection cell makes. *)
Definition selection_call (t : ty) (c : Ext t) : bool :=
match c with
| DbSelect _ _ | DbGet _ _ | ToAtoms _ | Print _ | View _ => true
| _ => false
end.

(** The [get] and [toatoms] calls of the view loop over [names], where
    [picked] are the rows and the structures they returned. *)
Definition lookups {W : Type} (db : ref CDatabase) (names : list value)
  (picked : list (Row * ref CAtoms)) : list (Entry W -> Prop) :=
concat (zip_with
          (fun name p =>
             [ returned (DbGet db [("name", name); ("struct_type", VStr "initial")]) p.1;
               returned (ToAtoms p.1) p.2 ])
          names picked).

(** The second half of a complete run of the selection cell: the names are
    printed, each is looked up, and the structures are viewed together. *)
Definition selection_view_run {W : Type} (db : ref CDatabase) (names : list value)
  (picked : list (Row * ref CAtoms)) (tr : list (Entry W)) : Prop :=
made_of ([returned (Print (PList names)) tt] ++ lookups db names picked ++
         [returned (View (map snd picked)) tt]) tr.

(** The row of the initial structure called [name]. *)
Definition named (rows : list Row) (name : value) : Result Row :=
get_row [("name", name); ("struct_type", VStr "initial")] rows.

(** The row id and the structure handed to [update_db]. *)
Definition update_of {t : ty} (c : Ext t) : option (nat * ref CAtoms) :=
match c with
| UpdateDb uid atoms _ => Some (uid, atoms)
| _ => None
end.

(** The calls [pre] end with the relaxation of the structure [atoms] of a
    row of id [uid], every step of which returned. *)
Definition relaxed_before {W : Type} (uid : nat) (atoms : ref CAtoms)
  (pre : list (Entry W)) : Prop :=
exists pre' steps calc row ucf opt,
  row_id row = uid /\
  pre = pre' ++ steps /\
  made_of
    [ returned (Print (PFormatInt "Calculating the structure in row ID = {}." uid)) tt;
      returned (ToAtoms row) atoms;
      returned (SetCalc atoms calc) tt;
      returned (UnitCellFilter atoms) ucf;
      returned (BFGS ucf None) opt;
      returned (OptRun opt (lit 2 100)) tt ] steps.

(** The monitor that keeps the calls made so far and accepts an [update_db]
    after the relaxation of its structure only. *)
Definition history {W : Type} (s : list (Entry W)) (e : Entry W) : list (Entry W) :=
s ++ [e].

Definition relax_ok {W : Type} (s : list (Entry W)) (e : Entry W) : Prop :=
match update_of (ent_call e) with
| Some (uid, atoms) => relaxed_before uid atoms s
| None => True
end.

(** The monitor that accepts the calls that do not write the database and
    leave its rows as [R]. *)
Definition untouched {W : Type} (rows : W -> list Row) (R : list Row)
  (_ : unit) (e : Entry W) : Prop :=
writes_db (ent_call e) = false /\ rows (ent_world e) = R.

(** The query for the primitive cell, in cells 16 and 29. *)
Definition primitive_cell_query : query := [("name", VStr "primitive_cell")].

(** A complete run of cell 16: the structure of the row [row] is repeated
    three times along each axis and handed to the generator of generation 1. *)
Definition random_structures_run {W : Type} (settings : ref CSettings) (row : Row)
  (tr : list (Entry W)) : Prop :=
exists db atoms template ns,
  made_of
    [ returned (Import "from clease.structgen import NewStructures") tt;
      returned (Import "from ase.db import connect") tt;
      returned (Connect db_name) db;
      returned (DbGet db primitive_cell_query) row;
      returned (ToAtoms row) atoms;
      returned (Repeat atoms (3, 3, 3)) template;
      returned (NewStructures settings (Some 1) 10) ns;
      returned (GenerateRandomStructures ns template) tt ] tr.

(** A complete run of cell 29: the structure of the row [row] is repeated
    six times along each axis and handed, with the coefficients [eci] loaded
    from the file, to the search at a random composition. *)
Definition gs_random_run {W : Type} (settings : ref CSettings) (db : ref CDatabase)
  (row : Row) (eci : gmap string Qc) (tr : list (Entry W)) : Prop :=
exists atoms template f ns,
  made_of
    [ returned (Import "import json") tt;
      returned (DbGet db primitive_cell_query) row;
      returned (ToAtoms row) atoms;
      returned (Repeat atoms (6, 6, 6)) template;
      returned (Open eci_file) f;
      returned (JsonLoad f) eci;
      returned (Close f) tt;
      returned (NewStructures settings None 1) ns;
      returned (GenerateGsStructure ns (One template) eci 2000 1 10 5000 true) tt;
      returned (Print (PStr "Done")) tt ] tr.

(** The notebook variables that later cells read: [conc], [settings], [db]. *)
Record vars : Type := mkVars {
  v_conc : option (ref CConcentration);
  v_settings : option (ref CSettings);
  v_db : option (ref CDatabase)
}.

Definition no_vars : vars := mkVars None None None.

(** A call of [Concentration], [CEBulk] or [connect] that returns binds the
    variable. *)
Definition bound {t : ty} (c : Ext t) : Result (El t) -> vars -> vars :=
match c in Ext t return Result (El t) -> vars -> vars with
| Concentration _ => fun r s =>
    match r with
    | Ok conc => mkVars (Some conc) (v_settings s) (v_db s)
    | Raise _ => s
    end
| CEBulk _ _ _ _ _ _ => fun r s =>
    match r with
    | Ok settings => mkVars (v_conc s) (Some settings) (v_db s)
    | Raise _ => s
    end
| Connect _ => fun r s =>
    match r with
    | Ok db => mkVars (v_conc s) (v_settings s) (Some db)
    | Raise _ => s
    end
| _ => fun _ s => s
end.

Definition var_next {W : Type} (s : vars) (e : Entry W) : vars :=
bound (ent_call e) (ent_result e) s.

(** A call is given the objects the variables hold, and names the database
    of the notebook. *)
Definition uses {t : ty} (s : vars) (c : Ext t) : Prop :=
match c with
| ConcAttr conc _ => v_conc s = Some conc
| CEBulk _ _ _ conc name _ => v_conc s = Some conc /\ name = db_name
| SettingsSave settings _ | ViewClusters settings | NewStructures settings _ _
| Evaluate settings _ _ _ => v_settings s = Some settings
| Connect name | UpdateDb _ _ name => name = db_name
| DbGet db _ | DbSelect db _ => v_db s = Some db
| _ => True
end.

Definition var_ok {W : Type} (s : vars) (e : Entry W) : Prop := uses s (ent_call e).

(** The invariant of the cells that bind no variable. *)
Definition var_inv {W : Type} (s0 s : vars) (_ : W) : Prop := s = s0.

(** *** The stages, done one after the other (C6) *)

(** The work of a stage is done in the calls [s] made so far: the
    concentration object was returned; the initial pool and the random
    structures were generated; the calculation cell ran to its end, which
    relaxed and wrote back every structure its selection returned; the
    evaluation cell ran to its end, which fitted the model and saved its
    coefficients. *)
Definition completed {W : Type} (i : nat) (s : list (Entry W)) : Prop :=
match i with
| 0 => exists conc e, e ∈ s /\ returned (Concentration [["Au"; "Cu"]]) conc e
| 1 => (exists ns e, e ∈ s /\ returned (GenerateInitialPool ns) tt e) /\
       (exists ns template e,
          e ∈ s /\ returned (GenerateRandomStructures ns template) tt e)
| 2 => exists before tr after selected db,
         s = before ++ tr ++ after /\ calculation_run selected db tr
| 3 => exists before tr after settings eva alphas cvs idx alpha d,
         s = before ++ tr ++ after /\
         evaluation_run settings eva alphas cvs idx alpha d tr
| _ => True
end.

(** No call of a stage before the work of every earlier stage is done. *)
Definition stages_completed {W : Type} (tr : list (Entry W)) : Prop :=
forall pre e post j,
  tr = pre ++ e :: post -> entry_stage e = Some j ->
  forall i, i < j -> completed i pre.

(** The monitor of it, on the calls made so far. *)
Definition staged_ok {W : Type} (s : list (Entry W)) (e : Entry W) : Prop :=
match entry_stage e with
| Some j => forall i, i < j -> completed i s
| None => True
end.

(** The calls of the stages up to [j]. *)
Definition stage_le (j : nat) (t : ty) (c : Ext t) : bool :=
match stage_of c with
| Some st => Nat.leb (stage_index st) j
| None => true
end.

(** * Lemmas *)

Lemma for_in_cons {X S : Type} (x : X) (l : list X) (body : X -> S -> Prog S) (s : S) :
  for_in (x :: l) body s = bind (body x s) (for_in l body).
Proof. reflexivity. Qed.

Lemma bind_unfold {A B : Type} (p : Prog A) (f : A -> Prog B) :
  p ≫= f = bind p f.
Proof. reflexivity. Qed.

Section RunLemmas.
Context {W : Type} (h : Handler W).

Lemma run_bind {A B : Type} (p : Prog A) (f : A -> Prog B) (w : W) :
  run h (bind p f) w =
  match outcome h p w with
  | Ok a =>
      (trace h p w ++ trace h (f a) (final h p w),
       outcome h (f a) (final h p w),
       final h (f a) (final h p w))
  | Raise e => (trace h p w, Raise e, final h p w)
  end.
Proof.
  unfold trace, outcome, final.
  revert w. induction p as [a | e | t c k IH | t c k IH]; intros w; simpl.
  - by destruct (run h (f a) w) as [[? ?] ?].
  - done.
  - destruct (h t c w) as [[x | e] w']; simpl; [| done].
    rewrite IH. by destruct (run h (k x) w') as [[? [?|?]] ?].
  - destruct (h t c w) as [r w']; simpl.
    rewrite IH. by destruct (run h (k r) w') as [[? [?|?]] ?].
Qed.

End RunLemmas.

Section MonitorLemmas.
Context {W S : Type}.
Variable ok : S -> Entry W -> Prop.
Variable next : S -> Entry W -> S.
Variable h : Handler W.

Lemma wp_sound {A : Type} (p : Prog A) Q (s : S) (w : W) :
  wp ok next h p Q s w ->
  accepted ok next s (trace h p w) /\
  Q (outcome h p w) (after next s (trace h p w)) (final h p w).
Proof.
  unfold trace, outcome, final, after. revert s w.
  induction p as [a | e | t c k IH | t c k IH]; intros s w Hwp; simpl in *;
    try done.
  - destruct (h t c w) as [r w'] eqn:E.
    destruct (Hwp r w' eq_refl) as [Hok Hk].
    destruct r as [x | ex]; simpl.
    + destruct (IH x _ _ Hk) as [Hacc HQ]. done.
    + done.
  - destruct (h t c w) as [r w'] eqn:E.
    destruct (Hwp r w' eq_refl) as [Hok Hk]. simpl.
    destruct (IH r _ _ Hk) as [Hacc HQ]. done.
Qed.

Lemma wp_mono {A : Type} (p : Prog A) (Q Q' : Result A -> S -> W -> Prop) s w :
  (forall r s' w', Q r s' w' -> Q' r s' w') ->
  wp ok next h p Q s w -> wp ok next h p Q' s w.
Proof.
  intros HQ. revert s w.
  induction p as [a | e | t c k IH | t c k IH]; intros s w Hwp; simpl in *; auto.
  - intros r w' E. destruct (Hwp r w' E) as [Hok Hk]. split; [done |].
    destruct r; auto.
  - intros r w' E. destruct (Hwp r w' E) as [Hok Hk]. split; auto.
Qed.

Lemma wp_bind {A B : Type} (p : Prog A) (f : A -> Prog B) Q s w :
  wp ok next h p
     (fun r s' w' =>
        match r with
        | Ok a => wp ok next h (f a) Q s' w'
        | Raise e => Q (Raise e) s' w'
        end) s w ->
  wp ok next h (bind p f) Q s w.
Proof.
  revert s w.
  induction p as [a | e | t c k IH | t c k IH]; intros s w Hwp; simpl in *; auto.
  - intros r w' E. destruct (Hwp r w' E) as [Hok Hk]. split; [done |].
    destruct r; auto.
  - intros r w' E. destruct (Hwp r w' E) as [Hok Hk]. split; auto.
Qed.

Lemma wp_for_in {X St : Type} (I : list X -> St -> S -> W -> Prop)
    (l : list X) (body : X -> St -> Prog St) Q st s w :
  I l st s w ->
  (forall x l' st s w, I (x :: l') st s w ->
     wp ok next h (body x st)
        (fun r s' w' =>
           match r with
           | Ok st' => I l' st' s' w'
           | Raise e => Q (Raise e) s' w'
           end) s w) ->
  (forall st s w, I [] st s w -> Q (Ok st) s w) ->
  wp ok next h (for_in l body st) Q s w.
Proof.
  intros HI Hbody Hend. revert st s w HI.
  induction l as [| x l IH]; intros st s w HI; simpl.
  - by apply Hend.
  - apply wp_bind. eapply wp_mono; [| by apply Hbody].
    intros [st' | e] s' w' H; simpl; auto.
Qed.

Lemma wp_call {A : Type} {t : ty} (c : Ext t) (k : El t -> Prog A) Q s w :
  (forall r w', h _ c w = (r, w') ->
     ok s (mkEntry c r w') /\
     match r with
     | Ok x => wp ok next h (k x) Q (next s (mkEntry c r w')) w'
     | Raise ex => Q (Raise ex) (next s (mkEntry c r w')) w'
     end) ->
  wp ok next h (call c ≫= k) Q s w.
Proof. intros H. exact H. Qed.
End MonitorLemmas.

(** ** Exceptions *)

Section Propagation.
Context {W : Type} (h : Handler W).

Lemma propagating_run {A : Type} (p : Prog A) (w : W) :
  propagating p -> unhandled (trace h p w) (outcome h p w).
Proof.
  unfold trace, outcome. revert w.
  induction p as [a | e | t c k IH | t c k IH]; intros w Hp; simpl; try done.
  - destruct Hp as [Hc Hk].
    destruct (h t c w) as [[x | e] w'] eqn:E; simpl.
    + by apply IH.
    + unfold raised; simpl. by rewrite Hc.
  - destruct Hp as (f & Hc & Hok & Hex).
    destruct (h t c w) as [[x | e] w'] eqn:E; simpl.
    + by apply IH.
    + unfold raised at 1; simpl. rewrite Hc.
      specialize (Hex e). destruct (k (Raise e)) as [| | t' c' k' |]; try done.
      destruct Hex as [Hc' Hk']. simpl.
      destruct (h t' c' w') as [[x | e'] w''] eqn:E'; simpl.
      * rewrite Hk'. simpl. by eexists.
      * by eexists.
Qed.

(** What a trace holds is what the libraries answered. *)
Lemma trace_results {A : Type} (p : Prog A) (w : W) (e : Entry W) :
  e ∈ trace h p w -> exists w0, ent_result e = (h _ (ent_call e) w0).1.
Proof.
  unfold trace. revert w.
  induction p as [a | ex | t c k IH | t c k IH]; intros w Hin; simpl in Hin.
  - by apply elem_of_nil in Hin.
  - by apply elem_of_nil in Hin.
  - destruct (h t c w) as [r w'] eqn:E. simpl in Hin.
    assert (Hr : r = (h t c w).1) by (by rewrite E).
    destruct r as [x | ex]; simpl in Hin.
    + apply elem_of_cons in Hin as [-> | Hin]; [by exists w | by eapply IH].
    + apply list_elem_of_singleton in Hin as ->. by exists w.
  - destruct (h t c w) as [r w'] eqn:E. simpl in Hin.
    assert (Hr : r = (h t c w).1) by (by rewrite E).
    apply elem_of_cons in Hin as [-> | Hin]; [by exists w | by eapply IH].
Qed.
End Propagation.

Lemma unhandled_unmodified {W A : Type} (tr : list (Entry W)) (out : Result A) :
  unhandled tr out ->
  (forall c f, c ∈ tr -> closed_file (ent_call c) = Some f -> raised c = None) ->
  unmodified tr out.
Proof.
  induction tr as [| e0 tr IH]; intros Hun Hclose e ex Hin He.
  - by apply elem_of_nil in Hin.
  - simpl in Hun. destruct (raised e0) as [ex0 |] eqn:E0.
    + destruct (loaded_file (ent_call e0)) as [f |] eqn:Hf.
      * destruct Hun as (c & -> & Hc & ->).
        rewrite (Hclose c f); [| by right; left | done]. simpl.
        apply elem_of_cons in Hin as [-> | Hin]; [congruence |].
        apply list_elem_of_singleton in Hin as ->.
        rewrite (Hclose c f) in He; [done | by right; left | done].
      * destruct Hun as [-> ->].
        apply list_elem_of_singleton in Hin as ->. congruence.
    + apply elem_of_cons in Hin as [-> | Hin]; [congruence |].
      apply (IH Hun) with (e := e); [| done | done].
      intros c f Hc. apply Hclose. by right.
Qed.

Lemma propagating_bind {A B : Type} (p : Prog A) (f : A -> Prog B) :
  propagating p -> (forall a, propagating (f a)) -> propagating (bind p f).
Proof.
  intros Hp Hf.
  induction p as [a | e | t c k IH | t c k IH]; simpl in *; [done | done | |].
  - destruct Hp as [Hc Hk]. split; [done |]. intros x. by apply IH.
  - destruct Hp as (fl & Hc & Hok & Hex). exists fl. split; [done |]. split.
    + intros x. by apply IH.
    + intros e. specialize (Hex e).
      destruct (k (Raise e)) as [| | t' c' k' |]; try done.
      destruct Hex as [Hc' Hk']. simpl. split; [done |].
      intros x. by rewrite Hk'.
Qed.

Lemma propagating_for_in {X St : Type} (l : list X) (body : X -> St -> Prog St) (st : St) :
  (forall x s, propagating (body x s)) -> propagating (for_in l body st).
Proof.
  intros Hbody. revert st. induction l as [| x l IH]; intros st; [done |].
  rewrite for_in_cons. by apply propagating_bind.
Qed.

Arguments propagating : simpl never.

Ltac cells_norm :=
  unfold concentration_cell, print_constraints_cell, settings_cell, ase_db_cell,
    view_clusters_cell, initial_pool_cell, random_structures_cell,
    calculation_cell, calculation_loop, calculation_body, evaluation_cell,
    probe_structures_cell, gs_random_cell, templates_cell, gs_templates_cell,
    stable_phases_cell, minimum_energy_cell, minimum_energy_names,
    minimum_energy_block, energy_per_atom_body, view_image_body,
    getattr, energy_of, truediv, getitem, load_eci, reraise, call, discard;
  simpl; unfold Prog_bind.

Ltac propagate :=
  repeat first
    [ match goal with
      | |- propagating (Ret _) => exact I
      | |- propagating (Throw _) => exact I
      | |- propagating (Call _ _) => split; [reflexivity | intros ?]
      | |- propagating (Try _ _) =>
          eexists; split; [reflexivity |];
          split; [intros ? | intros ?; split; [reflexivity | intros ?; reflexivity]]
      | |- propagating (for_in _ _ _) => apply propagating_for_in; intros ? ?
      | |- propagating (bind _ _) => apply propagating_bind; [| intros ?]
      | |- propagating (match ?x with _ => _ end) => destruct x
      | |- propagating (mret _) => exact I
      | |- propagating (_ ≫= _) => apply propagating_bind; [| intros ?]
      end
    | progress cells_norm ].

Lemma notebook_propagating : propagating notebook.
Proof. unfold notebook. propagate. Qed.

Lemma cells_propagating conc settings db template_list cell :
  cell ∈ code_cells conc settings db template_list -> propagating cell.
Proof.
  unfold code_cells, plumbing_cells. simpl. intros Hin.
  repeat (apply elem_of_cons in Hin as [-> | Hin]; [propagate |]).
  by apply elem_of_nil in Hin.
Qed.

Lemma closes_returned {W A : Type} (h : Handler W) (p : Prog A) (w : W) :
  closes_quietly h ->
  forall c f, c ∈ trace h p w -> closed_file (ent_call c) = Some f -> raised c = None.
Proof.
  intros Hq c f Hin Hf. destruct (trace_results h p w c Hin) as [w0 Hr].
  unfold raised. rewrite Hr. destruct c as [t c r wc]. simpl in *.
  destruct c; try done. by rewrite (Hq f0 w0).
Qed.

(** C5.  No failure is caught, transformed or recovered from.  In every run
    of the notebook, and of every code cell on its own, against any
    behaviour of the libraries, a call that raises is the last call made and
    the exception it raised is the outcome, unchanged; the one call made
    after a failure is the close of the coefficients file by the [with]
    block in which [json.load] raised, after which the exception of
    [json.load] goes on.  So, closing a file being no failure, every
    exception raised in a run is the outcome of the run. *)
Theorem exceptions_propagate :
  forall (W : Type) (h : Handler W) (w : W),
    (unhandled (trace h notebook w) (outcome h notebook w) /\
     (closes_quietly h -> unmodified (trace h notebook w) (outcome h notebook w))) /\
    forall conc settings db template_list cell,
      cell ∈ code_cells conc settings db template_list ->
      unhandled (trace h cell w) (outcome h cell w) /\
      (closes_quietly h -> unmodified (trace h cell w) (outcome h cell w)).
Proof.
  intros W h w.
  assert (H : forall p : Prog unit, propagating p ->
            unhandled (trace h p w) (outcome h p w) /\
            (closes_quietly h -> unmodified (trace h p w) (outcome h p w))).
  { intros p Hp. pose proof (propagating_run h p w Hp) as Hun.
    split; [done |]. intros Hq.
    apply unhandled_unmodified; [done |]. by apply closes_returned. }
  split; [apply H, notebook_propagating |].
  intros conc settings db template_list cell Hin.
  by eapply H, cells_propagating.
Qed.

(** A program with a handler is not [unhandled]: the property is one of the
    cells, not of every program. *)
Lemma handler_is_seen :
  ~ unhandled (trace Toy.toolkit (Try (Read "no such file") (fun _ => Ret tt)) Toy.world0)
              (outcome Toy.toolkit (Try (Read "no such file") (fun _ => Ret tt)) Toy.world0).
Proof. vm_compute. by intros [_ [=]]. Qed.

Lemma exceptions_propagate_witness :
  let cell := gs_templates_cell (Ref 0) [] in
  closes_quietly Toy.toolkit /\
  cell ∈ code_cells (Ref 0) (Ref 0) (Ref 0) [] /\
  map raised (trace Toy.toolkit cell not_json)
    = [None; None; Some (LibraryError "JSONDecodeError"); None] /\
  outcome Toy.toolkit cell not_json = Raise (LibraryError "JSONDecodeError") /\
  unhandled (trace Toy.toolkit cell not_json) (outcome Toy.toolkit cell not_json) /\
  unmodified (trace Toy.toolkit cell not_json) (outcome Toy.toolkit cell not_json).
Proof.
  intros cell.
  assert (Hq : closes_quietly Toy.toolkit) by (by intros f w).
  assert (Hin : cell ∈ code_cells (Ref 0) (Ref 0) (Ref 0) []).
  { unfold code_cells, plumbing_cells. do 15 right. left. }
  split; [exact Hq |]. split; [exact Hin |].
  split; [vm_compute; reflexivity |]. split; [vm_compute; reflexivity |].
  destruct (exceptions_propagate Toy.World Toy.toolkit not_json) as [_ Hcells].
  destruct (Hcells (Ref 0) (Ref 0) (Ref 0) [] cell Hin) as [Hun Hmod].
  split; [exact Hun | exact (Hmod Hq)].
Defined.

(** ** Order of the stages *)

Section Stages.
Context {W : Type}.

Lemma accepted_in_order (tr seen : list (Entry W)) (n : nat) :
  (forall i, i < n -> exists e', e' ∈ seen /\ entry_stage e' = Some i) ->
  accepted stage_ok stage_next n tr ->
  forall pre e post j,
    tr = pre ++ e :: post -> entry_stage e = Some j ->
    forall i, i < j -> exists e', e' ∈ seen ++ pre /\ entry_stage e' = Some i.
Proof.
  revert seen n.
  induction tr as [| e0 tr IH]; intros seen n Hseen Hacc pre e post j Htr Hj i Hi.
  - by destruct pre.
  - destruct Hacc as [Hok Hacc].
    destruct pre as [| e1 pre]; simplify_eq/=.
    + unfold stage_ok in Hok. rewrite Hj in Hok.
      destruct (Hseen i) as [e' [? ?]]; [lia |].
      exists e'. rewrite app_nil_r. done.
    + destruct (IH (seen ++ [e1]) (stage_next n e1)) with
        (pre := pre) (e := e) (post := post) (j := j) (i := i)
        as [e' [Hin He']]; try done.
      * intros i' Hi'. unfold stage_next in Hi'. unfold stage_ok in Hok.
        destruct (entry_stage e1) as [j1 |] eqn:E1.
        -- destruct (decide (i' < n)) as [Hlt | Hge].
           ++ destruct (Hseen i' Hlt) as [e' [? ?]].
              exists e'. split; [set_solver | done].
           ++ exists e1. split; [set_solver |].
              rewrite E1. f_equal. lia.
        -- destruct (Hseen i' Hi') as [e' [? ?]].
           exists e'. split; [set_solver | done].
      * exists e'. split; [| done].
        rewrite <- app_assoc in Hin. done.
Qed.

Lemma accepted_all_stages (tr seen : list (Entry W)) (n : nat) :
  (forall i, i < n -> exists e', e' ∈ seen /\ entry_stage e' = Some i) ->
  accepted stage_ok stage_next n tr ->
  forall i, i < after stage_next n tr ->
    exists e', e' ∈ seen ++ tr /\ entry_stage e' = Some i.
Proof.
  revert seen n.
  induction tr as [| e0 tr IH]; intros seen n Hseen Hacc i Hi; simpl in *.
  - rewrite app_nil_r. by apply Hseen.
  - destruct Hacc as [Hok Hacc].
    destruct (IH (seen ++ [e0]) (stage_next n e0)) with (i := i)
      as [e' [Hin He']]; try done.
    + intros i' Hi'. unfold stage_next in Hi'. unfold stage_ok in Hok.
      destruct (entry_stage e0) as [j1 |] eqn:E1.
      * destruct (decide (i' < n)) as [Hlt | Hge].
        -- destruct (Hseen i' Hlt) as [e' [? ?]].
           exists e'. split; [set_solver | done].
        -- exists e0. split; [set_solver |].
           rewrite E1. f_equal. lia.
      * destruct (Hseen i' Hi') as [e' [? ?]].
        exists e'. split; [set_solver | done].
    + exists e'. split; [| done]. rewrite <- app_assoc in Hin. done.
Qed.
End Stages.

Ltac wp_stage_step :=
  match goal with
  | |- forall r w', _ = (r, w') -> _ =>
      intros [? | ?] ? _;
      (split; [unfold stage_ok, stage_next, entry_stage; simpl; first [exact I | lia] |]);
      unfold reaches, stage_next, entry_stage; simpl; try exact I; try reflexivity
  end.

Ltac wp_case :=
  match goal with
  | |- wp _ _ _ (match ?x with _ => _ end) _ _ _ => destruct x; simpl
  | |- wp _ _ _ (bind (match ?x with _ => _ end) _) _ _ _ => destruct x; simpl
  | |- wp _ _ _ (mbind _ (match ?x with _ => _ end)) _ _ _ => destruct x; simpl
  end.

Ltac wp_stage :=
  simpl; repeat first [wp_stage_step | wp_case; try exact I]; try reflexivity.

Ltac wp_seq lem :=
  apply wp_bind; eapply wp_mono; [| apply lem];
  intros [? | ?] ? ?; [intros -> | done].

Section StageRun.
Context {W : Type} (h : Handler W).

Lemma concentration_cell_stage (w : W) :
  wp stage_ok stage_next h concentration_cell (reaches 1) 0 w.
Proof. unfold concentration_cell. wp_stage. Qed.

Lemma print_constraints_cell_stage conc n (w : W) :
  wp stage_ok stage_next h (print_constraints_cell conc) (reaches n) n w.
Proof. unfold print_constraints_cell. wp_stage. Qed.

Lemma settings_cell_stage conc n (w : W) :
  wp stage_ok stage_next h (settings_cell conc) (reaches n) n w.
Proof. unfold settings_cell. wp_stage. Qed.

Lemma ase_db_cell_stage cmd n (w : W) :
  wp stage_ok stage_next h (ase_db_cell cmd) (reaches n) n w.
Proof. unfold ase_db_cell. wp_stage. Qed.

Lemma view_clusters_cell_stage settings n (w : W) :
  wp stage_ok stage_next h (view_clusters_cell settings) (reaches n) n w.
Proof. unfold view_clusters_cell. wp_stage. Qed.

Lemma initial_pool_cell_stage settings (w : W) :
  wp stage_ok stage_next h (initial_pool_cell settings) (reaches 2) 1 w.
Proof. unfold initial_pool_cell. wp_stage. Qed.

Lemma random_structures_cell_stage settings (w : W) :
  wp stage_ok stage_next h (random_structures_cell settings) (reaches 2) 2 w.
Proof. unfold random_structures_cell. wp_stage. Qed.

Lemma calculation_body_stage calc row (w : W) :
  wp stage_ok stage_next h (calculation_body calc row) (reaches 3) 3 w.
Proof. unfold calculation_body. wp_stage. Qed.

Lemma calculation_cell_stage (w : W) :
  wp stage_ok stage_next h calculation_cell (reaches 3) 2 w.
Proof.
  unfold calculation_cell, calculation_loop. wp_stage.
  apply wp_bind.
  apply (wp_for_in _ _ _ (fun _ _ s _ => s = 3)); [done | |].
  - intros row l' [] s w1 ->.
    eapply wp_mono; [| apply calculation_body_stage].
    by intros [[] | ?] ? ?.
  - intros [] s w1 ->. wp_stage.
Qed.

Lemma evaluation_cell_stage settings (w : W) :
  wp stage_ok stage_next h (evaluation_cell settings) (reaches 4) 3 w.
Proof. unfold evaluation_cell, getitem. wp_stage. Qed.

Lemma probe_structures_cell_stage settings (w : W) :
  wp stage_ok stage_next h (probe_structures_cell settings) (reaches 4) 4 w.
Proof. unfold probe_structures_cell. wp_stage. Qed.

Lemma gs_random_cell_stage settings db (w : W) :
  wp stage_ok stage_next h (gs_random_cell settings db) (reaches 5) 4 w.
Proof. unfold gs_random_cell, load_eci. wp_stage. Qed.

Lemma templates_cell_stage (w : W) :
  wp stage_ok stage_next h templates_cell (reaches 5) 5 w.
Proof. unfold templates_cell. wp_stage. Qed.

Lemma gs_templates_cell_stage settings template_list (w : W) :
  wp stage_ok stage_next h (gs_templates_cell settings template_list) (reaches 5) 5 w.
Proof. unfold gs_templates_cell, load_eci. wp_stage. Qed.

Lemma stable_phases_cell_stage (w : W) :
  wp stage_ok stage_next h stable_phases_cell (reaches 5) 5 w.
Proof. unfold stable_phases_cell. wp_stage. Qed.

Lemma minimum_energy_block_stage db formula names n (w : W) :
  wp stage_ok stage_next h (minimum_energy_block db formula names) (reaches n) n w.
Proof.
  unfold minimum_energy_block. wp_stage.
  apply wp_bind.
  apply (wp_for_in _ _ _ (fun _ _ s _ => s = n)); [done | |].
  - intros row l' l s w1 ->.
    unfold energy_per_atom_body, getattr, energy_of, truediv. wp_stage.
  - intros l s w1 ->. unfold getitem. wp_stage.
Qed.

Lemma minimum_energy_names_stage db n (w : W) :
  wp stage_ok stage_next h (minimum_energy_names db) (reaches n) n w.
Proof.
  unfold minimum_energy_names. rewrite !bind_unfold.
  wp_seq minimum_energy_block_stage.
  wp_seq minimum_energy_block_stage.
  wp_seq minimum_energy_block_stage.
  done.
Qed.

Lemma minimum_energy_cell_stage db n (w : W) :
  wp stage_ok stage_next h (minimum_energy_cell db) (reaches n) n w.
Proof.
  unfold minimum_energy_cell. rewrite !bind_unfold.
  wp_seq minimum_energy_names_stage.
  wp_stage.
  apply wp_bind.
  apply (wp_for_in _ _ _ (fun _ _ s _ => s = n)); [done | |].
  - intros name l' l s w1 ->. unfold view_image_body. wp_stage.
  - intros l s w1 ->. wp_stage.
Qed.

Lemma notebook_stage (w : W) :
  wp stage_ok stage_next h notebook (reaches 5) 0 w.
Proof.
  unfold notebook. rewrite !bind_unfold.
  wp_seq concentration_cell_stage.
  wp_seq print_constraints_cell_stage.
  wp_seq settings_cell_stage.
  wp_seq ase_db_cell_stage.
  wp_seq view_clusters_cell_stage.
  wp_seq initial_pool_cell_stage.
  wp_seq random_structures_cell_stage.
  wp_seq ase_db_cell_stage.
  wp_seq ase_db_cell_stage.
  wp_seq calculation_cell_stage.
  wp_seq ase_db_cell_stage.
  wp_seq evaluation_cell_stage.
  wp_seq probe_structures_cell_stage.
  wp_seq gs_random_cell_stage.
  wp_seq templates_cell_stage.
  wp_seq gs_templates_cell_stage.
  wp_seq stable_phases_cell_stage.
  apply minimum_energy_cell_stage.
Qed.
End StageRun.


(** ** Runs, call by call *)

Section Stepping.
Context {W : Type} (h : Handler W).

Lemma outcome_ret {A : Type} (a : A) w : outcome h (mret a) w = Ok a.
Proof. reflexivity. Qed.

Lemma final_ret {A : Type} (a : A) w : final h (mret a) w = w.
Proof. reflexivity. Qed.

Lemma trace_ret {A : Type} (a : A) w : trace h (mret a) w = [].
Proof. reflexivity. Qed.

Lemma outcome_call {A : Type} {t : ty} (c : Ext t) (k : El t -> Prog A) w :
  outcome h (Call c k) w =
  match (h _ c w).1 with
  | Ok x => outcome h (k x) (h _ c w).2
  | Raise e => Raise e
  end.
Proof. unfold outcome; simpl. by destruct (h t c w).1. Qed.

Lemma final_call {A : Type} {t : ty} (c : Ext t) (k : El t -> Prog A) w :
  final h (Call c k) w =
  match (h _ c w).1 with
  | Ok x => final h (k x) (h _ c w).2
  | Raise e => (h _ c w).2
  end.
Proof. unfold final; simpl. by destruct (h t c w).1. Qed.

Lemma trace_call {A : Type} {t : ty} (c : Ext t) (k : El t -> Prog A) w :
  trace h (Call c k) w =
  mkEntry c (h _ c w).1 (h _ c w).2 ::
  match (h _ c w).1 with
  | Ok x => trace h (k x) (h _ c w).2
  | Raise e => []
  end.
Proof. unfold trace; simpl. by destruct (h t c w).1. Qed.

Lemma outcome_try {A : Type} {t : ty} (c : Ext t) (k : Result (El t) -> Prog A) w :
  outcome h (Try c k) w = outcome h (k (h _ c w).1) (h _ c w).2.
Proof. reflexivity. Qed.

Lemma final_try {A : Type} {t : ty} (c : Ext t) (k : Result (El t) -> Prog A) w :
  final h (Try c k) w = final h (k (h _ c w).1) (h _ c w).2.
Proof. reflexivity. Qed.

Lemma trace_try {A : Type} {t : ty} (c : Ext t) (k : Result (El t) -> Prog A) w :
  trace h (Try c k) w =
  mkEntry c (h _ c w).1 (h _ c w).2 :: trace h (k (h _ c w).1) (h _ c w).2.
Proof. reflexivity. Qed.

Lemma outcome_bind {A B : Type} (p : Prog A) (f : A -> Prog B) w :
  outcome h (bind p f) w =
  match outcome h p w with
  | Ok a => outcome h (f a) (final h p w)
  | Raise e => Raise e
  end.
Proof. unfold outcome at 1. rewrite run_bind. by destruct (outcome h p w). Qed.

Lemma final_bind {A B : Type} (p : Prog A) (f : A -> Prog B) w :
  final h (bind p f) w =
  match outcome h p w with
  | Ok a => final h (f a) (final h p w)
  | Raise e => final h p w
  end.
Proof. unfold final at 1. rewrite run_bind. by destruct (outcome h p w). Qed.

Lemma trace_bind {A B : Type} (p : Prog A) (f : A -> Prog B) w :
  trace h (bind p f) w =
  trace h p w ++
  match outcome h p w with
  | Ok a => trace h (f a) (final h p w)
  | Raise e => []
  end.
Proof.
  unfold trace at 1. rewrite run_bind.
  destruct (outcome h p w); simpl; [done | by rewrite app_nil_r].
Qed.
Lemma call_ok {A : Type} {t : ty} (c : Ext t) (k : El t -> Prog A) w a :
  outcome h (Call c k) w = Ok a ->
  exists x,
    (h _ c w).1 = Ok x /\
    outcome h (k x) (h _ c w).2 = Ok a /\
    trace h (Call c k) w = mkEntry c (Ok x) (h _ c w).2 :: trace h (k x) (h _ c w).2.
Proof.
  rewrite outcome_call, trace_call. destruct (h t c w).1 as [x | e]; [| done].
  intros H. by exists x.
Qed.

End Stepping.

(** ** Sorting by a key *)

Section SortKey.
Context {A : Type} (key : A -> Qc).

Lemma insert_key_perm (x : A) (l : list A) : insert_key key x l ≡ₚ x :: l.
Proof.
  induction l as [| y l IH]; simpl; [done |].
  case_bool_decide; [done |].
  rewrite IH. apply Permutation_swap.
Qed.

Lemma sort_key_perm (l : list A) : sort_key key l ≡ₚ l.
Proof.
  induction l as [| x l IH]; simpl; [done |].
  by rewrite insert_key_perm, IH.
Qed.

Lemma insert_key_sorted (x : A) (l : list A) :
  StronglySorted (key_le key) l -> StronglySorted (key_le key) (insert_key key x l).
Proof.
  induction 1 as [| y l Hs IH Hy]; simpl.
  - repeat constructor.
  - case_bool_decide as Hxy.
    + constructor; [by constructor |].
      constructor; [done |].
      eapply Forall_impl; [exact Hy |].
      intros z Hz. unfold key_le in *. by eapply Qcle_trans.
    + constructor; [done |].
      rewrite insert_key_perm. constructor; [| done].
      unfold key_le. apply Qclt_le_weak. by apply Qcnot_le_lt.
Qed.

Lemma sort_key_sorted (l : list A) : StronglySorted (key_le key) (sort_key key l).
Proof.
  induction l as [| x l IH]; simpl; [constructor |].
  by apply insert_key_sorted.
Qed.

(** The first element after sorting is an element of least key. *)
Lemma sort_key_head (l : list A) (x : A) (l' : list A) :
  sort_key key l = x :: l' ->
  x ∈ l /\ forall y, y ∈ l -> (key x <= key y)%Qc.
Proof.
  intros E. pose proof (sort_key_sorted l) as Hs.
  pose proof (sort_key_perm l) as Hp. rewrite E in Hs, Hp.
  split.
  - rewrite <- Hp. left.
  - intros y Hy. rewrite <- Hp in Hy.
    apply StronglySorted_inv in Hs as [_ Hall].
    apply elem_of_cons in Hy as [-> | Hy].
    + apply Qcle_refl.
    + rewrite Forall_forall in Hall. by apply Hall.
Qed.

Lemma sort_key_nil (l : list A) : sort_key key l = [] -> l = [].
Proof.
  intros E. pose proof (sort_key_perm l) as Hp. rewrite E in Hp.
  by apply Permutation_nil_l in Hp.
Qed.
End SortKey.

(** ** The minimum-energy selection *)

Section Selection.
Context {W : Type} (h : Handler W) (rows : W -> list Row).
Hypothesis contract : db_contract h rows.
Variable db : ref CDatabase.

Lemma get_frame q w : rows (h _ (DbGet db q) w).2 = rows w.
Proof. by apply (db_frame h rows contract TRow (DbGet db q) w). Qed.

Lemma select_frame q w : rows (h _ (DbSelect db q) w).2 = rows w.
Proof. by apply (db_frame h rows contract TRows (DbSelect db q) w). Qed.

Lemma body_run (row : Row) (l : list (value * Qc)) (w : W) :
  ready (rows w) row ->
  exists n e,
    key_value_pairs row !! "name" = Some n /\
    energy_per_atom (rows w) row = Some e /\
    outcome h (energy_per_atom_body db row l) w = Ok (l ++ [(n, e)]) /\
    rows (final h (energy_per_atom_body db row l) w) = rows w /\
    prints_nothing (trace h (energy_per_atom_body db row l) w).
Proof.
  intros [[e He] [n Hn]]. exists n, e. split; [done |]. split; [done |].
  unfold energy_per_atom in He. unfold energy_per_atom_body, getattr.
  destruct (key_value_pairs row !! "final_struct_id") as [fid |] eqn:Hfid;
    [| done].
  destruct (get_row [("id", fid)] (rows w)) as [fin |] eqn:Hget; [| done].
  destruct (row_energy fin) as [e0 |] eqn:He0; [| done].
  destruct (row_natoms row) as [| m] eqn:Hm; [done |].
  simpl. rewrite outcome_call, final_call, trace_call.
  rewrite (get_result h rows contract), Hget.
  unfold energy_of, truediv. rewrite He0, Hn. simpl.
  split; [by simplify_eq |]. split.
  - unfold final; simpl. apply get_frame.
  - unfold trace; simpl.
    intros e1 x Hin Heq. apply list_elem_of_singleton in Hin as ->. done.
Qed.

Lemma loop_run (cands : list Row) (l : list (value * Qc)) (w : W) :
  (forall row, row ∈ cands -> ready (rows w) row) ->
  exists ps,
    Forall2 (fun row p => key_value_pairs row !! "name" = Some p.1 /\
                          energy_per_atom (rows w) row = Some p.2) cands ps /\
    outcome h (for_in cands (energy_per_atom_body db) l) w = Ok (l ++ ps) /\
    rows (final h (for_in cands (energy_per_atom_body db) l) w) = rows w /\
    prints_nothing (trace h (for_in cands (energy_per_atom_body db) l) w).
Proof.
  revert l w. induction cands as [| row cands IH]; intros l w Hready.
  - exists []. rewrite app_nil_r. repeat split; try done.
    intros ? ? Hin. by apply elem_of_nil in Hin.
  - destruct (body_run row l w) as (n & e & Hn & He & Hout & Hfin & Hpr).
    { apply Hready. left. }
    simpl. rewrite outcome_bind, final_bind, trace_bind, Hout.
    destruct (IH (l ++ [(n, e)]) (final h (energy_per_atom_body db row l) w))
      as (ps & Hps & Hout' & Hfin' & Hpr').
    { intros row' Hin. rewrite Hfin. apply Hready. by right. }
    exists ((n, e) :: ps). rewrite Hfin in Hps, Hfin'.
    split; [by constructor |].
    split; [by rewrite Hout', <- app_assoc |].
    split; [done |].
    intros e1 x Hin. apply elem_of_app in Hin as [Hin | Hin]; eauto.
Qed.

Lemma block_run (formula : string) (names : list value) (w : W) :
  candidates formula (rows w) <> [] ->
  (forall row, row ∈ candidates formula (rows w) -> ready (rows w) row) ->
  exists n,
    outcome h (minimum_energy_block db formula names) w = Ok (names ++ [n]) /\
    lowest (rows w) formula n /\
    rows (final h (minimum_energy_block db formula names) w) = rows w /\
    prints_nothing (trace h (minimum_energy_block db formula names) w).
Proof.
  intros Hne Hready. unfold minimum_energy_block.
  rewrite !bind_unfold. simpl.
  rewrite outcome_call, final_call, trace_call.
  rewrite (select_result h rows contract). fold (candidates formula (rows w)).
  set (w1 := (h _ (DbSelect db _) w).2).
  assert (Hw1 : rows w1 = rows w) by apply select_frame.
  destruct (loop_run (candidates formula (rows w)) [] w1)
    as (ps & Hps & Hout & Hfin & Hpr).
  { intros row Hin. rewrite Hw1. by apply Hready. }
  rewrite Hw1 in Hps. cbn beta iota. rewrite ?bind_unfold.
  rewrite outcome_bind, final_bind, trace_bind, Hout. simpl.
  destruct (sort_key snd ps) as [| p ps'] eqn:Hsort.
  { apply sort_key_nil in Hsort. subst ps.
    apply Forall2_nil_inv_r in Hps. done. }
  apply sort_key_head in Hsort as [Hin Hmin].
  exists p.1. unfold getitem; simpl.
  split; [done |]. split; [| split].
  - apply list_elem_of_lookup in Hin as [i Hi].
    destruct (Forall2_lookup_r _ _ _ _ _ Hps Hi) as (row & Hrow & Hn & He).
    exists row, p.2. split; [by eapply list_elem_of_lookup_2 |].
    split; [done |]. split; [done |].
    intros row' e' Hin' He'.
    apply list_elem_of_lookup in Hin' as [j Hj].
    destruct (Forall2_lookup_l _ _ _ _ _ Hps Hj) as (q & Hq & _ & He'').
    rewrite He' in He''. injection He'' as ->.
    apply Hmin. by eapply list_elem_of_lookup_2.
  - by rewrite final_ret, Hfin.
  - rewrite trace_ret, app_nil_r. intros e x Hin' Hcall.
    apply elem_of_cons in Hin' as [-> | Hin']; [done |].
    by eapply Hpr.
Qed.

Lemma block_empty (formula : string) (names : list value) (w : W) :
  candidates formula (rows w) = [] ->
  outcome h (minimum_energy_block db formula names) w = Raise IndexError /\
  prints_nothing (trace h (minimum_energy_block db formula names) w).
Proof.
  intros Hnil. unfold minimum_energy_block.
  rewrite !bind_unfold. simpl.
  rewrite outcome_call, trace_call.
  rewrite (select_result h rows contract). fold (candidates formula (rows w)).
  rewrite Hnil. unfold outcome, trace; simpl. split; [done |].
  intros e x Hin Hcall. apply list_elem_of_singleton in Hin as ->. done.
Qed.

Lemma names_run (w : W) :
  (forall F, F ∈ formula_units ->
     candidates F (rows w) <> [] /\
     forall row, row ∈ candidates F (rows w) -> ready (rows w) row) ->
  exists n1 n2 n3,
    outcome h (minimum_energy_names db) w = Ok [n1; n2; n3] /\
    lowest (rows w) "Au3Cu1" n1 /\
    lowest (rows w) "Au1Cu1" n2 /\
    lowest (rows w) "Au1Cu3" n3 /\
    rows (final h (minimum_energy_names db) w) = rows w.
Proof.
  intros Hall. unfold minimum_energy_names. cbv zeta. rewrite !bind_unfold.
  destruct (Hall "Au3Cu1") as [Hne1 Hr1]; [by repeat constructor |].
  destruct (Hall "Au1Cu1") as [Hne2 Hr2]; [by repeat constructor |].
  destruct (Hall "Au1Cu3") as [Hne3 Hr3]; [by repeat constructor |].
  destruct (block_run "Au3Cu1" [] w Hne1 Hr1) as (n1 & Ho1 & Hl1 & Hf1 & _).
  set (w1 := final h (minimum_energy_block db "Au3Cu1" []) w) in *.
  rewrite <- Hf1 in Hne2, Hr2, Hne3, Hr3.
  destruct (block_run "Au1Cu1" ([] ++ [n1]) w1 Hne2 Hr2)
    as (n2 & Ho2 & Hl2 & Hf2 & _).
  set (w2 := final h (minimum_energy_block db "Au1Cu1" ([] ++ [n1])) w1) in *.
  rewrite <- Hf2 in Hne3, Hr3.
  destruct (block_run "Au1Cu3" (([] ++ [n1]) ++ [n2]) w2 Hne3 Hr3)
    as (n3 & Ho3 & Hl3 & Hf3 & _).
  exists n1, n2, n3.
  rewrite outcome_bind, final_bind, Ho1. fold w1. rewrite !bind_unfold.
  rewrite outcome_bind, final_bind, Ho2. fold w2. rewrite !bind_unfold.
  rewrite outcome_bind, final_bind, Ho3.
  rewrite outcome_ret, final_ret.
  split; [done |]. rewrite Hf1 in Hl2. rewrite Hf2, Hf1 in Hl3.
  split; [done |]. split; [done |]. split; [done |].
  by rewrite Hf3, Hf2.
Qed.

Lemma names_fail (w : W) (pre : list string) (F : string) (post : list string) :
  formula_units = pre ++ F :: post ->
  candidates F (rows w) = [] ->
  (forall G, G ∈ pre ->
     candidates G (rows w) <> [] /\
     forall row, row ∈ candidates G (rows w) -> ready (rows w) row) ->
  outcome h (minimum_energy_names db) w = Raise IndexError /\
  prints_nothing (trace h (minimum_energy_names db) w).
Proof.
  intros Hsplit Hnil Hpre. unfold minimum_energy_names. cbv zeta.
  rewrite !bind_unfold. unfold formula_units in Hsplit.
  destruct pre as [| G1 [| G2 [| G3 pre]]]; simpl in Hsplit; simplify_eq.
  - destruct (block_empty "Au3Cu1" [] w Hnil) as [Ho Hp].
    rewrite outcome_bind, trace_bind, Ho, app_nil_r. done.
  - destruct (Hpre "Au3Cu1") as [Hne1 Hr1]; [by repeat constructor |].
    destruct (block_run "Au3Cu1" [] w Hne1 Hr1) as (n1 & Ho1 & _ & Hf1 & Hp1).
    set (w1 := final h (minimum_energy_block db "Au3Cu1" []) w) in *.
    rewrite <- Hf1 in Hnil.
    destruct (block_empty "Au1Cu1" ([] ++ [n1]) w1 Hnil) as [Ho Hp].
    rewrite outcome_bind, trace_bind, Ho1. fold w1. rewrite !bind_unfold.
    rewrite outcome_bind, trace_bind, Ho, app_nil_r.
    split; [done |].
    intros e x Hin. apply elem_of_app in Hin as [Hin | Hin]; eauto.
  - destruct (Hpre "Au3Cu1") as [Hne1 Hr1]; [by repeat constructor |].
    destruct (Hpre "Au1Cu1") as [Hne2 Hr2]; [by repeat constructor |].
    destruct (block_run "Au3Cu1" [] w Hne1 Hr1) as (n1 & Ho1 & _ & Hf1 & Hp1).
    set (w1 := final h (minimum_energy_block db "Au3Cu1" []) w) in *.
    rewrite <- Hf1 in Hnil, Hne2, Hr2.
    destruct (block_run "Au1Cu1" ([] ++ [n1]) w1 Hne2 Hr2)
      as (n2 & Ho2 & _ & Hf2 & Hp2).
    set (w2 := final h (minimum_energy_block db "Au1Cu1" ([] ++ [n1])) w1) in *.
    rewrite <- Hf2 in Hnil.
    destruct (block_empty "Au1Cu3" (([] ++ [n1]) ++ [n2]) w2 Hnil) as [Ho Hp].
    rewrite outcome_bind, trace_bind, Ho1. fold w1. rewrite !bind_unfold.
    rewrite outcome_bind, trace_bind, Ho2. fold w2. rewrite !bind_unfold.
    rewrite outcome_bind, trace_bind, Ho, app_nil_r.
    split; [done |].
    intros e x Hin. apply elem_of_app in Hin as [Hin | Hin]; [by eauto |].
    apply elem_of_app in Hin as [Hin | Hin]; eauto.
  - destruct pre; simplify_eq.
Qed.
End Selection.

(** The small toolkit keeps the contract of the database. *)
Lemma toolkit_db_contract : db_contract Toy.toolkit Toy.store.
Proof.
  split.
  - done.
  - done.
  - intros t c w Hc. destruct c; simpl in *; try done.
    + by destruct (Toy.files w !! fname).
    + destruct (Toy.handles w !! addr f) as [fname |]; [| done].
      by destruct (Toy.files w !! fname) as [[] |].
    + by destruct (Toy.files w !! fname).
  - intros uid atoms name w row Hin Hne. simpl. unfold Toy.update_db.
    destruct (get_row _ (Toy.store w)); simpl; [| done].
    apply elem_of_app. left. apply list_elem_of_fmap. exists row.
    split; [| done]. by rewrite bool_decide_eq_false_2.
Qed.

(** C9, as stated, fails: every formula unit has an initial structure in the
    database, none has a final structure yet, and the cell stops at
    [row.final_struct_id] without a list of names. *)
Lemma names_need_final_structures :
  db_contract Toy.toolkit Toy.store /\
  (forall F, F ∈ formula_units -> candidates F (Toy.store Toy.world0) <> []) /\
  outcome Toy.toolkit (minimum_energy_names (Ref 0)) Toy.world0 =
    Raise (AttributeError "final_struct_id").
Proof.
  split; [apply toolkit_db_contract |]. split.
  - intros F HF.
    assert (H : forallb (fun F => match candidates F (Toy.store Toy.world0) with
                                  | [] => false
                                  | _ => true
                                  end) formula_units = true)
      by (vm_compute; reflexivity).
    rewrite forallb_forall in H. apply list_elem_of_In in HF.
    specialize (H F HF). by destruct (candidates F (Toy.store Toy.world0)).
  - vm_compute. reflexivity.
Qed.

(** C9, amended.  When every initial structure of [Au3Cu1], [Au1Cu1] and
    [Au1Cu3] in the database has a name and a final structure with an energy,
    and each formula unit has at least one, the cell builds
    [names = [n1; n2; n3]] where [n1], [n2], [n3] are names of initial
    structures of [Au3Cu1], [Au1Cu1], [Au1Cu3], in this order, each of lowest
    energy per atom among the initial structures of its formula unit, the
    energy per atom being the float the cell computes (two structures whose
    quotients round to the same float are of equal energy per atom); this is
    the list the cell prints. *)
Theorem lowest_energy_names :
  forall (W : Type) (h : Handler W) (rows : W -> list Row)
         (db : ref CDatabase) (w : W),
    db_contract h rows ->
    (forall F, F ∈ formula_units ->
       candidates F (rows w) <> [] /\
       forall row, row ∈ candidates F (rows w) -> ready (rows w) row) ->
    exists n1 n2 n3,
      outcome h (minimum_energy_names db) w = Ok [n1; n2; n3] /\
      lowest (rows w) "Au3Cu1" n1 /\
      lowest (rows w) "Au1Cu1" n2 /\
      lowest (rows w) "Au1Cu3" n3 /\
      pack (Print (PList [n1; n2; n3])) ∈ calls (trace h (minimum_energy_cell db) w).
Proof.
  intros W h rows db w Hc Hall.
  destruct (names_run h rows Hc db w Hall) as (n1 & n2 & n3 & Ho & H1 & H2 & H3 & _).
  exists n1, n2, n3. repeat (split; [done |]).
  unfold minimum_energy_cell. rewrite !bind_unfold.
  rewrite trace_bind, Ho. simpl. rewrite trace_call.
  unfold calls. rewrite fmap_app. apply elem_of_app. right. left.
Qed.

(** C10, as stated, fails: the database has no initial structure of
    [Au1Cu1], but the structure of [Au3Cu1] has no final structure, and the
    cell stops there with an attribute error, not with an index error. *)
Lemma missing_formula_unit_other_error :
  db_contract Toy.toolkit Toy.store /\
  candidates "Au1Cu1" (Toy.store Toy.one_pending) = [] /\
  outcome Toy.toolkit (minimum_energy_cell (Ref 0)) Toy.one_pending =
    Raise (AttributeError "final_struct_id").
Proof.
  split; [apply toolkit_db_contract |]. split; by vm_compute.
Qed.

(** C10, amended.  When the database has no initial structure of one of the
    three formula units, and the formula units before it in the cell each have
    initial structures, all with a name and a final structure with an energy,
    the cell fails with an index error at element 0 of the empty sorted list:
    it does not go on to the next formula unit and prints no list of names. *)
Theorem missing_formula_unit_index_error :
  forall (W : Type) (h : Handler W) (rows : W -> list Row)
         (db : ref CDatabase) (w : W) (pre : list string) (F : string)
         (post : list string),
    db_contract h rows ->
    formula_units = pre ++ F :: post ->
    candidates F (rows w) = [] ->
    (forall G, G ∈ pre ->
       candidates G (rows w) <> [] /\
       forall row, row ∈ candidates G (rows w) -> ready (rows w) row) ->
    outcome h (minimum_energy_cell db) w = Raise IndexError /\
    prints_nothing (trace h (minimum_energy_cell db) w).
Proof.
  intros W h rows db w pre F post Hc Hsplit Hnil Hpre.
  destruct (names_fail h rows Hc db w pre F post Hsplit Hnil Hpre) as [Ho Hp].
  unfold minimum_energy_cell. rewrite !bind_unfold.
  rewrite outcome_bind, trace_bind, Ho, app_nil_r. done.
Qed.

Lemma ready_check (rows : list Row) (Fs : list string) :
  all_ready rows Fs = true ->
  forall F, F ∈ Fs ->
    candidates F rows <> [] /\
    forall row, row ∈ candidates F rows -> ready rows row.
Proof.
  intros H F HF. unfold all_ready in H.
  rewrite forallb_forall in H. apply list_elem_of_In in HF.
  specialize (H F HF).
  destruct (candidates F rows) as [| row0 l]; [done |].
  split; [done |]. intros row Hrow.
  rewrite forallb_forall in H. apply list_elem_of_In in Hrow.
  specialize (H row Hrow). unfold readyb in H. unfold ready.
  destruct (energy_per_atom rows row); [| done].
  destruct (key_value_pairs row !! "name"); [| done].
  split; by eexists.
Qed.

Lemma lowest_energy_names_witness :
  db_contract Toy.toolkit Toy.store /\
  (forall F, F ∈ formula_units ->
     candidates F (Toy.store Toy.calculated) <> [] /\
     forall row, row ∈ candidates F (Toy.store Toy.calculated) ->
                 ready (Toy.store Toy.calculated) row) /\
  exists n1 n2 n3,
    outcome Toy.toolkit (minimum_energy_names (Ref 0)) Toy.calculated
      = Ok [n1; n2; n3] /\
    lowest (Toy.store Toy.calculated) "Au3Cu1" n1 /\
    lowest (Toy.store Toy.calculated) "Au1Cu1" n2 /\
    lowest (Toy.store Toy.calculated) "Au1Cu3" n3 /\
    pack (Print (PList [n1; n2; n3]))
      ∈ calls (trace Toy.toolkit (minimum_energy_cell (Ref 0)) Toy.calculated).
Proof.
  split; [exact toolkit_db_contract |].
  split; [apply ready_check; vm_compute; reflexivity |].
  apply (lowest_energy_names Toy.World Toy.toolkit Toy.store (Ref 0) Toy.calculated
           toolkit_db_contract).
  apply ready_check; vm_compute; reflexivity.
Defined.

Lemma missing_formula_unit_index_error_witness :
  db_contract Toy.toolkit Toy.store /\
  formula_units = ["Au3Cu1"] ++ "Au1Cu1" :: ["Au1Cu3"] /\
  candidates "Au1Cu1" (Toy.store Toy.without_aucu) = [] /\
  (forall G, G ∈ ["Au3Cu1"] ->
     candidates G (Toy.store Toy.without_aucu) <> [] /\
     forall row, row ∈ candidates G (Toy.store Toy.without_aucu) ->
                 ready (Toy.store Toy.without_aucu) row) /\
  outcome Toy.toolkit (minimum_energy_cell (Ref 0)) Toy.without_aucu
    = Raise IndexError /\
  prints_nothing (trace Toy.toolkit (minimum_energy_cell (Ref 0)) Toy.without_aucu).
Proof.
  split; [exact toolkit_db_contract |].
  split; [reflexivity |].
  split; [vm_compute; reflexivity |].
  split; [apply ready_check; vm_compute; reflexivity |].
  apply (missing_formula_unit_index_error Toy.World Toy.toolkit Toy.store (Ref 0)
           Toy.without_aucu ["Au3Cu1"] "Au1Cu1" ["Au1Cu3"] toolkit_db_contract).
  - reflexivity.
  - vm_compute; reflexivity.
  - apply ready_check; vm_compute; reflexivity.
Defined.

(** ** The calculation loop *)

Arguments wp : simpl never.

Lemma wp_call_intro {W S : Type} (ok : S -> Entry W -> Prop) (next : S -> Entry W -> S)
    (h : Handler W) {A : Type} {t : ty} (c : Ext t) (k : El t -> Prog A) Q s w :
  (forall r w', h _ c w = (r, w') ->
     ok s (mkEntry c r w') /\
     match r with
     | Ok x => wp ok next h (k x) Q (next s (mkEntry c r w')) w'
     | Raise ex => Q (Raise ex) (next s (mkEntry c r w')) w'
     end) ->
  wp ok next h (Call c k) Q s w.
Proof. intros H. exact H. Qed.

Lemma wp_try_intro {W S : Type} (ok : S -> Entry W -> Prop) (next : S -> Entry W -> S)
    (h : Handler W) {A : Type} {t : ty} (c : Ext t) (k : Result (El t) -> Prog A) Q s w :
  (forall r w', h _ c w = (r, w') ->
     ok s (mkEntry c r w') /\ wp ok next h (k r) Q (next s (mkEntry c r w')) w') ->
  wp ok next h (Try c k) Q s w.
Proof. intros H. exact H. Qed.

Lemma wp_ret_intro {W S : Type} (ok : S -> Entry W -> Prop) (next : S -> Entry W -> S)
    (h : Handler W) {A : Type} (a : A) (Q : Result A -> S -> W -> Prop) s w :
  Q (Ok a) s w -> wp ok next h (Ret a) Q s w.
Proof. intros H. exact H. Qed.

Lemma after_record_updates {W : Type} (tr : list (Entry W)) (s : list nat) :
  after record_updates s tr = s ++ updated_ids tr.
Proof.
  unfold after, updated_ids. revert s.
  induction tr as [| e tr IH]; intros s; simpl.
  - by rewrite app_nil_r.
  - rewrite IH. unfold record_updates. by rewrite <- app_assoc.
Qed.

Section Calculation.
Context {W : Type} (h : Handler W) (rows : W -> list Row).
Hypothesis contract : db_contract h rows.

Lemma frame_step {t : ty} (c : Ext t) w r w' keep :
  h _ c w = (r, w') -> writes_db c = false ->
  kept rows keep w -> kept rows keep w'.
Proof.
  intros E Hc Hk row Hin.
  replace w' with (h _ c w).2 by (by rewrite E).
  rewrite (db_frame h rows contract); auto.
Qed.

Lemma update_step uid atoms name w r w' keep :
  h _ (UpdateDb uid atoms name) w = (r, w') ->
  (forall row, row ∈ keep -> row_id row <> uid) ->
  kept rows keep w -> kept rows keep w'.
Proof.
  intros E Hne Hk row Hin.
  replace w' with (h _ (UpdateDb uid atoms name) w).2 by (by rewrite E).
  apply (update_frame h rows contract); auto.
Qed.

Lemma calculation_body_ok calc row w :
  outcome h (calculation_body calc row) w = Ok tt ->
  relaxation calc row (trace h (calculation_body calc row) w).
Proof.
  unfold calculation_body, call. simpl. intros H.
  apply call_ok in H as ([] & E1 & H & ->).
  apply call_ok in H as (atoms & E2 & H & ->).
  apply call_ok in H as ([] & E3 & H & ->).
  apply call_ok in H as (ucf & E4 & H & ->).
  apply call_ok in H as (opt & E5 & H & ->).
  apply call_ok in H as ([] & E6 & H & ->).
  apply call_ok in H as ([] & E7 & H & ->).
  exists atoms, ucf, opt. unfold made_of, returned.
  repeat (constructor; [by eexists |]). constructor.
Qed.

Lemma calculation_loop_ok calc selected w :
  outcome h (for_in selected (fun row _ => calculation_body calc row) tt) w = Ok tt ->
  exists blocks,
    Forall2 (relaxation calc) selected blocks /\
    trace h (for_in selected (fun row _ => calculation_body calc row) tt) w
      = concat blocks.
Proof.
  revert w. induction selected as [| row selected IH]; intros w H.
  - by exists [].
  - rewrite for_in_cons in *. rewrite outcome_bind in H. rewrite trace_bind.
    destruct (outcome h (calculation_body calc row) w) as [[] |] eqn:Hb; [| done].
    destruct (IH _ H) as (blocks & Hblocks & Htr).
    exists (trace h (calculation_body calc row) w :: blocks).
    split.
    + constructor; [by apply calculation_body_ok | done].
    + simpl. by rewrite Htr.
Qed.

Lemma calculation_cell_ok w db :
  outcome h calculation_cell w = Ok db ->
  exists selected,
    calculation_run selected db (trace h calculation_cell w) /\
    selected = pending (rows w).
Proof.
  unfold calculation_cell, calculation_loop, call. simpl. intros H.
  apply call_ok in H as ([] & E1 & H & ->).
  apply call_ok in H as ([] & E2 & H & ->).
  apply call_ok in H as ([] & E3 & H & ->).
  apply call_ok in H as ([] & E4 & H & ->).
  apply call_ok in H as ([] & E5 & H & ->).
  apply call_ok in H as (calc & E6 & H & ->).
  apply call_ok in H as (db' & E7 & H & ->).
  apply call_ok in H as (selected & E8 & H & ->). unfold Prog_bind in *.
  rewrite outcome_bind in H. rewrite trace_bind.
  match type of H with
  | context [outcome h (for_in selected ?b tt) ?w'] =>
      destruct (outcome h (for_in selected b tt) w') as [[] |] eqn:Hloop; [| done];
      destruct (calculation_loop_ok calc selected w' Hloop) as (blocks & Hblocks & Htr)
  end.
  apply call_ok in H as ([] & E9 & H & ->).
  injection H as <-.
  exists selected. split.
  - exists calc. eexists _, blocks, _. split; [| split; [| split]]; last first.
    + unfold made_of, returned. repeat (constructor; [by eexists |]). constructor.
    + done.
    + unfold made_of, returned. repeat (constructor; [by eexists |]). constructor.
    + rewrite Htr. reflexivity.
  - rewrite (select_result h rows contract) in E8. injection E8 as <-.
    unfold pending. f_equal.
    repeat match goal with
           | |- rows (h ?t ?c ?w).2 = _ =>
               transitivity (rows w);
               [by apply (db_frame h rows contract t c w) |]
           end.
    done.
Qed.

Lemma wp_reader {A : Type} {t : ty} (c : Ext t) (k : El t -> Prog A) Q s w :
  writes_db c = false -> updated c = [] ->
  (forall x w', rows w' = rows w ->
     wp any_call record_updates h (k x) Q s w') ->
  (forall ex w', rows w' = rows w -> Q (Raise ex) s w') ->
  wp any_call record_updates h (Call c k) Q s w.
Proof.
  intros Hc Hu Hk Hex r w' E. split; [exact I |].
  assert (Hw : rows w' = rows w).
  { replace w' with (h _ c w).2 by (by rewrite E).
    by apply (db_frame h rows contract). }
  unfold record_updates; simpl. rewrite Hu, app_nil_r.
  destruct r; auto.
Qed.

Lemma kept_eq keep w w' : rows w' = rows w -> kept rows keep w -> kept rows keep w'.
Proof. intros E Hk row Hin. rewrite E. by apply Hk. Qed.

Ltac reader_step :=
  apply wp_reader;
  [ done | done |
  | intros ? ? ?; split; [eapply kept_eq; [| eassumption]; congruence | by split] ].

Lemma calculation_body_wp calc row keep s w :
  kept rows keep w ->
  (forall r, r ∈ keep -> row_id r <> row_id row) ->
  wp any_call record_updates h (calculation_body calc row)
     (fun r s' w' =>
        kept rows keep w' /\
        match r with
        | Ok _ => s' = s ++ [row_id row]
        | Raise _ => s' = s \/ s' = s ++ [row_id row]
        end) s w.
Proof.
  intros Hk Hne. unfold calculation_body, call. simpl.
  apply wp_reader; [done | done | | by eauto using kept_eq].
  intros [] w1 E1. apply (kept_eq keep) in E1; [| done].
  apply wp_reader; [done | done | | by eauto using kept_eq].
  intros atoms w2 E2. apply (kept_eq keep) in E2; [| done].
  apply wp_reader; [done | done | | by eauto using kept_eq].
  intros [] w3 E3. apply (kept_eq keep) in E3; [| done].
  apply wp_reader; [done | done | | by eauto using kept_eq].
  intros ucf w4 E4. apply (kept_eq keep) in E4; [| done].
  apply wp_reader; [done | done | | by eauto using kept_eq].
  intros opt w5 E5. apply (kept_eq keep) in E5; [| done].
  apply wp_reader; [done | done | | by eauto using kept_eq].
  intros [] w6 E6. apply (kept_eq keep) in E6; [| done].
  apply wp_call_intro. intros r w7 E7. split; [exact I |].
  pose proof (update_step _ _ _ _ _ _ keep E7 Hne E6) as Hk7.
  unfold record_updates; simpl. destruct r as [[] |]; simpl; auto.
  apply wp_ret_intro. auto.
Qed.

Lemma calculation_loop_wp calc selected keep w :
  kept rows keep w ->
  (forall r row, r ∈ keep -> row ∈ selected -> row_id r <> row_id row) ->
  wp any_call record_updates h
     (for_in selected (fun row _ => calculation_body calc row) tt)
     (fun r s' w' =>
        kept rows keep w' /\
        s' `prefix_of` map row_id selected /\
        (forall u, r = Ok u -> s' = map row_id selected)) [] w.
Proof.
  intros Hk Hne.
  apply (wp_for_in _ _ _
           (fun l (_ : unit) s' w' =>
              kept rows keep w' /\
              exists done, s' = map row_id done /\ selected = done ++ l)).
  - split; [done |]. by exists [].
  - intros row l [] s w1 (Hk1 & done & -> & ->).
    eapply wp_mono; [| apply (calculation_body_wp calc row keep); [done |]].
    + intros [[] | ex] s' w' [Hk' Hs']; simpl.
      * split; [done |]. exists (done ++ [row]).
        rewrite Hs', map_app, <- app_assoc. done.
      * split; [done |]. split; [| done].
        rewrite map_app. simpl.
        destruct Hs' as [-> | ->].
        -- by apply prefix_app_r.
        -- exists (map row_id l). by rewrite <- app_assoc.
    + intros r Hr. apply Hne; [done |]. apply elem_of_app. right. left.
  - intros [] s w1 (Hk1 & done & -> & ->). rewrite app_nil_r.
    split; [done |]. split; [done |]. done.
Qed.

Lemma pending_ids_differ (l : list Row) (r row : Row) :
  NoDup (map row_id l) -> r ∈ l -> r ∉ pending l -> row ∈ pending l ->
  row_id r <> row_id row.
Proof.
  intros Hnd Hr Hnot Hrow Heq.
  assert (Hin : row ∈ l).
  { unfold pending, select_rows in Hrow. by apply list_elem_of_filter in Hrow as [_ ?]. }
  assert (r = row); [| by subst].
  clear Hnot Hrow. induction l as [| x l IH]; [by apply elem_of_nil in Hr |].
  simpl in Hnd. apply NoDup_cons in Hnd as [Hx Hnd].
  apply elem_of_cons in Hr as [-> | Hr]; apply elem_of_cons in Hin as [-> | Hin];
    try done.
  - exfalso. apply Hx. rewrite Heq. by apply list_elem_of_fmap_2.
  - exfalso. apply Hx. rewrite <- Heq. by apply list_elem_of_fmap_2.
  - by apply IH.
Qed.

Lemma calculation_cell_wp keep w :
  NoDup (map row_id (rows w)) ->
  (forall r, r ∈ keep -> r ∈ rows w /\ r ∉ pending (rows w)) ->
  wp any_call record_updates h calculation_cell
     (fun r s' w' =>
        kept rows keep w' /\
        s' `prefix_of` map row_id (pending (rows w)) /\
        (forall db, r = Ok db -> s' = map row_id (pending (rows w)))) [] w.
Proof.
  intros Hnd Hkeep. unfold calculation_cell, calculation_loop, call. simpl.
  assert (Hk : kept rows keep w) by (intros r Hr; by apply Hkeep).
  assert (Hempty : [] `prefix_of` map row_id (pending (rows w))) by apply prefix_nil.
  reader_step. intros [] w1 E1.
  reader_step. intros [] w2 E2. rewrite E1 in E2.
  reader_step. intros [] w3 E3. rewrite E2 in E3.
  reader_step. intros [] w4 E4. rewrite E3 in E4.
  reader_step. intros [] w5 E5. rewrite E4 in E5.
  reader_step. intros calc w6 E6. rewrite E5 in E6.
  reader_step. intros db w7 E7. rewrite E6 in E7.
  apply wp_call_intro. intros r w8 E8. split; [exact I |].
  assert (Hw8 : rows w8 = rows w).
  { replace w8 with (h _ (DbSelect db [("converged", VBool false)]) w7).2
      by (by rewrite E8).
    rewrite <- E7. by apply (db_frame h rows contract). }
  assert (Hr : r = Ok (pending (rows w))).
  { replace r with (h _ (DbSelect db [("converged", VBool false)]) w7).1
      by (by rewrite E8).
    rewrite (select_result h rows contract), E7. done. }
  subst r. unfold record_updates; simpl. unfold Prog_bind.
  apply wp_bind.
  eapply wp_mono;
    [| apply (calculation_loop_wp calc (pending (rows w)) keep);
       [by eauto using kept_eq |]].
  - intros [[] | ex] s' w' (Hk' & Hpre & Hall); [| done].
    rewrite (Hall tt eq_refl).
    apply wp_reader; [done | done | |].
    + intros [] w9 E9. apply wp_ret_intro.
      split; [by eauto using kept_eq |]. done.
    + intros ex w9 E9. split; [by eauto using kept_eq |]. done.
  - intros r row Hr Hrow. destruct (Hkeep r Hr) as [Hin Hnot].
    by apply (pending_ids_differ (rows w)).
Qed.
End Calculation.

(** C4.  The calculation loop selects the rows whose [converged] flag is
    [False]; on each of them, in the order of the selection, it attaches the
    EMT calculator, relaxes a [UnitCellFilter] of the structure with [BFGS]
    down to [fmax=0.02] and calls [update_db] with the id of the row, once.
    A row that is not selected is never handed to [update_db], and its entry
    is in the database after the loop as it was before, whatever the outcome
    of the run. *)
Theorem calculation_selects_pending :
  forall (W : Type) (h : Handler W) (rows : W -> list Row) (w : W),
    db_contract h rows ->
    NoDup (map row_id (rows w)) ->
    (updated_ids (trace h calculation_cell w)
       `prefix_of` map row_id (pending (rows w))) /\
    NoDup (updated_ids (trace h calculation_cell w)) /\
    (forall db, outcome h calculation_cell w = Ok db ->
       calculation_run (pending (rows w)) db (trace h calculation_cell w) /\
       updated_ids (trace h calculation_cell w) = map row_id (pending (rows w))) /\
    (forall row, row ∈ rows w -> row ∉ pending (rows w) ->
       (row_id row ∉ updated_ids (trace h calculation_cell w)) /\
       row ∈ rows (final h calculation_cell w)).
Proof.
  intros W h rows w Hc Hnd.
  set (keep := filter (fun row => row ∉ pending (rows w)) (rows w)).
  assert (Hkeep : forall r, r ∈ keep -> r ∈ rows w /\ r ∉ pending (rows w)).
  { intros r Hr. apply list_elem_of_filter in Hr as [? ?]. done. }
  destruct (wp_sound _ _ _ _ _ _ _ (calculation_cell_wp h rows Hc keep w Hnd Hkeep))
    as [_ (Hk & Hpre & Hall)].
  rewrite after_record_updates in Hpre, Hall. simpl in Hpre, Hall.
  assert (Hsub : NoDup (map row_id (pending (rows w)))).
  { eapply sublist_NoDup; [exact Hnd |].
    apply fmap_sublist. apply sublist_filter. }
  split; [done |]. split; [| split].
  - destruct Hpre as [k Hk']. rewrite Hk' in Hsub.
    by apply NoDup_app in Hsub as [? _].
  - intros db Hout. split; [| by eapply Hall].
    destruct (calculation_cell_ok h rows Hc w db Hout) as (selected & Hrun & ->).
    done.
  - intros row Hin Hnot. split.
    + intros Hup. eapply elem_of_prefix in Hup; [| exact Hpre].
      apply list_elem_of_fmap in Hup as (row' & Hid & Hrow').
      by apply (pending_ids_differ (rows w) row row').
    + apply Hk. apply list_elem_of_filter. done.
Qed.

Lemma calculation_selects_pending_witness :
  db_contract Toy.toolkit Toy.store /\
  NoDup (map row_id (Toy.store Toy.world0)) /\
  (updated_ids (trace Toy.toolkit calculation_cell Toy.world0)
     `prefix_of` map row_id (pending (Toy.store Toy.world0))) /\
  NoDup (updated_ids (trace Toy.toolkit calculation_cell Toy.world0)) /\
  (forall db, outcome Toy.toolkit calculation_cell Toy.world0 = Ok db ->
     calculation_run (pending (Toy.store Toy.world0)) db
       (trace Toy.toolkit calculation_cell Toy.world0) /\
     updated_ids (trace Toy.toolkit calculation_cell Toy.world0)
       = map row_id (pending (Toy.store Toy.world0))) /\
  (forall row, row ∈ Toy.store Toy.world0 -> row ∉ pending (Toy.store Toy.world0) ->
     (row_id row ∉ updated_ids (trace Toy.toolkit calculation_cell Toy.world0)) /\
     row ∈ Toy.store (final Toy.toolkit calculation_cell Toy.world0)).
Proof.
  split; [exact toolkit_db_contract |].
  split; [refine (bool_decide_unpack _ _); vm_compute; exact I |].
  apply (calculation_selects_pending Toy.World Toy.toolkit Toy.store Toy.world0
           toolkit_db_contract).
  refine (bool_decide_unpack _ _); vm_compute; exact I.
Defined.

(** ** The choice of the regularization strength *)

Lemma argmin_from_spec (l pre : list Qc) (best : Qc) (ibest : nat) :
  pre !! ibest = Some best ->
  (forall y, y ∈ pre -> (best <= y)%Qc) ->
  exists x,
    (pre ++ l) !! argmin_from best ibest (length pre) l = Some x /\
    forall y, y ∈ pre ++ l -> (x <= y)%Qc.
Proof.
  revert pre best ibest.
  induction l as [| x0 l IH]; intros pre best ibest Hbest Hmin; simpl.
  - exists best. rewrite app_nil_r. done.
  - case_bool_decide as Hlt.
    + destruct (IH (pre ++ [x0]) x0 (length pre)) as (x & Hx & Hall).
      * rewrite lookup_app_r by lia. by rewrite Nat.sub_diag.
      * intros y Hy. apply elem_of_app in Hy as [Hy | Hy].
        -- apply Qclt_le_weak. eapply Qclt_le_trans; [exact Hlt | by apply Hmin].
        -- apply list_elem_of_singleton in Hy as ->. apply Qcle_refl.
      * rewrite length_app in Hx. simpl in Hx.
        rewrite Nat.add_1_r, <- app_assoc in Hx.
        exists x. split; [done |]. by rewrite <- app_assoc in Hall.
    + destruct (IH (pre ++ [x0]) best ibest) as (x & Hx & Hall).
      * by apply lookup_app_l_Some.
      * intros y Hy. apply elem_of_app in Hy as [Hy | Hy]; [by apply Hmin |].
        apply list_elem_of_singleton in Hy as ->. by apply Qcnot_lt_le.
      * rewrite length_app in Hx. simpl in Hx.
        rewrite Nat.add_1_r, <- app_assoc in Hx.
        exists x. split; [done |]. by rewrite <- app_assoc in Hall.
Qed.

(** [argmin] returns the index of an element that no element is below. *)
Lemma argmin_spec (l : list Qc) (i : nat) :
  argmin l = Ok i ->
  exists x, l !! i = Some x /\ forall y, y ∈ l -> (x <= y)%Qc.
Proof.
  destruct l as [| x0 l]; [done |]. simpl. intros [= <-].
  destruct (argmin_from_spec l [x0] x0 0) as (x & Hx & Hall); [done | |].
  - intros y Hy. apply list_elem_of_singleton in Hy as ->. apply Qcle_refl.
  - by exists x.
Qed.

Lemma argmin_nonempty (l : list Qc) : l <> [] -> exists i, argmin l = Ok i.
Proof. destruct l; [done |]. intros _. by eexists. Qed.

Lemma after_last_raised {W : Type} (tr : list (Entry W)) (s : option exn) :
  after last_raised s tr =
  match last tr with
  | Some e => raised e
  | None => s
  end.
Proof.
  unfold after. revert s. induction tr as [| e tr IH]; intros s; [done |].
  simpl. rewrite IH. destruct tr as [| e1 tr]; [done |].
  rewrite last_cons_cons.
  destruct (last (e1 :: tr)) eqn:E; [done |].
  by apply last_None in E.
Qed.

Ltac lib_step :=
  apply wp_call_intro;
  let x := fresh "x" in
  let w := fresh "w" in
  let E := fresh "E" in
  intros [x | ?] w E; (split; [exact I |]); [simpl | by intros ? [= ->]].

Section Evaluation.
Context {W : Type} (h : Handler W).
Hypothesis contract : scan_contract h.

Lemma evaluation_cell_ok settings w :
  outcome h (evaluation_cell settings) w = Ok tt ->
  exists eva alphas cvs idx alpha score d,
    evaluation_run settings eva alphas cvs idx alpha d
      (trace h (evaluation_cell settings) w) /\
    length cvs = 50 /\
    alphas !! idx = Some alpha /\
    cvs !! idx = Some score /\
    forall s, s ∈ cvs -> (score <= s)%Qc.
Proof.
  unfold evaluation_cell, call. simpl. intros H.
  apply call_ok in H as ([] & E1 & H & ->).
  apply call_ok in H as ([] & E2 & H & ->).
  apply call_ok in H as ([] & E3 & H & ->).
  apply call_ok in H as ([] & E4 & H & ->).
  apply call_ok in H as (eva & E5 & H & ->).
  apply call_ok in H as ([alphas cvs] & E6 & H & ->).
  apply call_ok in H as ([] & E7 & H & ->).
  apply call_ok in H as (idx & E8 & H & ->).
  simpl in *. unfold Prog_bind, getitem in *.
  destruct (alphas !! idx) as [alpha |] eqn:Halpha; [| done].
  simpl in *.
  apply call_ok in H as ([] & E9 & H & ->).
  apply call_ok in H as ([] & E10 & H & ->).
  apply call_ok in H as ([] & E11 & H & ->).
  apply call_ok in H as ([] & E12 & H & ->).
  apply call_ok in H as ([] & E13 & H & ->).
  apply call_ok in H as ([] & E14 & H & ->).
  apply call_ok in H as (d & E15 & H & ->).
  apply call_ok in H as ([] & E16 & H & ->).
  apply call_ok in H as ([] & E17 & H & ->).
  apply (alpha_cv_lengths h contract) in E6 as [Hla Hlc].
  rewrite (argmin_result h contract) in E8.
  apply argmin_spec in E8 as (score & Hscore & Hmin).
  exists eva, alphas, cvs, idx, alpha, score, d.
  split; [| done].
  unfold evaluation_run, made_of, returned.
  repeat (constructor; [by eexists |]). constructor.
Qed.

Lemma evaluation_cell_wp settings w :
  wp any_call last_raised h (evaluation_cell settings)
     (fun r s' _ => forall ex, r = Raise ex -> s' = Some ex) None w.
Proof.
  unfold evaluation_cell, call. simpl.
  do 4 lib_step.
  apply wp_call_intro; intros [eva | ex] w5 E5; (split; [exact I |]);
    [| by intros ? [= ->]].
  apply wp_call_intro; intros [[alphas cvs] | ex] w6 E6; (split; [exact I |]);
    [| by intros ? [= ->]].
  assert (Hlen : length alphas = 50 /\ length cvs = 50).
  { apply (alpha_cv_lengths h contract eva (lit 1 10000000%positive) (lit 1 1) 50 w5).
    by rewrite E6. }
  destruct Hlen as [Hla Hlc]. simpl.
  apply wp_call_intro; intros [[] | ex] w7 E7; (split; [exact I |]);
    [| by intros ? [= ->]].
  apply wp_call_intro; intros [idx | ex] w8 E8; (split; [exact I |]);
    [| by intros ? [= ->]].
  assert (Hidx : argmin cvs = Ok idx).
  { rewrite <- (argmin_result h contract cvs w7). by rewrite E8. }
  apply argmin_spec in Hidx as (score & Hscore & _).
  apply lookup_lt_Some in Hscore.
  destruct (lookup_lt_is_Some_2 alphas idx) as [alpha Halpha]; [lia |].
  simpl. unfold Prog_bind, getitem. rewrite Halpha. simpl.
  do 9 lib_step.
  apply wp_ret_intro. done.
Qed.
End Evaluation.

(** C3.  In a run of the evaluation cell that completes, the scan is asked
    for 50 strengths between [1E-7] and [1.0] by an evaluator set up for the
    [l1] scheme with 10-fold cross-validation, [argmin] is applied to its
    scores, the strength at the index [argmin] returns has a score that no
    scanned value is below, and this strength is the one passed to
    [set_fitting_scheme], before [fit], [get_eci] and [save_eci].  The index
    is always within the strengths: a run that fails, fails in a library
    call. *)
Theorem alpha_of_lowest_cv_score :
  forall (W : Type) (h : Handler W) (settings : ref CSettings) (w : W),
    scan_contract h ->
    from_library (trace h (evaluation_cell settings) w)
                 (outcome h (evaluation_cell settings) w) /\
    (outcome h (evaluation_cell settings) w = Ok tt ->
     exists eva alphas cvs idx alpha score d,
       evaluation_run settings eva alphas cvs idx alpha d
         (trace h (evaluation_cell settings) w) /\
       length cvs = 50 /\
       alphas !! idx = Some alpha /\
       cvs !! idx = Some score /\
       forall s, s ∈ cvs -> (score <= s)%Qc).
Proof.
  intros W h settings w Hc. split.
  - destruct (wp_sound _ _ _ _ _ _ _ (evaluation_cell_wp h Hc settings w))
      as [_ Hend].
    rewrite after_last_raised in Hend.
    intros ex Hex. specialize (Hend ex Hex).
    destruct (last (trace h (evaluation_cell settings) w)) as [e |]; [| done].
    by exists e.
  - by apply evaluation_cell_ok.
Qed.

Lemma toolkit_scan_contract : scan_contract Toy.toolkit.
Proof.
  split.
  - done.
  - intros eva lo hi n w alphas cvs [= <- <-].
    by rewrite !length_map, length_seq.
Qed.

Lemma alpha_of_lowest_cv_score_witness :
  scan_contract Toy.toolkit /\
  outcome Toy.toolkit (evaluation_cell (Ref 1)) Toy.world0 = Ok tt /\
  exists eva alphas cvs idx alpha score d,
    evaluation_run (Ref 1) eva alphas cvs idx alpha d
      (trace Toy.toolkit (evaluation_cell (Ref 1)) Toy.world0) /\
    length cvs = 50 /\
    alphas !! idx = Some alpha /\
    cvs !! idx = Some score /\
    forall s, s ∈ cvs -> (score <= s)%Qc.
Proof.
  split; [exact toolkit_scan_contract |].
  split; [vm_compute; reflexivity |].
  apply (alpha_of_lowest_cv_score Toy.World Toy.toolkit (Ref 1) Toy.world0
           toolkit_scan_contract).
  vm_compute; reflexivity.
Defined.

(** ** Quiet programs *)

Section QuietLemmas.
Context {W S : Type}.
Variable ok : S -> Entry W -> Prop.
Variable next : S -> Entry W -> S.
Variable Inv : S -> W -> Prop.
Variable h : Handler W.

Lemma quiet_ret {A : Type} (a : A) : quiet ok next Inv h (Ret a).
Proof. intros Q s w HI HQ. apply wp_ret_intro. by apply HQ. Qed.

Lemma quiet_throw {A : Type} (e : exn) : quiet ok next Inv h (Throw (A:=A) e).
Proof. intros Q s w HI HQ. by apply HQ. Qed.

Lemma quiet_call {A : Type} {t : ty} (c : Ext t) (k : El t -> Prog A) :
  calm ok next Inv h c ->
  (forall x, quiet ok next Inv h (k x)) ->
  quiet ok next Inv h (Call c k).
Proof.
  intros Hc Hk Q s w HI HQ. apply wp_call_intro. intros r w' E.
  destruct (Hc s w r w' HI E) as (Hok & -> & HI').
  split; [done |]. destruct r as [x | ex]; [by apply Hk | by apply HQ].
Qed.

Lemma quiet_try {A : Type} {t : ty} (c : Ext t) (k : Result (El t) -> Prog A) :
  calm ok next Inv h c ->
  (forall r, quiet ok next Inv h (k r)) ->
  quiet ok next Inv h (Try c k).
Proof.
  intros Hc Hk Q s w HI HQ. apply wp_try_intro. intros r w' E.
  destruct (Hc s w r w' HI E) as (Hok & -> & HI').
  split; [done |]. by apply Hk.
Qed.

Lemma quiet_bind {A B : Type} (p : Prog A) (f : A -> Prog B) :
  quiet ok next Inv h p ->
  (forall a, quiet ok next Inv h (f a)) ->
  quiet ok next Inv h (bind p f).
Proof.
  intros Hp Hf Q s w HI HQ. apply wp_bind. apply Hp; [done |].
  intros [a | e] w' HI'; [by apply Hf | by apply HQ].
Qed.

Lemma quiet_for_in {X St : Type} (l : list X) (body : X -> St -> Prog St) (st : St) :
  (forall x st', quiet ok next Inv h (body x st')) ->
  quiet ok next Inv h (for_in l body st).
Proof.
  intros Hbody. revert st. induction l as [| x l IH]; intros st.
  - apply quiet_ret.
  - rewrite for_in_cons. apply quiet_bind; [apply Hbody | apply IH].
Qed.

(** Using a quiet program in front of a continuation. *)
Lemma wp_quiet {A B : Type} (p : Prog A) (f : A -> Prog B) Q s w :
  quiet ok next Inv h p ->
  Inv s w ->
  (forall a w', Inv s w' -> wp ok next h (f a) Q s w') ->
  (forall e w', Inv s w' -> Q (Raise e) s w') ->
  wp ok next h (bind p f) Q s w.
Proof.
  intros Hp HI Hf He. apply wp_bind. apply Hp; [done |].
  intros [a | e] w' HI'; [by apply Hf | by apply He].
Qed.
End QuietLemmas.

Ltac quiet_norm :=
  unfold concentration_cell, print_constraints_cell, settings_cell, ase_db_cell,
    view_clusters_cell, initial_pool_cell, random_structures_cell,
    calculation_cell, calculation_loop, calculation_body, evaluation_cell,
    probe_structures_cell, gs_random_cell, templates_cell, gs_templates_cell,
    stable_phases_cell, minimum_energy_cell, minimum_energy_names,
    minimum_energy_block, energy_per_atom_body, view_image_body,
    getattr, energy_of, truediv, getitem, load_eci, reraise, call;
  simpl; unfold Prog_bind.

Ltac quiet_with calm_tac :=
  repeat first
    [ apply quiet_ret
    | apply quiet_throw
    | apply quiet_call; [calm_tac | intros ?]
    | apply quiet_try; [calm_tac | intros ?]
    | apply quiet_for_in; intros ? ?
    | apply quiet_bind; [| intros ?]
    | match goal with
      | |- quiet _ _ _ _ (match ?x with _ => _ end) => destruct x
      end
    | progress quiet_norm ].

(** ** The coefficients file *)

Arguments load_eci : simpl never.

Section Json.
Context {W C : Type} (h : Handler W) (files : W -> gmap string C).
Context (path : W -> ref CFile -> option string).
Context (dumps : gmap string Qc -> C) (loads : C -> Result (gmap string Qc)).
Hypothesis contract : json_contract h files path dumps loads.

Lemma eci_calm_call {t : ty} (c : Ext t) :
  eci_calm c = true -> calm (eci_ok files dumps) (eci_next files) (eci_inv files) h c.
Proof.
  unfold eci_calm. intros Hc [content n] w r w' HI E.
  apply andb_prop in Hc as [Hc Hsaved]. apply andb_prop in Hc as [Hsave Hgs].
  apply negb_true_iff in Hsave.
  apply bool_decide_eq_true_1 in Hgs. apply bool_decide_eq_true_1 in Hsaved.
  unfold eci_ok, eci_next; simpl. rewrite Hsave, Hgs. simpl.
  split; [split; [done | done] |]. split; [by rewrite Nat.add_0_r |].
  intros c' Hc'. simpl in Hc'. rewrite <- (HI c' Hc').
  replace w' with (h _ c w).2 by (by rewrite E).
  by apply (file_frame h files (json_files h files path dumps loads contract)).
Qed.

Local Abbreviation mon := (wp (eci_ok files dumps) (eci_next files) h).
Local Abbreviation still := (quiet (eci_ok files dumps) (eci_next files) (eci_inv files) h).

Lemma wp_eci_calm {A : Type} {t : ty} (c : Ext t) (k : El t -> Prog A) Q s w :
  eci_calm c = true ->
  eci_inv files s w ->
  (forall x w', h _ c w = (Ok x, w') -> eci_inv files s w' -> mon (k x) Q s w') ->
  (forall ex w', eci_inv files s w' -> Q (Raise ex) s w') ->
  mon (Call c k) Q s w.
Proof.
  intros Hc HI Hk Hex. apply wp_call_intro. intros r w' E.
  destruct (eci_calm_call c Hc s w r w' HI E) as (Hok & -> & HI').
  split; [done |]. destruct r as [x | ex]; [by apply Hk | by apply Hex].
Qed.

Lemma concentration_cell_eci : still concentration_cell.
Proof. quiet_with ltac:(apply eci_calm_call; reflexivity). Qed.

Lemma print_constraints_cell_eci conc : still (print_constraints_cell conc).
Proof. quiet_with ltac:(apply eci_calm_call; reflexivity). Qed.

Lemma settings_cell_eci conc : still (settings_cell conc).
Proof. quiet_with ltac:(apply eci_calm_call; reflexivity). Qed.

Lemma ase_db_cell_eci cmd : still (ase_db_cell cmd).
Proof. quiet_with ltac:(apply eci_calm_call; reflexivity). Qed.

Lemma view_clusters_cell_eci settings : still (view_clusters_cell settings).
Proof. quiet_with ltac:(apply eci_calm_call; reflexivity). Qed.

Lemma initial_pool_cell_eci settings : still (initial_pool_cell settings).
Proof. quiet_with ltac:(apply eci_calm_call; reflexivity). Qed.

Lemma random_structures_cell_eci settings : still (random_structures_cell settings).
Proof. quiet_with ltac:(apply eci_calm_call; reflexivity). Qed.

Lemma calculation_cell_eci : still calculation_cell.
Proof. quiet_with ltac:(apply eci_calm_call; reflexivity). Qed.

Lemma probe_structures_cell_eci settings : still (probe_structures_cell settings).
Proof. quiet_with ltac:(apply eci_calm_call; reflexivity). Qed.

Lemma templates_cell_eci : still templates_cell.
Proof. quiet_with ltac:(apply eci_calm_call; reflexivity). Qed.

Lemma stable_phases_cell_eci : still stable_phases_cell.
Proof. quiet_with ltac:(apply eci_calm_call; reflexivity). Qed.

Lemma minimum_energy_cell_eci db : still (minimum_energy_cell db).
Proof. quiet_with ltac:(apply eci_calm_call; reflexivity). Qed.

Lemma evaluation_cell_eci settings n w :
  mon (evaluation_cell settings)
      (fun r s' w' =>
         forall u, r = Ok u ->
           exists d, s' = (Some (Some (dumps d)), n) /\ eci_inv files s' w')
      (None, n) w.
Proof.
  assert (HI : eci_inv files (None, n) w) by (by intros c Hc).
  quiet_norm.
  repeat (apply wp_eci_calm;
          [reflexivity | assumption | intros ? ? _ ? | by intros ? ? ? ? [=]]).
  wp_case; [| by intros ? [=]].
  repeat (apply wp_eci_calm;
          [reflexivity | assumption | intros ? ? _ ? | by intros ? ? ? ? [=]]).
  match goal with
  | |- wp _ _ _ (Call (SaveEci ?eva _) _) _ _ ?w0 =>
      apply wp_call_intro; intros r wz E;
      assert (Hsave : raised (mkEntry (SaveEci eva eci_file) r wz) = None ->
                      exists d, files wz !! eci_file = Some (dumps d));
      [ destruct r as [[] |]; [| done]; intros _;
        destruct (save_result h files path dumps loads contract eva eci_file w0)
          as [d Hd]; [by rewrite E |];
        exists d; by rewrite E in Hd |]
  end.
  split; [split; [done | done] |].
  destruct r as [[] |]; [| by intros ? [=]].
  destruct (Hsave eq_refl) as [d Hd].
  apply wp_ret_intro. intros _ _. exists d.
  unfold eci_next; simpl. rewrite Hd, Nat.add_0_r. split; [done |].
  intros c [= <-]. done.
Qed.

Lemma eci_frame {t : ty} (c : Ext t) w r w' :
  h _ c w = (r, w') -> eci_file ∉ saved c ->
  files w' !! eci_file = files w !! eci_file.
Proof.
  intros E Hc. replace w' with (h _ c w).2 by (by rewrite E).
  by apply (file_frame h files (json_files h files path dumps loads contract)).
Qed.

(** Loading the file gives the mapping whose dump the file holds. *)
Lemma load_eci_wp {B : Type} (f : gmap string Qc -> Prog B) Q d n w :
  eci_inv files (Some (Some (dumps d)), n) w ->
  (forall w', eci_inv files (Some (Some (dumps d)), n) w' ->
     mon (f d) Q (Some (Some (dumps d)), n) w') ->
  (forall ex s' w', Q (Raise ex) s' w') ->
  mon (bind (load_eci eci_file) f) Q (Some (Some (dumps d)), n) w.
Proof.
  intros HI Hf Hex. quiet_norm.
  apply wp_eci_calm; [reflexivity | assumption | intros fh w1 E1 HI1 | by auto].
  apply wp_try_intro. intros r w2 E2.
  destruct (eci_calm_call (JsonLoad fh) eq_refl _ w1 r w2 HI1 E2)
    as (Hok & -> & HI2).
  split; [done |].
  assert (Hr : r = Ok d).
  { replace r with (h _ (JsonLoad fh) w1).1 by (by rewrite E2).
    rewrite (load_result h files path dumps loads contract fh w1 eci_file (dumps d)).
    - apply (round_trip h files path dumps loads contract).
    - replace w1 with (h _ (Open eci_file) w).2 by (by rewrite E1).
      apply (open_path h files path dumps loads contract). by rewrite E1.
    - by apply HI1. }
  subst r.
  apply wp_eci_calm; [reflexivity | assumption | intros [] w3 E3 HI3 | by auto].
  simpl. by apply Hf.
Qed.

Lemma gs_step {A : Type} ns atoms d (a b c e : nat) (rc : bool)
    (k : unit -> Prog A) Q n w :
  eci_inv files (Some (Some (dumps d)), n) w ->
  (forall w', eci_inv files (Some (Some (dumps d)), S n) w' ->
     mon (k tt) Q (Some (Some (dumps d)), S n) w') ->
  (forall ex s' w', Q (Raise ex) s' w') ->
  mon (Call (GenerateGsStructure ns atoms d a b c e rc) k) Q
      (Some (Some (dumps d)), n) w.
Proof.
  intros HI Hk Hex. apply wp_call_intro. intros r w' E.
  split; [split; [by intros eci [= <-] | by intros [=]] |].
  unfold eci_next; simpl. rewrite Nat.add_1_r.
  destruct r as [[] | ex]; [| by apply Hex].
  apply Hk. intros c' [= <-].
  rewrite (eci_frame _ _ _ _ E); [by apply HI | by apply not_elem_of_nil].
Qed.

Lemma gs_random_cell_eci settings db d n w :
  eci_inv files (Some (Some (dumps d)), n) w ->
  mon (gs_random_cell settings db)
      (fun r s' w' =>
         forall u, r = Ok u ->
           s' = (Some (Some (dumps d)), S n) /\ eci_inv files s' w')
      (Some (Some (dumps d)), n) w.
Proof.
  intros HI. unfold gs_random_cell, call. simpl. unfold Prog_bind.
  do 4 (apply wp_eci_calm;
        [reflexivity | assumption | intros ? ? _ ? | by intros ? ? ? ? [=]]).
  rewrite ?bind_unfold.
  apply load_eci_wp; [assumption | | by intros ? ? ? ? [=]].
  intros w0 HI0.
  apply wp_eci_calm;
    [reflexivity | assumption | intros ns w1 _ HI1 | by intros ? ? ? ? [=]].
  apply gs_step; [assumption | | by intros ? ? ? ? [=]].
  intros w2 HI2.
  apply wp_eci_calm;
    [reflexivity | assumption | intros [] w3 _ HI3 | by intros ? ? ? ? [=]].
  apply wp_ret_intro. done.
Qed.

Lemma gs_templates_cell_eci settings template_list d n w :
  eci_inv files (Some (Some (dumps d)), n) w ->
  mon (gs_templates_cell settings template_list)
      (fun r s' w' =>
         forall u, r = Ok u ->
           s' = (Some (Some (dumps d)), S n) /\ eci_inv files s' w')
      (Some (Some (dumps d)), n) w.
Proof.
  intros HI. unfold gs_templates_cell, call. simpl. unfold Prog_bind.
  apply wp_eci_calm;
    [reflexivity | assumption | intros ? ? _ ? | by intros ? ? ? ? [=]].
  rewrite ?bind_unfold.
  apply load_eci_wp; [assumption | | by intros ? ? ? ? [=]].
  intros w0 HI0.
  apply wp_eci_calm;
    [reflexivity | assumption | intros ns w1 _ HI1 | by intros ? ? ? ? [=]].
  apply gs_step; [assumption | | by intros ? ? ? ? [=]].
  intros w2 HI2.
  apply wp_eci_calm;
    [reflexivity | assumption | intros [] w3 _ HI3 | by intros ? ? ? ? [=]].
  apply wp_ret_intro. done.
Qed.

Ltac eci_quiet lem :=
  eapply (wp_quiet _ _ (eci_inv files)); [apply lem | assumption | | by intros ? ? ? ? [=]];
  intros ? ? ?.

Lemma notebook_eci w :
  mon notebook (fun r s' _ => forall u, r = Ok u -> s'.2 = 2) (None, 0) w.
Proof.
  assert (HI : eci_inv files (None, 0) w) by (by intros c Hc).
  unfold notebook.
  eci_quiet concentration_cell_eci.
  eci_quiet print_constraints_cell_eci.
  eci_quiet settings_cell_eci.
  eci_quiet ase_db_cell_eci.
  eci_quiet view_clusters_cell_eci.
  eci_quiet initial_pool_cell_eci.
  eci_quiet random_structures_cell_eci.
  eci_quiet ase_db_cell_eci.
  eci_quiet ase_db_cell_eci.
  eci_quiet calculation_cell_eci.
  eci_quiet ase_db_cell_eci.
  apply wp_bind. eapply wp_mono; [| apply evaluation_cell_eci].
  intros [[] | ex] s1 w1 Hev; [| by intros ? [=]].
  destruct (Hev tt eq_refl) as (d & -> & HId).
  eci_quiet probe_structures_cell_eci.
  apply wp_bind. eapply wp_mono; [| by apply gs_random_cell_eci].
  intros [[] | ex] s2 w2 Hgs; [| by intros ? [=]].
  destruct (Hgs tt eq_refl) as (-> & HI1).
  eci_quiet templates_cell_eci.
  apply wp_bind. eapply wp_mono; [| by apply gs_templates_cell_eci].
  intros [[] | ex] s3 w3 Hgt; [| by intros ? [=]].
  destruct (Hgt tt eq_refl) as (-> & HI2).
  eci_quiet stable_phases_cell_eci.
  apply minimum_energy_cell_eci; [assumption |].
  intros r w4 _ u _. done.
Qed.

Lemma dumps_inj d1 d2 : dumps d1 = dumps d2 -> d1 = d2.
Proof.
  intros E.
  pose proof (round_trip h files path dumps loads contract d1) as H1.
  pose proof (round_trip h files path dumps loads contract d2) as H2.
  rewrite E, H2 in H1. by injection H1.
Qed.

Lemma eci_after_save (c : option C) (n : nat) (tr : list (Entry W)) :
  accepted (eci_ok files dumps) (eci_next files) (Some c, n) tr ->
  forall e, e ∈ tr ->
    saves_eci (ent_call e) = false /\
    forall eci, gs_eci (ent_call e) = Some eci -> c = Some (dumps eci).
Proof.
  revert n. induction tr as [| e0 tr IH]; intros n Hacc e Hin.
  - by apply elem_of_nil in Hin.
  - destruct Hacc as [[Hgs Hsave] Hacc].
    assert (Hs0 : saves_eci (ent_call e0) = false).
    { destruct (saves_eci (ent_call e0)); [| done]. by destruct Hsave. }
    unfold eci_next in Hacc. rewrite Hs0 in Hacc. simpl in Hacc.
    apply elem_of_cons in Hin as [-> | Hin].
    + split; [done |]. intros eci Heci. specialize (Hgs eci Heci).
      simpl in Hgs. by injection Hgs.
    + by eapply IH.
Qed.

Lemma eci_before_save (n : nat) (tr pre : list (Entry W)) e post eva :
  accepted (eci_ok files dumps) (eci_next files) (None, n) tr ->
  tr = pre ++ e :: post ->
  returned (SaveEci eva eci_file) tt e ->
  gs_ecis pre = [] /\
  exists d,
    files (ent_world e) !! eci_file = Some (dumps d) /\
    forall eci, eci ∈ gs_ecis post -> eci = d.
Proof.
  revert n tr. induction pre as [| e0 pre IH]; intros n tr Hacc -> [we ->].
  - destruct Hacc as [[_ Hsave] Hacc]. split; [done |].
    destruct (Hsave eq_refl) as (_ & _ & Hd). destruct (Hd eq_refl) as [d Hfile].
    exists d. split; [done |].
    unfold eci_next in Hacc. simpl in Hacc, Hfile. rewrite Hfile in Hacc.
    intros eci Hin. apply list_elem_of_omap in Hin as (e' & Hin & Heci).
    destruct (eci_after_save _ _ _ Hacc e' Hin) as [_ Hc].
    specialize (Hc eci Heci). injection Hc as Hc. by apply dumps_inj.
  - destruct Hacc as [[Hgs _] Hacc].
    assert (Hg0 : gs_eci (ent_call e0) = None).
    { destruct (gs_eci (ent_call e0)) as [eci |] eqn:E; [| done].
      by specialize (Hgs eci eq_refl). }
    unfold eci_next in Hacc. simpl in Hacc.
    destruct (saves_eci (ent_call e0) && bool_decide (raised e0 = None)).
    + exfalso.
      destruct (eci_after_save _ _ _ Hacc
                  (mkEntry (SaveEci eva eci_file) (Ok tt) we)) as [Hs _].
      * apply elem_of_app. right. left.
      * done.
    + destruct (IH _ _ Hacc eq_refl) as (Hpre & d & Hd & Hall); [by eexists |].
      split; [| by exists d].
      unfold gs_ecis in *. simpl. by rewrite Hg0.
Qed.

Lemma eci_count s (tr : list (Entry W)) :
  (after (eci_next files) s tr).2 = s.2 + length (gs_ecis tr).
Proof.
  unfold after, gs_ecis. revert s. induction tr as [| e tr IH]; intros s; simpl.
  - lia.
  - rewrite IH. simpl. unfold omap.
    destruct (gs_eci (ent_call e)); simpl; lia.
Qed.
End Json.

(** C2.  The mapping that [save_eci] writes to [cluster_name_eci_l1.json]
    in the evaluation cell is the one both ground-state searches receive:
    with [json.load] giving back what was dumped, and no call but
    [save_eci] and [settings.save] writing a file of that kind, every
    [generate_gs_structure] comes after the save and gets, as [eci], the
    mapping whose dump the file held right after the save; a run that
    completes has made two such searches. *)
Theorem saved_eci_is_loaded :
  forall (W C : Type) (h : Handler W) (files : W -> gmap string C)
         (path : W -> ref CFile -> option string)
         (dumps : gmap string Qc -> C) (loads : C -> Result (gmap string Qc))
         (w : W) (pre : list (Entry W)) (e : Entry W) (post : list (Entry W))
         (eva : ref CEvaluate),
    json_contract h files path dumps loads ->
    trace h notebook w = pre ++ e :: post ->
    returned (SaveEci eva eci_file) tt e ->
    exists d,
      files (ent_world e) !! eci_file = Some (dumps d) /\
      gs_ecis pre = [] /\
      (forall eci, eci ∈ gs_ecis post -> eci = d) /\
      (outcome h notebook w = Ok tt -> gs_ecis post = [d; d]).
Proof.
  intros W C h files path dumps loads w pre e post eva Hc Htr He.
  destruct (wp_sound _ _ _ _ _ _ _ (notebook_eci h files path dumps loads Hc w))
    as [Hacc Hend].
  destruct (eci_before_save h files path dumps loads Hc 0 _ pre e post eva
              Hacc Htr He) as (Hpre & d & Hd & Hall).
  exists d. repeat (split; [done |]).
  intros Hout. specialize (Hend tt Hout).
  rewrite eci_count, Htr in Hend. simpl in Hend.
  unfold gs_ecis in Hend. rewrite omap_app in Hend. fold (gs_ecis pre) in Hend.
  rewrite Hpre in Hend. simpl in Hend.
  destruct He as [we ->]. simpl in Hend. fold (gs_ecis post) in Hend.
  assert (Hlen : length (gs_ecis post) = 2) by exact Hend.
  destruct (gs_ecis post) as [| a [| b [| c l]]] eqn:E; simpl in Hlen; try lia.
  rewrite (Hall a), (Hall b); [done | set_solver | set_solver].
Qed.

Lemma toolkit_files_contract : files_contract Toy.toolkit Toy.files.
Proof.
  split. intros t c w f Hdb Hf. destruct c; simpl in *; try done.
  - by destruct (Toy.files w !! fname).
  - destruct (Toy.handles w !! addr f0) as [fname |]; [| done].
    by destruct (Toy.files w !! fname) as [[] |].
  - apply lookup_insert_ne. set_solver.
  - unfold Toy.update_db. by destruct (get_row _ _).
  - by destruct (Toy.files w !! fname).
  - apply lookup_insert_ne. set_solver.
Qed.

Lemma toolkit_json_contract :
  json_contract Toy.toolkit Toy.files Toy.toy_path Toy.Json Toy.toy_loads.
Proof.
  split.
  - apply toolkit_files_contract.
  - intros f w fh. simpl. destruct (Toy.files w !! f); simpl; [| done].
    intros [= <-]. unfold Toy.toy_path. simpl. apply lookup_insert_eq.
  - intros fh w f c Hpath Hfile. simpl. unfold Toy.toy_path in Hpath.
    rewrite Hpath, Hfile. by destruct c.
  - intros eva f w _. simpl. eexists. apply lookup_insert_eq.
  - done.
Qed.

Lemma save_returned_spec {W : Type} (eva : ref CEvaluate) (e : Entry W) :
  save_returned eva e = true -> returned (SaveEci eva eci_file) tt e.
Proof.
  destruct e as [t c r w]. unfold save_returned; simpl.
  destruct c; try done. destruct r as [[] |]; [| done].
  intros H. apply andb_prop in H as [H1 H2].
  apply bool_decide_eq_true_1 in H1. apply bool_decide_eq_true_1 in H2.
  subst. by exists w.
Qed.

Lemma saved_eci_is_loaded_witness :
  let tr := trace Toy.toolkit notebook Toy.world0 in
  let e := nth 89 tr (mkEntry EMT (Raise KeyError) Toy.world0) in
  json_contract Toy.toolkit Toy.files Toy.toy_path Toy.Json Toy.toy_loads /\
  tr = take 89 tr ++ e :: drop 90 tr /\
  returned (SaveEci (Ref 28) eci_file) tt e /\
  exists d,
    Toy.files (ent_world e) !! eci_file = Some (Toy.Json d) /\
    gs_ecis (take 89 tr) = [] /\
    (forall eci, eci ∈ gs_ecis (drop 90 tr) -> eci = d) /\
    (outcome Toy.toolkit notebook Toy.world0 = Ok tt -> gs_ecis (drop 90 tr) = [d; d]).
Proof.
  intros tr e.
  assert (Hlen : 89 < length tr).
  { apply Nat.ltb_lt. vm_compute. reflexivity. }
  assert (Hsplit : tr = take 89 tr ++ e :: drop 90 tr).
  { symmetry. apply take_drop_middle. unfold e. rewrite nth_lookup.
    destruct (lookup_lt_is_Some_2 tr 89 Hlen) as [e' He']. by rewrite He'. }
  assert (Hret : returned (SaveEci (Ref 28) eci_file) tt e).
  { apply save_returned_spec. vm_compute. reflexivity. }
  split; [exact toolkit_json_contract |].
  split; [exact Hsplit |]. split; [exact Hret |].
  exact (saved_eci_is_loaded Toy.World Toy.FileData Toy.toolkit Toy.files Toy.toy_path
           Toy.Json Toy.toy_loads Toy.world0 (take 89 tr) e (drop 90 tr) (Ref 28)
           toolkit_json_contract Hsplit Hret).
Defined.

(** ** The geometry files *)

Section Templates.
Context {W C : Type} (h : Handler W) (files : W -> gmap string C) (w0 : W).
Hypothesis contract : files_contract h files.

Local Abbreviation tmon := (wp (template_ok files w0) template_next h).
Local Abbreviation tstill :=
  (quiet (template_ok files w0) template_next (template_inv files w0) h).

Lemma template_frame {t : ty} (c : Ext t) w r w' :
  h _ c w = (r, w') ->
  (forall f, f ∈ template_files -> f ∉ saved c) ->
  unchanged files w0 w -> unchanged files w0 w'.
Proof.
  intros E Hc Hw f Hf. rewrite <- (Hw f Hf).
  replace w' with (h _ c w).2 by (by rewrite E).
  apply (file_frame h files contract); [| by apply Hc].
  unfold template_files, traj_templates, xyz_structures in Hf. simpl in Hf.
  repeat (apply elem_of_cons in Hf as [-> | Hf]); try done.
  by apply elem_of_nil in Hf.
Qed.

Lemma template_calm_call {t : ty} (c : Ext t) :
  template_calm c = true ->
  calm (template_ok files w0) template_next (template_inv files w0) h c.
Proof.
  unfold template_calm. intros Hc s w r w' HI E.
  apply andb_prop in Hc as [Hc Hgs]. apply andb_prop in Hc as [Hall Hread].
  apply bool_decide_eq_true_1 in Hgs. apply negb_true_iff in Hread.
  rewrite forallb_forall in Hall.
  assert (Hw' : unchanged files w0 w').
  { apply (template_frame c w r w' E); [| done].
    intros f Hf. apply list_elem_of_In in Hf. specialize (Hall f Hf).
    apply andb_prop in Hall as [_ Hs]. by apply bool_decide_eq_true_1 in Hs. }
  split; [| split; [| done]].
  - split; [| split; [| done]].
    + intros f Hf Hm. apply list_elem_of_In in Hf. specialize (Hall f Hf).
      apply andb_prop in Hall as [Hn _]. apply negb_true_iff in Hn.
      simpl in Hm. congruence.
    + simpl. intros l Hl. congruence.
  - unfold template_next, read_result; simpl.
    destruct c; try done; by rewrite app_nil_r.
Qed.

Lemma wp_template_calm {A : Type} {t : ty} (c : Ext t) (k : El t -> Prog A) Q s w :
  template_calm c = true ->
  unchanged files w0 w ->
  (forall x w', unchanged files w0 w' -> tmon (k x) Q s w') ->
  (forall ex w', unchanged files w0 w' -> Q (Raise ex) s w') ->
  tmon (Call c k) Q s w.
Proof.
  intros Hc HI Hk Hex. apply wp_call_intro. intros r w' E.
  destruct (template_calm_call c Hc s w r w' HI E) as (Hok & -> & HI').
  split; [done |]. destruct r as [x | ex]; [by apply Hk | by apply Hex].
Qed.

Lemma wp_template_calm_try {A : Type} {t : ty} (c : Ext t)
    (k : Result (El t) -> Prog A) Q s w :
  template_calm c = true ->
  unchanged files w0 w ->
  (forall r w', unchanged files w0 w' -> tmon (k r) Q s w') ->
  tmon (Try c k) Q s w.
Proof.
  intros Hc HI Hk. apply wp_try_intro. intros r w' E.
  destruct (template_calm_call c Hc s w r w' HI E) as (Hok & -> & HI').
  split; [done |]. by apply Hk.
Qed.

(** A read of one of the files: the state gets what it returned. *)
Lemma wp_read {A : Type} (f : string) (k : ref CAtoms -> Prog A) Q s w :
  unchanged files w0 w ->
  (forall a w', unchanged files w0 w' -> tmon (k a) Q (s ++ [(f, a)]) w') ->
  (forall ex s' w', unchanged files w0 w' -> Q (Raise ex) s' w') ->
  tmon (Call (Read f) k) Q s w.
Proof.
  intros HI Hk Hex. apply wp_call_intro. intros r w' E.
  assert (Hw' : unchanged files w0 w').
  { apply (template_frame (Read f) w r w' E); [| done].
    intros f' _. apply not_elem_of_nil. }
  split.
  - split; [| split; [| done]].
    + intros f' _ Hm. simpl in Hm. apply bool_decide_eq_true_1 in Hm. by subst.
    + simpl. intros l Hl. congruence.
  - unfold template_next, read_result; simpl.
    destruct r as [a | ex]; [by apply Hk | by apply Hex].
Qed.

Ltac tcalm := apply template_calm_call; vm_compute; reflexivity.

Lemma concentration_cell_tpl : tstill concentration_cell.
Proof. quiet_with tcalm. Qed.

Lemma print_constraints_cell_tpl conc : tstill (print_constraints_cell conc).
Proof. quiet_with tcalm. Qed.

Lemma settings_cell_tpl conc : tstill (settings_cell conc).
Proof. quiet_with tcalm. Qed.

Lemma ase_db_cell_tpl cmd :
  template_calm (Shell cmd) = true -> tstill (ase_db_cell cmd).
Proof.
  intros Hcmd. unfold ase_db_cell, call.
  apply quiet_call; [| intros; apply quiet_ret].
  by apply template_calm_call.
Qed.

Lemma view_clusters_cell_tpl settings : tstill (view_clusters_cell settings).
Proof. quiet_with tcalm. Qed.

Lemma initial_pool_cell_tpl settings : tstill (initial_pool_cell settings).
Proof. quiet_with tcalm. Qed.

Lemma random_structures_cell_tpl settings : tstill (random_structures_cell settings).
Proof. quiet_with tcalm. Qed.

Lemma calculation_cell_tpl : tstill calculation_cell.
Proof. quiet_with tcalm. Qed.

Lemma evaluation_cell_tpl settings : tstill (evaluation_cell settings).
Proof. quiet_with tcalm. Qed.

Lemma probe_structures_cell_tpl settings : tstill (probe_structures_cell settings).
Proof. quiet_with tcalm. Qed.

Lemma gs_random_cell_tpl settings db : tstill (gs_random_cell settings db).
Proof. quiet_with tcalm. Qed.

Lemma minimum_energy_cell_tpl db : tstill (minimum_energy_cell db).
Proof. quiet_with tcalm. Qed.

Ltac tpl_step :=
  apply wp_template_calm;
  [ vm_compute; reflexivity | assumption | intros ? ? ?
  | intros ? ? ?; first [assumption | by split] ].

Lemma templates_cell_tpl w :
  unchanged files w0 w ->
  tmon templates_cell
       (fun r s' w' =>
          unchanged files w0 w' /\
          forall tl, r = Ok tl -> read_from traj_templates s' = tl) [] w.
Proof.
  intros HI. unfold templates_cell, call. simpl.
  do 2 tpl_step.
  apply wp_read; [assumption | intros au3cu w3 HI3 | by split].
  apply wp_read; [assumption | intros aucu w4 HI4 | by split].
  apply wp_read; [assumption | intros aucu3 w5 HI5 | by split].
  tpl_step.
  apply wp_ret_intro. split; [assumption |]. by intros tl [= <-].
Qed.

Lemma gs_templates_cell_tpl settings template_list s w :
  unchanged files w0 w ->
  read_from traj_templates s = template_list ->
  tmon (gs_templates_cell settings template_list)
       (fun r s' w' => unchanged files w0 w') s w.
Proof.
  intros HI Hs. unfold gs_templates_cell, load_eci, call. simpl.
  do 2 tpl_step.
  apply wp_template_calm_try; [vm_compute; reflexivity | assumption |].
  intros loaded ? ?. tpl_step.
  destruct loaded as [eci | ex]; simpl; [| assumption].
  tpl_step.
  apply wp_call_intro. intros r w6 E6.
  assert (HI6 : unchanged files w0 w6).
  { eapply template_frame; [exact E6 | | eassumption].
    intros f _. apply not_elem_of_nil. }
  split.
  - split; [| split; [| done]].
    + intros f _ Hm. done.
    + simpl. by intros l [= <-].
  - unfold template_next, read_result; simpl. rewrite app_nil_r.
    destruct r as [[] | ex]; [| done].
    tpl_step. apply wp_ret_intro. assumption.
Qed.

Lemma stable_phases_cell_tpl s w :
  unchanged files w0 w ->
  tmon stable_phases_cell (fun r s' w' => unchanged files w0 w') s w.
Proof.
  intros HI. unfold stable_phases_cell, call. simpl.
  do 2 tpl_step.
  apply wp_read; [assumption | intros a1 w3 HI3 | done].
  apply wp_read; [assumption | intros a2 w4 HI4 | done].
  apply wp_read; [assumption | intros a3 w5 HI5 | done].
  tpl_step.
  apply wp_ret_intro. assumption.
Qed.

Ltac tpl_quiet lem :=
  eapply (wp_quiet _ _ (template_inv files w0));
  [ apply lem | assumption | intros ? ? ? | intros ? ? ?; assumption ].

Lemma notebook_tpl :
  tmon notebook (fun r s' w' => unchanged files w0 w') [] w0.
Proof.
  assert (HI : unchanged files w0 w0) by (by intros f Hf).
  unfold notebook.
  tpl_quiet concentration_cell_tpl.
  tpl_quiet print_constraints_cell_tpl.
  tpl_quiet settings_cell_tpl.
  tpl_quiet ase_db_cell_tpl; [vm_compute; reflexivity |].
  tpl_quiet view_clusters_cell_tpl.
  tpl_quiet initial_pool_cell_tpl.
  tpl_quiet random_structures_cell_tpl.
  tpl_quiet ase_db_cell_tpl; [vm_compute; reflexivity |].
  tpl_quiet ase_db_cell_tpl; [vm_compute; reflexivity |].
  tpl_quiet calculation_cell_tpl.
  tpl_quiet ase_db_cell_tpl; [vm_compute; reflexivity |].
  tpl_quiet evaluation_cell_tpl.
  tpl_quiet probe_structures_cell_tpl.
  tpl_quiet gs_random_cell_tpl.
  apply wp_bind. eapply wp_mono; [| by apply templates_cell_tpl].
  intros [tl | ex] s1 w1 [HI1 Htl]; [| assumption].
  specialize (Htl tl eq_refl).
  apply wp_bind. eapply wp_mono; [| by apply gs_templates_cell_tpl].
  intros [[] | ex] s2 w2 HI2; [| assumption].
  apply wp_bind. eapply wp_mono; [| by apply stable_phases_cell_tpl].
  intros [[] | ex] s3 w3 HI3; [| assumption].
  apply minimum_energy_cell_tpl; [assumption |].
  intros r w4 HI4. assumption.
Qed.

Lemma template_accepted_all (tr : list (Entry W)) s :
  accepted (template_ok files w0) template_next s tr ->
  forall e, e ∈ tr -> only_read e /\ unchanged files w0 (ent_world e).
Proof.
  revert s. induction tr as [| e0 tr IH]; intros s Hacc e Hin.
  - by apply elem_of_nil in Hin.
  - destruct Hacc as [(Hr & _ & Hu) Hacc].
    apply elem_of_cons in Hin as [-> | Hin]; [done | by eapply IH].
Qed.

Lemma template_accepted_gs (tr : list (Entry W)) s :
  accepted (template_ok files w0) template_next s tr ->
  forall pre e post l,
    tr = pre ++ e :: post -> gs_many (ent_call e) = Some l ->
    l = read_from traj_templates (s ++ reads pre).
Proof.
  revert s. induction tr as [| e0 tr IH]; intros s Hacc pre e post l Htr Hl.
  - by destruct pre.
  - destruct Hacc as [(_ & Hgs & _) Hacc].
    destruct pre as [| e1 pre]; simplify_eq/=.
    + rewrite app_nil_r. by apply Hgs.
    + rewrite (IH _ Hacc pre e post l eq_refl Hl).
      unfold template_next, reads. simpl. by rewrite app_assoc.
Qed.
End Templates.

Lemma templates_cell_ok {W : Type} (h : Handler W) w tl :
  outcome h templates_cell w = Ok tl -> templates_run tl (trace h templates_cell w).
Proof.
  unfold templates_cell, call. simpl. intros H.
  apply call_ok in H as ([] & E1 & H & ->).
  apply call_ok in H as ([] & E2 & H & ->).
  apply call_ok in H as (au3cu & E3 & H & ->).
  apply call_ok in H as (aucu & E4 & H & ->).
  apply call_ok in H as (aucu3 & E5 & H & ->).
  apply call_ok in H as ([] & E6 & H & ->).
  injection H as <-.
  exists au3cu, aucu, aucu3. split; [done |].
  unfold made_of, returned. repeat (constructor; [by eexists |]). constructor.
Qed.

Lemma stable_phases_cell_ok {W : Type} (h : Handler W) w :
  outcome h stable_phases_cell w = Ok tt ->
  stable_phases_run (trace h stable_phases_cell w).
Proof.
  unfold stable_phases_cell, call. simpl. intros H.
  apply call_ok in H as ([] & E1 & H & ->).
  apply call_ok in H as ([] & E2 & H & ->).
  apply call_ok in H as (a1 & E3 & H & ->).
  apply call_ok in H as (a2 & E4 & H & ->).
  apply call_ok in H as (a3 & E5 & H & ->).
  apply call_ok in H as ([] & E6 & H & ->).
  exists a1, a2, a3.
  unfold made_of, returned. repeat (constructor; [by eexists |]). constructor.
Qed.

(** C8.  The six geometry files are only read.  In every run of the
    notebook, a call that names one of them is a [read] of it, the files are
    in every world of the run as they were at the start (no call but
    [settings.save] and [save_eci] writes a file other than the database, and
    these are given other names), the list of templates handed to
    [generate_gs_structure] is what the reads of the three trajectory
    templates returned, and the two cells that read the files pass what the
    reads returned on to [view]. *)
Theorem geometry_files_only_read :
  forall (W C : Type) (h : Handler W) (files : W -> gmap string C) (w : W),
    files_contract h files ->
    unchanged files w (final h notebook w) /\
    (forall e, e ∈ trace h notebook w ->
       only_read e /\ unchanged files w (ent_world e)) /\
    (forall pre e post l,
       trace h notebook w = pre ++ e :: post ->
       gs_many (ent_call e) = Some l ->
       l = read_from traj_templates (reads pre)) /\
    (forall w' tl, outcome h templates_cell w' = Ok tl ->
       templates_run tl (trace h templates_cell w')) /\
    (forall w', outcome h stable_phases_cell w' = Ok tt ->
       stable_phases_run (trace h stable_phases_cell w')).
Proof.
  intros W C h files w Hc.
  destruct (wp_sound _ _ _ _ _ _ _ (notebook_tpl h files w Hc)) as [Hacc Hend].
  split; [exact Hend |]. split; [| split; [| split]].
  - by eapply template_accepted_all.
  - intros pre e post l Htr Hl.
    by eapply (template_accepted_gs _ _ _ [] Hacc pre e post).
  - intros w' tl. apply templates_cell_ok.
  - intros w'. apply stable_phases_cell_ok.
Qed.

Lemma geometry_files_only_read_witness :
  files_contract Toy.toolkit Toy.files /\
  unchanged Toy.files Toy.world0 (final Toy.toolkit notebook Toy.world0) /\
  (forall e, e ∈ trace Toy.toolkit notebook Toy.world0 ->
     only_read e /\ unchanged Toy.files Toy.world0 (ent_world e)) /\
  (forall pre e post l,
     trace Toy.toolkit notebook Toy.world0 = pre ++ e :: post ->
     gs_many (ent_call e) = Some l ->
     l = read_from traj_templates (reads pre)) /\
  (forall w' tl, outcome Toy.toolkit templates_cell w' = Ok tl ->
     templates_run tl (trace Toy.toolkit templates_cell w')) /\
  (forall w', outcome Toy.toolkit stable_phases_cell w' = Ok tt ->
     stable_phases_run (trace Toy.toolkit stable_phases_cell w')).
Proof.
  split; [exact toolkit_files_contract |].
  exact (geometry_files_only_read Toy.World Toy.FileData Toy.toolkit Toy.files
           Toy.world0 toolkit_files_contract).
Defined.

(** ** Parameter passing *)

Section Para.
Variable phi : Qc -> Qc.

Lemma para_call {A : Type} (R : A -> A -> Prop) {t : ty} (c c' : Ext t)
    (k k' : El t -> Prog A) :
  c' = relabel_call phi c ->
  (forall x, para phi R (k x) (k' (relabel_el phi t x))) ->
  para phi R (Call c k) (Call c' k').
Proof. intros -> Hk. exists eq_refl. by split. Qed.

Lemma para_bind {A B : Type} (R : A -> A -> Prop) (R' : B -> B -> Prop)
    (p q : Prog A) (f g : A -> Prog B) :
  para phi R p q ->
  (forall a b, R a b -> para phi R' (f a) (g b)) ->
  para phi R' (bind p f) (bind q g).
Proof.
  revert q. induction p as [a | e | t c k IH | t c k IH]; intros q Hp Hf;
    destruct q as [b | e' | t' c' k' | t' c' k']; simpl in *; try done.
  - by apply Hf.
  - destruct Hp as (H & Hc & Hk). exists H. split; [done |].
    intros x. apply IH; [apply Hk | done].
  - destruct Hp as (H & Hc & Hk). exists H. split; [done |].
    intros r. apply IH; [apply Hk | done].
Qed.

Lemma para_for_in {X St : Type} (RX : X -> X -> Prop) (RS : St -> St -> Prop)
    (l l' : list X) (body body' : X -> St -> Prog St) (st st' : St) :
  Forall2 RX l l' -> RS st st' ->
  (forall x x' s s', RX x x' -> RS s s' -> para phi RS (body x s) (body' x' s')) ->
  para phi RS (for_in l body st) (for_in l' body' st').
Proof.
  intros Hl. revert st st'. induction Hl as [| x x' l l' Hx Hl IH];
    intros st st' Hst Hbody.
  - done.
  - rewrite !for_in_cons. eapply para_bind; [by apply Hbody |].
    intros s s' Hs. by apply IH.
Qed.

Lemma relabel_rows (rows : list Row) :
  Forall2 (fun row row' => row' = relabel_row phi row) rows (map (relabel_row phi) rows).
Proof. induction rows; constructor; done. Qed.
End Para.

Ltac para_step :=
  lazymatch goal with
  | |- ex _ => exists eq_refl; simpl; split; [reflexivity | intros ?]
  | |- context [match ?r with Ok _ => _ | Raise _ => _ end] =>
      is_var r; destruct r; simpl
  | |- _ => reflexivity
  end.

Ltac para_cell := intros ?; quiet_norm; repeat para_step.

Lemma concentration_cell_passes : passes_on (discard concentration_cell).
Proof. unfold discard. para_cell. Qed.

Lemma print_constraints_cell_passes conc : passes_on (print_constraints_cell conc).
Proof. para_cell. Qed.

Lemma settings_cell_passes conc : passes_on (discard (settings_cell conc)).
Proof. unfold discard. para_cell. Qed.

Lemma ase_db_cell_passes cmd : passes_on (ase_db_cell cmd).
Proof. para_cell. Qed.

Lemma view_clusters_cell_passes settings : passes_on (view_clusters_cell settings).
Proof. para_cell. Qed.

Lemma initial_pool_cell_passes settings : passes_on (initial_pool_cell settings).
Proof. para_cell. Qed.

Lemma random_structures_cell_passes settings :
  passes_on (random_structures_cell settings).
Proof. para_cell. Qed.

Lemma probe_structures_cell_passes settings :
  passes_on (probe_structures_cell settings).
Proof. para_cell. Qed.

Lemma gs_random_cell_passes settings db : passes_on (gs_random_cell settings db).
Proof. para_cell. Qed.

Lemma templates_cell_passes : passes_on (discard templates_cell).
Proof. unfold discard. para_cell. Qed.

Lemma gs_templates_cell_passes settings template_list :
  passes_on (gs_templates_cell settings template_list).
Proof. para_cell. Qed.

Lemma stable_phases_cell_passes : passes_on stable_phases_cell.
Proof. para_cell. Qed.

Lemma calculation_body_passes phi calc row :
  para phi eq (calculation_body calc row) (calculation_body calc (relabel_row phi row)).
Proof. unfold calculation_body. simpl. repeat para_step. Qed.

Lemma calculation_cell_passes : passes_on (discard calculation_cell).
Proof.
  intros phi. unfold discard, calculation_cell, calculation_loop. simpl.
  do 7 para_step. exists eq_refl. split; [done |]. intros rows. simpl.
  apply (para_bind phi eq eq); [| by intros ? ? _].
  apply (para_bind phi eq eq); [| intros ? ? _; simpl; by repeat para_step].
  apply (para_for_in phi (fun row row' => row' = relabel_row phi row) eq);
    [apply relabel_rows | done |].
  intros row ? [] [] -> _. apply calculation_body_passes.
Qed.

Lemma lookup_map {A B : Type} (f : A -> B) (l : list A) (i : nat) :
  map f l !! i = f <$> l !! i.
Proof. revert i. induction l as [| a l IH]; intros [| i]; simpl; auto. Qed.

Lemma evaluation_cell_passes settings : passes_on (evaluation_cell settings).
Proof.
  intros phi. unfold evaluation_cell. simpl. do 8 para_step.
  unfold getitem. rewrite lookup_map.
  destruct (_ !! _) as [alpha |]; simpl; [| done]. repeat para_step.
Qed.

Lemma matches_relabel phi (q : query) (row : Row) :
  matches q (relabel_row phi row) = matches q row.
Proof. reflexivity. Qed.

Lemma select_rows_relabel phi (q : query) (rows : list Row) :
  select_rows q (map (relabel_row phi) rows)
  = map (relabel_row phi) (select_rows q rows).
Proof.
  unfold select_rows. induction rows as [| row rows IH]; [done |].
  simpl. rewrite !filter_cons, matches_relabel.
  destruct (decide (matches q row = true)); simpl; by rewrite IH.
Qed.

Lemma get_row_relabel phi (q : query) (rows : list Row) :
  get_row q (map (relabel_row phi) rows)
  = relabel_result phi TRow (get_row q rows).
Proof.
  unfold get_row. rewrite select_rows_relabel.
  by destruct (select_rows q rows) as [| row [| row' l]].
Qed.

Lemma db_answers_relabel phi (rows : list Row) (t : ty) (c : Ext t) :
  (db_answers (map (relabel_row phi) rows) t (relabel_call phi c) tt).1
  = relabel_result phi t (db_answers rows t c tt).1.
Proof.
  destruct c; simpl; try reflexivity.
  - by rewrite get_row_relabel.
  - by rewrite select_rows_relabel.
Qed.

Lemma printed_list_relabel phi {t : ty} (c : Ext t) :
  printed_list (relabel_call phi c) = printed_list c.
Proof. by destruct c. Qed.

Lemma printed_cons {W : Type} (e : Entry W) (tr : list (Entry W)) :
  printed (e :: tr)
  = match printed_list (ent_call e) with
    | Some l => l :: printed tr
    | None => printed tr
    end.
Proof. reflexivity. Qed.

Lemma db_answers_world (rows : list Row) (t : ty) (c : Ext t) (w : unit) :
  (db_answers rows t c w).2 = w.
Proof. reflexivity. Qed.

(** A program that passes the numbers on prints the same lists of names
    whatever the numbers the database holds. *)
Lemma para_printed phi {A : Type} (R : A -> A -> Prop) (p q : Prog A)
    (rows : list Row) :
  para phi R p q ->
  printed (trace (db_answers (map (relabel_row phi) rows)) q tt)
  = printed (trace (db_answers rows) p tt).
Proof.
  revert q. induction p as [a | e | t c k IH | t c k IH]; intros q Hp;
    destruct q as [b | e' | t' c' k' | t' c' k']; simpl in Hp; try done.
  - destruct Hp as (H & Hc & Hk). destruct H. simpl in Hc, Hk. subst c'.
    rewrite !trace_call, !printed_cons, !db_answers_world, db_answers_relabel.
    cbn [ent_call]. rewrite printed_list_relabel.
    destruct (db_answers rows t c tt).1 as [x | ex]; simpl relabel_result; cbv iota.
    + by rewrite (IH x _ (Hk x)).
    + done.
  - destruct Hp as (H & Hc & Hk). destruct H. simpl in Hc, Hk. subst c'.
    rewrite !trace_try, !printed_cons, !db_answers_world, db_answers_relabel.
    cbn [ent_call]. rewrite printed_list_relabel.
    by rewrite (IH _ _ (Hk _)).
Qed.

(** C1, as stated, fails: the selection cell computes with the calculation
    results.  In a database with two Au3Cu1 structures [a] and [b] of final
    energies 1 and 2 the cell prints [a] first in its list of names; were
    the cell only to pass the energies on, it would print the same list when
    the database holds the energies with the opposite sign, and it prints
    [b] then: the cell sorts the structures of each formula unit by energy
    per atom and takes the first. *)
Lemma selection_cell_computes : ~ passes_on (minimum_energy_cell (Ref 0)).
Proof.
  intros H. specialize (H Qcopp).
  apply (para_printed Qcopp eq _ _ two_candidates) in H.
  vm_compute in H. discriminate H.
Qed.

(** C1, amended.  Every code cell but the selection cell only passes the
    numbers computed by the libraries on: whatever the numbers (energies,
    cross-validation scores, regularization strengths, fitted coefficients)
    the calls return, the cell makes the same calls in the same order, and a
    number appears in an argument only where a call returned it.  The cells
    compare no two results and do no arithmetic on them; the one index the
    evaluation cell uses is the one [argmin] returned. *)
Theorem cells_pass_results_on :
  forall (conc : ref CConcentration) (settings : ref CSettings)
         (db : ref CDatabase) (template_list : list (ref CAtoms)),
    Forall passes_on (plumbing_cells conc settings db template_list).
Proof.
  intros conc settings db template_list. unfold plumbing_cells.
  repeat (apply Forall_cons; split);
    auto using concentration_cell_passes, print_constraints_cell_passes,
      settings_cell_passes, ase_db_cell_passes, view_clusters_cell_passes,
      initial_pool_cell_passes, random_structures_cell_passes,
      calculation_cell_passes, evaluation_cell_passes,
      probe_structures_cell_passes, gs_random_cell_passes,
      templates_cell_passes, gs_templates_cell_passes, stable_phases_cell_passes.
Qed.

(** ** Further properties of the cells *)

Section SortFirst.
Context {A : Type} (key : A -> Qc).

(** Sorting is stable: the first element of the sorted list is the first
    element of least key in the list. *)
Lemma sort_key_head_first (l : list A) (x : A) (l' : list A) :
  sort_key key l = x :: l' ->
  exists pre post,
    l = pre ++ x :: post /\
    Forall (fun y => (key x < key y)%Qc) pre /\
    Forall (fun y => (key x <= key y)%Qc) post.
Proof.
  revert x l'. induction l as [| a l IH]; intros x l' E; simpl in E; [done |].
  destruct (sort_key key l) as [| q qs] eqn:Hs.
  - apply sort_key_nil in Hs. subst l. simpl in E. simplify_eq.
    exists [], []. by repeat split.
  - destruct (IH q qs eq_refl) as (pre & post & -> & Hpre & Hpost).
    simpl in E. case_bool_decide as Hle; simplify_eq.
    + exists [], (pre ++ q :: post). split; [done |]. split; [constructor |].
      apply Forall_app. split; [| constructor].
      * eapply Forall_impl; [exact Hpre |]. intros y Hy. simpl in Hy.
        apply Qclt_le_weak. by eapply Qcle_lt_trans.
      * done.
      * eapply Forall_impl; [exact Hpost |]. intros y Hy. simpl in Hy.
        by eapply Qcle_trans.
    + exists (a :: pre), post. split; [done |]. split; [| done].
      constructor; [| done]. by apply Qcnot_le_lt.
Qed.
End SortFirst.

(** X1.  Among structures of equal lowest energy the first is selected.  When
    every initial structure of a formula unit has a name and a final
    structure with an energy, and there is at least one, the name the block
    appends to [names] is that of the first structure, in the order the
    database returns them, whose energy per atom is the lowest: every
    structure before it has a strictly higher energy per atom ([list.sort] is
    stable and the block takes element 0). *)
Theorem lowest_energy_first_of_ties :
  forall (W : Type) (h : Handler W) (rows : W -> list Row) (db : ref CDatabase)
         (formula_unit : string) (names : list value) (w : W),
    db_contract h rows ->
    candidates formula_unit (rows w) <> [] ->
    (forall row, row ∈ candidates formula_unit (rows w) -> ready (rows w) row) ->
    exists n,
      outcome h (minimum_energy_block db formula_unit names) w = Ok (names ++ [n]) /\
      first_lowest (rows w) formula_unit n.
Proof.
  intros W h rows db formula names w contract Hne Hready.
  unfold minimum_energy_block.
  rewrite !bind_unfold. simpl.
  rewrite outcome_call.
  rewrite (select_result h rows contract). fold (candidates formula (rows w)).
  set (w1 := (h _ (DbSelect db _) w).2).
  assert (Hw1 : rows w1 = rows w) by by apply select_frame.
  destruct (loop_run h rows contract db (candidates formula (rows w)) [] w1)
    as (ps & Hps & Hout & Hfin & Hpr).
  { intros row Hin. rewrite Hw1. by apply Hready. }
  rewrite Hw1 in Hps. cbn beta iota. rewrite ?bind_unfold.
  rewrite outcome_bind, Hout. simpl.
  destruct (sort_key snd ps) as [| p ps'] eqn:Hsort.
  { apply sort_key_nil in Hsort. subst ps.
    apply Forall2_nil_inv_r in Hps. done. }
  apply sort_key_head_first in Hsort as (pre & post & -> & Hpre & Hpost).
  exists p.1. unfold getitem; simpl. split; [done |].
  apply Forall2_app_inv_r in Hps as (cpre & crest & Hcpre & Hcrest & Hc).
  apply Forall2_cons_inv_r in Hcrest as (row & cpost & [Hn He] & Hcpost & ->).
  exists cpre, row, cpost, p.2. split; [done |]. split; [done |]. split; [done |].
  split.
  - intros row' e' Hin He'.
    apply list_elem_of_lookup in Hin as [j Hj].
    destruct (Forall2_lookup_l _ _ _ _ _ Hcpre Hj) as (q & Hq & _ & He'').
    rewrite He' in He''. injection He'' as ->.
    rewrite Forall_forall in Hpre. apply Hpre. by eapply list_elem_of_lookup_2.
  - intros row' e' Hin He'.
    apply list_elem_of_lookup in Hin as [j Hj].
    destruct (Forall2_lookup_l _ _ _ _ _ Hcpost Hj) as (q & Hq & _ & He'').
    rewrite He' in He''. injection He'' as ->.
    rewrite Forall_forall in Hpost. apply Hpost. by eapply list_elem_of_lookup_2.
Qed.

Lemma row_error_ready (rows : list Row) (row : Row) :
  row_error rows row = None <-> ready rows row.
Proof.
  unfold row_error, ready, energy_per_atom.
  destruct (key_value_pairs row !! "final_struct_id") as [fid |];
    [| split; [done | by intros [[? ?] _]]].
  destruct (get_row [("id", fid)] rows) as [fin |];
    [| split; [done | by intros [[? ?] _]]].
  destruct (row_energy fin), (row_natoms row), (key_value_pairs row !! "name");
    split; try done; try (by intros [[? ?] [? ?]]); by intros _; split; eexists.
Qed.

Section CallsOnly.
Context {W : Type} (h : Handler W).
Variable P : forall t, Ext t -> bool.

Lemma calls_only_bind {A B : Type} (p : Prog A) (f : A -> Prog B) :
  calls_only P p -> (forall a, calls_only P (f a)) -> calls_only P (bind p f).
Proof.
  intros Hp Hf.
  induction p as [a | e | t c k IH | t c k IH]; simpl in *; [done | done | |].
  - destruct Hp as [Hc Hk]. split; [done |]. intros x. by apply IH.
  - destruct Hp as [Hc Hk]. split; [done |]. intros r. by apply IH.
Qed.

Lemma calls_only_for_in {X St : Type} (l : list X) (body : X -> St -> Prog St) (st : St) :
  (forall x s, calls_only P (body x s)) -> calls_only P (for_in l body st).
Proof.
  intros Hbody. revert st. induction l as [| x l IH]; intros st; [done |].
  rewrite for_in_cons. by apply calls_only_bind.
Qed.

Lemma calls_only_trace {A : Type} (p : Prog A) (w : W) (e : Entry W) :
  calls_only P p -> e ∈ trace h p w -> P _ (ent_call e) = true.
Proof.
  revert w. induction p as [a | ex | t c k IH | t c k IH]; intros w Hp Hin.
  - by apply elem_of_nil in Hin.
  - by apply elem_of_nil in Hin.
  - destruct Hp as [Hc Hk]. rewrite trace_call in Hin.
    apply elem_of_cons in Hin as [-> | Hin]; [done |].
    destruct (h t c w).1 as [x | ex]; [by eapply IH | by apply elem_of_nil in Hin].
  - destruct Hp as [Hc Hk]. rewrite trace_try in Hin.
    apply elem_of_cons in Hin as [-> | Hin]; [done | by eapply IH].
Qed.
End CallsOnly.

Section ReadOnly.
Context {W : Type} (h : Handler W) (rows : W -> list Row).
Hypothesis contract : db_contract h rows.

Lemma reads_db_frame {A : Type} (p : Prog A) (w : W) :
  calls_only reads_db p ->
  rows (final h p w) = rows w /\
  forall e, e ∈ trace h p w -> rows (ent_world e) = rows w.
Proof.
  revert w. induction p as [a | ex | t c k IH | t c k IH]; intros w Hp.
  - split; [done |]. intros e Hin. by apply elem_of_nil in Hin.
  - split; [done |]. intros e Hin. by apply elem_of_nil in Hin.
  - destruct Hp as [Hc Hk]. rewrite final_call, trace_call.
    assert (Hw : rows (h t c w).2 = rows w).
    { apply (db_frame h rows contract). unfold reads_db in Hc.
      by destruct (writes_db c). }
    destruct (h t c w).1 as [x | ex].
    + destruct (IH x (h t c w).2 (Hk x)) as [Hfin Htr]. split; [congruence |].
      intros e Hin. apply elem_of_cons in Hin as [-> | Hin]; [done |].
      rewrite <- Hw. by apply Htr.
    + split; [done |]. intros e Hin.
      apply elem_of_cons in Hin as [-> | Hin]; [done | by apply elem_of_nil in Hin].
  - destruct Hp as [Hc Hk]. rewrite final_try, trace_try.
    assert (Hw : rows (h t c w).2 = rows w).
    { apply (db_frame h rows contract). unfold reads_db in Hc.
      by destruct (writes_db c). }
    destruct (IH _ (h t c w).2 (Hk (h t c w).1)) as [Hfin Htr].
    split; [congruence |].
    intros e Hin. apply elem_of_cons in Hin as [-> | Hin]; [done |].
    rewrite <- Hw. by apply Htr.
Qed.
End ReadOnly.

Lemma selection_reads (t : ty) (c : Ext t) : selection_call t c = true -> reads_db t c = true.
Proof. by destruct c. Qed.

Lemma calls_only_weaken (P Q : forall t, Ext t -> bool) {A : Type} (p : Prog A) :
  (forall t c, P t c = true -> Q t c = true) -> calls_only P p -> calls_only Q p.
Proof.
  intros HPQ.
  induction p as [a | ex | t c k IH | t c k IH]; simpl; [done | done | |].
  - intros [Hc Hk]. split; [by apply HPQ |]. intros x. by apply IH.
  - intros [Hc Hk]. split; [by apply HPQ |]. intros r. by apply IH.
Qed.

Lemma getattr_calls P row key {B : Type} (f : value -> Prog B) :
  (forall v, calls_only P (f v)) -> calls_only P (bind (getattr row key) f).
Proof. intros Hf. unfold getattr. destruct (_ !! _); simpl; [apply Hf | done]. Qed.

Lemma query_selection (t : ty) (c : Ext t) : query_call t c = true -> selection_call t c = true.
Proof. by destruct c. Qed.

Lemma energy_per_atom_body_calls db row l :
  calls_only query_call (energy_per_atom_body db row l).
Proof.
  unfold energy_per_atom_body. rewrite !bind_unfold.
  apply getattr_calls. intros fid. simpl. split; [done |]. intros fin.
  unfold energy_of. destruct (row_energy fin); [| done]. simpl.
  unfold truediv. destruct (row_natoms row); [done |]. simpl.
  by apply getattr_calls.
Qed.

Lemma minimum_energy_block_calls db F names :
  calls_only query_call (minimum_energy_block db F names).
Proof.
  unfold minimum_energy_block. simpl. split; [done |]. intros rows.
  rewrite !bind_unfold. apply calls_only_bind.
  - apply calls_only_for_in. intros; apply energy_per_atom_body_calls.
  - intros l. unfold getitem. by destruct (_ !! _).
Qed.

Lemma minimum_energy_names_calls db :
  calls_only query_call (minimum_energy_names db).
Proof.
  unfold minimum_energy_names. cbv zeta. rewrite !bind_unfold.
  repeat (apply calls_only_bind; [apply minimum_energy_block_calls | intros ?]).
  done.
Qed.

Lemma minimum_energy_cell_calls db :
  calls_only selection_call (minimum_energy_cell db).
Proof.
  unfold minimum_energy_cell. rewrite !bind_unfold.
  apply calls_only_bind.
  { eapply calls_only_weaken; [apply query_selection |].
    apply minimum_energy_names_calls. }
  intros names.
  simpl. split; [done |]. intros _. rewrite !bind_unfold.
  apply calls_only_bind; [| by intros images].
  apply calls_only_for_in. intros name images. unfold view_image_body. by simpl.
Qed.

(** X2.  The selection cell only reads.  Whatever its outcome, it makes
    [select], [get], [toatoms], [print] and [view] calls only, and the rows
    of the database are in every state of its run what they were before. *)
Theorem selection_cell_reads_only :
  forall (W : Type) (h : Handler W) (rows : W -> list Row)
         (db : ref CDatabase) (w : W),
    db_contract h rows ->
    (forall e, e ∈ trace h (minimum_energy_cell db) w ->
       selection_call _ (ent_call e) = true /\ rows (ent_world e) = rows w) /\
    rows (final h (minimum_energy_cell db) w) = rows w.
Proof.
  intros W h rows db w Hc.
  pose proof (minimum_energy_cell_calls db) as Hsel.
  destruct (reads_db_frame h rows Hc (minimum_energy_cell db) w) as [Hfin Htr].
  { eapply calls_only_weaken; [apply selection_reads | exact Hsel]. }
  split; [| done]. intros e Hin. split; [| by apply Htr].
  by eapply calls_only_trace.
Qed.

(** X3.  The selection cell shows all three names or nothing.  When the
    selection of one of the three names fails, the cell ends with the
    exception of the selection, and all it has done is to query the
    database: it has printed no shorter list of names and viewed no
    structure. *)
Theorem selection_shows_all_or_nothing :
  forall (W : Type) (h : Handler W) (db : ref CDatabase) (w : W) (ex : exn),
    outcome h (minimum_energy_names db) w = Raise ex ->
    outcome h (minimum_energy_cell db) w = Raise ex /\
    forall e, e ∈ trace h (minimum_energy_cell db) w ->
      query_call _ (ent_call e) = true.
Proof.
  intros W h db w ex Hout. unfold minimum_energy_cell.
  rewrite !bind_unfold, outcome_bind, trace_bind, Hout, app_nil_r.
  split; [done |]. intros e Hin.
  eapply calls_only_trace; [apply minimum_energy_names_calls | exact Hin].
Qed.

Section SelectionFailure.
Context {W : Type} (h : Handler W) (rows : W -> list Row).
Hypothesis contract : db_contract h rows.
Variable db : ref CDatabase.

Lemma body_fail (row : Row) (l : list (value * Qc)) (w : W) (e : exn) :
  row_error (rows w) row = Some e ->
  outcome h (energy_per_atom_body db row l) w = Raise e.
Proof.
  unfold row_error, energy_per_atom_body, getattr. intros He.
  destruct (key_value_pairs row !! "final_struct_id") as [fid |] eqn:Hfid;
    [| by simplify_eq].
  simpl. rewrite outcome_call. rewrite (get_result h rows contract).
  destruct (get_row [("id", fid)] (rows w)) as [fin |]; [| by simplify_eq].
  unfold energy_of, truediv.
  destruct (row_energy fin); [| by simplify_eq]. simpl.
  destruct (row_natoms row); [by simplify_eq |]. simpl.
  destruct (key_value_pairs row !! "name"); by simplify_eq.
Qed.

Lemma body_trace_length (row : Row) (l : list (value * Qc)) (w : W) :
  length (trace h (energy_per_atom_body db row l) w) <= 1.
Proof.
  unfold energy_per_atom_body, getattr.
  destruct (key_value_pairs row !! "final_struct_id") as [fid |]; simpl;
    [| unfold trace; simpl; lia].
  rewrite trace_call. destruct (h TRow _ w).1 as [fin |]; simpl; [| lia].
  unfold energy_of, truediv.
  destruct (row_energy fin); simpl; [| unfold trace; simpl; lia].
  destruct (row_natoms row); simpl; [unfold trace; simpl; lia |].
  destruct (key_value_pairs row !! "name"); unfold trace; simpl; lia.
Qed.

Lemma loop_fail (pre : list Row) (row : Row) (post : list Row)
    (l : list (value * Qc)) (w : W) (e : exn) :
  (forall r, r ∈ pre -> ready (rows w) r) ->
  row_error (rows w) row = Some e ->
  outcome h (for_in (pre ++ row :: post) (energy_per_atom_body db) l) w = Raise e /\
  length (trace h (for_in (pre ++ row :: post) (energy_per_atom_body db) l) w)
    <= S (length pre).
Proof.
  revert l w. induction pre as [| r pre IH]; intros l w Hpre He.
  - simpl. rewrite outcome_bind, trace_bind, (body_fail row l w e He).
    split; [done |]. rewrite app_nil_r. apply body_trace_length.
  - destruct (body_run h rows contract db r l w) as (n & x & Hn & Hx & Hout & Hfin & _).
    { apply Hpre. left. }
    simpl. rewrite outcome_bind, trace_bind, Hout.
    destruct (IH (l ++ [(n, x)]) (final h (energy_per_atom_body db r l) w))
      as [Hout' Hlen].
    { intros r' Hin. rewrite Hfin. apply Hpre. by right. }
    { by rewrite Hfin. }
    split; [done |]. rewrite length_app.
    pose proof (body_trace_length r l w). lia.
Qed.

End SelectionFailure.

(** X5.  The selection of a formula unit fails at the first structure that is
    not ready.  When the initial structures before [row] in the order of the
    database have a name and a final structure with an energy, and the loop
    body fails on [row] with the exception [e] (no [final_struct_id], no or
    several rows of that id, no energy, no atoms, no name), the block ends
    with [e]: the structures after [row] are not looked up (the block makes
    at most one [get] call for [row] and for each structure before it, after
    the one [select] call), and no name is appended. *)
Theorem selection_first_failure :
  forall (W : Type) (h : Handler W) (rows : W -> list Row) (db : ref CDatabase)
         (formula_unit : string) (names : list value) (w : W)
         (pre : list Row) (row : Row) (post : list Row) (e : exn),
    db_contract h rows ->
    candidates formula_unit (rows w) = pre ++ row :: post ->
    (forall r, r ∈ pre -> ready (rows w) r) ->
    row_error (rows w) row = Some e ->
    outcome h (minimum_energy_block db formula_unit names) w = Raise e /\
    length (trace h (minimum_energy_block db formula_unit names) w)
      <= S (S (length pre)).
Proof.
  intros W h rows db formula names w pre row post e contract Hsplit Hpre He.
  unfold minimum_energy_block.
  rewrite !bind_unfold. simpl.
  rewrite outcome_call, trace_call.
  rewrite (select_result h rows contract). fold (candidates formula (rows w)).
  set (w1 := (h _ (DbSelect db _) w).2).
  assert (Hw1 : rows w1 = rows w) by by apply select_frame.
  rewrite Hsplit.
  destruct (loop_fail h rows contract db pre row post [] w1 e) as [Hout Hlen].
  { intros r Hin. rewrite Hw1. by apply Hpre. }
  { by rewrite Hw1. }
  cbn beta iota. rewrite ?bind_unfold.
  rewrite outcome_bind, trace_bind, Hout. split; [done |].
  simpl. rewrite app_nil_r. lia.
Qed.

Section ViewLoop.
Context {W : Type} (h : Handler W) (rows : W -> list Row).
Hypothesis contract : db_contract h rows.
Variable db : ref CDatabase.

Lemma view_loop_ok (names : list value) (images images' : list (ref CAtoms)) (w : W) :
  outcome h (for_in names (view_image_body db) images) w = Ok images' ->
  exists picked,
    images' = images ++ map snd picked /\
    Forall2 (fun name p => named (rows w) name = Ok p.1) names picked /\
    made_of (lookups db names picked)
            (trace h (for_in names (view_image_body db) images) w).
Proof.
  revert images w. induction names as [| name names IH]; intros images w Hout.
  - exists []. change (Ok images = Ok images') in Hout. simplify_eq.
    rewrite app_nil_r. repeat split; constructor.
  - rewrite for_in_cons in Hout |- *. unfold view_image_body at 1 in Hout.
    unfold view_image_body at 1. rewrite !bind_unfold in *. simpl in Hout |- *.
    apply call_ok in Hout as (row & Hrow & Hout & ->).
    set (w1 := (h _ (DbGet db _) w).2) in *.
    assert (Hw1 : rows w1 = rows w) by by apply get_frame.
    apply call_ok in Hout as (atoms & Hatoms & Hout & ->).
    set (w2 := (h _ (ToAtoms row) w1).2) in *.
    assert (Hw2 : rows w2 = rows w).
    { transitivity (rows w1); [| done].
      by apply (db_frame h rows contract _ (ToAtoms row) w1). }
    simpl in Hout |- *.
    destruct (IH _ _ Hout) as (picked & -> & Hpicked & Htr).
    exists ((row, atoms) :: picked). rewrite Hw2 in Hpicked.
    split; [by rewrite <- app_assoc |]. split.
    + constructor; [| done]. unfold named.
      by rewrite <- (get_result h rows contract db).
    + unfold lookups; simpl. constructor; [by eexists |].
      constructor; [by eexists |]. exact Htr.
Qed.
End ViewLoop.

(** X6.  What a complete run of the selection cell shows.  After the names
    are selected, the cell prints the list of names, looks each name up
    among the initial structures, in the order of the list, where it has to
    be the name of exactly one, and views the structures of these rows
    together, in the same order. *)
Theorem selection_cell_views_selected :
  forall (W : Type) (h : Handler W) (rows : W -> list Row)
         (db : ref CDatabase) (w : W),
    db_contract h rows ->
    outcome h (minimum_energy_cell db) w = Ok tt ->
    exists names picked tr,
      outcome h (minimum_energy_names db) w = Ok names /\
      trace h (minimum_energy_cell db) w
        = trace h (minimum_energy_names db) w ++ tr /\
      selection_view_run db names picked tr /\
      Forall2 (fun name p => named (rows w) name = Ok p.1) names picked.
Proof.
  intros W h rows db w Hc Hout. unfold minimum_energy_cell in *.
  rewrite !bind_unfold in *. rewrite outcome_bind in Hout. rewrite trace_bind.
  destruct (outcome h (minimum_energy_names db) w) as [names |] eqn:Hnames;
    [| done].
  set (w1 := final h (minimum_energy_names db) w) in *.
  assert (Hw1 : rows w1 = rows w).
  { apply (reads_db_frame h rows Hc).
    eapply calls_only_weaken; [| apply minimum_energy_names_calls].
    intros t c Hq. by apply selection_reads, query_selection. }
  simpl in Hout |- *.
  apply call_ok in Hout as ([] & Hprint & Hout & ->).
  set (w2 := (h _ (Print (PList names)) w1).2) in *.
  assert (Hw2 : rows w2 = rows w).
  { transitivity (rows w1); [| done].
    by apply (db_frame h rows Hc _ (Print (PList names)) w1). }
  rewrite !bind_unfold in *. rewrite outcome_bind in Hout. rewrite trace_bind.
  destruct (outcome h (for_in names (view_image_body db) []) w2)
    as [images |] eqn:Hloop; [| done].
  destruct (view_loop_ok h rows Hc db names [] images w2 Hloop)
    as (picked & -> & Hpicked & Htr).
  rewrite Hw2 in Hpicked. simpl in Hout |- *.
  unfold call in Hout |- *. cbn [El] in Hout |- *.
  apply call_ok in Hout as ([] & Hview & _ & ->).
  exists names, picked. eexists. split; [done |]. split; [done |]. split; [| done].
  unfold selection_view_run, made_of. simpl.
  constructor; [by eexists |]. apply Forall2_app; [exact Htr |].
  constructor; [by eexists | constructor].
Qed.

Lemma accepted_history {W : Type} (ok : list (Entry W) -> Entry W -> Prop)
    (s pre : list (Entry W)) (e : Entry W) (post : list (Entry W)) :
  accepted ok history s (pre ++ e :: post) -> ok (s ++ pre) e.
Proof.
  revert s. induction pre as [| e0 pre IH]; intros s; simpl.
  - rewrite app_nil_r. by intros [? _].
  - intros [_ H]. apply IH in H. unfold history in H.
    by rewrite <- app_assoc in H.
Qed.

Section Relaxed.
Context {W : Type} (h : Handler W).

Lemma wp_other {A : Type} {t : ty} (c : Ext t) (k : El t -> Prog A) Q s w :
  update_of c = None ->
  (forall x w', (h _ c w) = (Ok x, w') ->
     wp relax_ok history h (k x) Q (s ++ [mkEntry c (Ok x) w']) w') ->
  (forall ex s' w', Q (Raise ex) s' w') ->
  wp relax_ok history h (Call c k) Q s w.
Proof.
  intros Hc Hk Hex. apply wp_call_intro. intros r w' E. split.
  - unfold relax_ok. simpl. by rewrite Hc.
  - destruct r as [x | ex]; [by apply Hk | apply Hex].
Qed.

Lemma calculation_body_relaxed calc row s w :
  wp relax_ok history h (calculation_body calc row) (fun _ _ _ => True) s w.
Proof.
  unfold calculation_body, call. simpl.
  apply wp_other; [done | | done]. intros [] w1 E1.
  apply wp_other; [done | | done]. intros atoms w2 E2.
  apply wp_other; [done | | done]. intros [] w3 E3.
  apply wp_other; [done | | done]. intros ucf w4 E4.
  apply wp_other; [done | | done]. intros opt w5 E5.
  apply wp_other; [done | | done]. intros [] w6 E6.
  apply wp_call_intro. intros r w7 E7. split.
  - unfold relax_ok. simpl. exists s. eexists. exists calc, row, ucf, opt.
    split; [done |]. split; [by rewrite <- !app_assoc |].
    unfold made_of. repeat (constructor; [by eexists |]). constructor.
  - by destruct r.
Qed.

Lemma calculation_cell_relaxed w :
  wp relax_ok history h calculation_cell (fun _ _ _ => True) [] w.
Proof.
  unfold calculation_cell, calculation_loop, call. simpl.
  do 8 (apply wp_other; [done | | done]; intros ? ? ?).
  unfold Prog_bind. apply wp_bind.
  apply (wp_for_in _ _ _ (fun _ _ _ _ => True)); [done | |].
  - intros row l [] s w1 _.
    eapply wp_mono; [| apply calculation_body_relaxed]. by intros [].
  - intros [] s w1 _. apply wp_other; [done | | done]. intros [] w2 _.
    by apply wp_ret_intro.
Qed.
End Relaxed.

(** X7.  No structure is written back unrelaxed.  In every run of the
    calculation cell, complete or not, a call of [update_db] comes right
    after [opt.run(fmax=0.02)] returned, for the [BFGS] optimizer of the
    [UnitCellFilter] of the structure handed to [update_db], which is the
    structure of the row whose id is handed to it, with the calculator
    attached. *)
Theorem update_follows_relaxation :
  forall (W : Type) (h : Handler W) (w : W)
         (pre : list (Entry W)) (e : Entry W) (post : list (Entry W))
         (uid : nat) (atoms : ref CAtoms),
    trace h calculation_cell w = pre ++ e :: post ->
    update_of (ent_call e) = Some (uid, atoms) ->
    relaxed_before uid atoms pre.
Proof.
  intros W h w pre e post uid atoms Htr He.
  destruct (wp_sound _ _ _ _ _ _ _ (calculation_cell_relaxed h w)) as [Hacc _].
  rewrite Htr in Hacc. apply accepted_history in Hacc.
  unfold relax_ok in Hacc. by rewrite He in Hacc.
Qed.

Lemma accepted_untouched {W : Type} (rows : W -> list Row) (R : list Row)
    (tr : list (Entry W)) :
  accepted (untouched rows R) no_state tt tr ->
  forall e, e ∈ tr -> writes_db (ent_call e) = false /\ rows (ent_world e) = R.
Proof.
  induction tr as [| e0 tr IH]; simpl; intros Hacc e Hin.
  - by apply elem_of_nil in Hin.
  - destruct Hacc as [H0 Hacc]. apply elem_of_cons in Hin as [-> | Hin]; auto.
Qed.

Section Untouched.
Context {W : Type} (h : Handler W) (rows : W -> list Row).
Hypothesis contract : db_contract h rows.
Variable R : list Row.

Lemma wp_untouched {A : Type} {t : ty} (c : Ext t) (k : El t -> Prog A) Q w :
  writes_db c = false -> rows w = R ->
  (forall x, (h _ c w).1 = Ok x -> rows (h _ c w).2 = R ->
     wp (untouched rows R) no_state h (k x) Q tt (h _ c w).2) ->
  (forall ex, (h _ c w).1 = Raise ex -> rows (h _ c w).2 = R ->
     Q (Raise ex) tt (h _ c w).2) ->
  wp (untouched rows R) no_state h (Call c k) Q tt w.
Proof.
  intros Hc Hw Hk Hex. apply wp_call_intro. intros r w' E.
  assert (Hw' : rows (h _ c w).2 = R).
  { rewrite <- Hw. by apply (db_frame h rows contract). }
  rewrite E in Hk, Hex, Hw'. simpl in *. split; [done |].
  destruct r as [x | ex]; [by apply Hk | by apply Hex].
Qed.

Lemma calculation_cell_idle w :
  rows w = R -> pending R = [] ->
  wp (untouched rows R) no_state h calculation_cell
     (fun _ _ w' => rows w' = R) tt w.
Proof.
  intros Hw Hnil. unfold calculation_cell, calculation_loop, call. simpl.
  do 7 (apply wp_untouched; [done | done | intros ? _ ? | by intros ? _ ?]).
  apply wp_untouched; [done | done | | by intros ? _ ?].
  intros selected Hsel Hw8.
  rewrite (select_result h rows contract) in Hsel.
  match type of Hsel with context [rows ?w0] =>
    replace (rows w0) with R in Hsel by done end.
  fold (pending R) in Hsel. rewrite Hnil in Hsel. injection Hsel as <-. simpl.
  apply wp_untouched; [done | done | | by intros ? _ ?].
  intros [] _ Hw9. by apply wp_ret_intro.
Qed.

Lemma random_structures_cell_stops settings w e :
  rows w = R -> get_row primitive_cell_query R = Raise e ->
  wp (untouched rows R) no_state h (random_structures_cell settings)
     (fun r _ w' => r <> Ok tt /\ rows w' = R) tt w.
Proof.
  intros Hw He. unfold random_structures_cell, call. simpl.
  do 3 (apply wp_untouched; [done | done | intros ? _ ? | by intros ? _ ?]).
  apply wp_untouched; [done | done | | by intros ? _ ?].
  intros row Hrow _. rewrite (get_result h rows contract) in Hrow.
  match type of Hrow with context [rows ?w0] =>
    replace (rows w0) with R in Hrow by done end.
  unfold primitive_cell_query in He. congruence.
Qed.

Lemma gs_random_cell_stops settings db w e :
  rows w = R -> get_row primitive_cell_query R = Raise e ->
  wp (untouched rows R) no_state h (gs_random_cell settings db)
     (fun r _ w' => r <> Ok tt /\ rows w' = R) tt w.
Proof.
  intros Hw He. unfold gs_random_cell, call. simpl.
  apply wp_untouched; [done | done | intros ? _ ? | by intros ? _ ?].
  apply wp_untouched; [done | done | | by intros ? _ ?].
  intros row Hrow _. rewrite (get_result h rows contract) in Hrow.
  match type of Hrow with context [rows ?w0] =>
    replace (rows w0) with R in Hrow by done end.
  unfold primitive_cell_query in He. congruence.
Qed.
End Untouched.

(** X8.  With no structure to calculate, the calculation cell changes
    nothing.  When no row of the database has [converged=False], the cell
    builds, relaxes and writes back no structure: none of its calls writes
    the database, and the rows are after every call, and at the end, what
    they were before. *)
Theorem calculation_without_pending :
  forall (W : Type) (h : Handler W) (rows : W -> list Row) (w : W),
    db_contract h rows ->
    pending (rows w) = [] ->
    (forall e, e ∈ trace h calculation_cell w ->
       writes_db (ent_call e) = false /\ update_of (ent_call e) = None /\
       rows (ent_world e) = rows w) /\
    rows (final h calculation_cell w) = rows w.
Proof.
  intros W h rows w Hc Hnil.
  destruct (wp_sound _ _ _ _ _ _ _
              (calculation_cell_idle h rows Hc (rows w) w eq_refl Hnil))
    as [Hacc Hfin].
  split; [| done]. intros e Hin.
  destruct (accepted_untouched _ _ _ Hacc e Hin) as [Hwr Hrows].
  split; [done |]. split; [| done].
  by destruct (ent_call e).
Qed.

(** X9.  Without its primitive cell in the database, no structure is
    generated.  When the database has no row named [primitive_cell], or
    several, the cell that generates random structures and the cell that
    searches the ground state from a random composition do not complete, and
    they stop before any call that writes the database: the rows are after
    every call, and at the end, what they were before. *)
Theorem primitive_cell_needed :
  forall (W : Type) (h : Handler W) (rows : W -> list Row)
         (settings : ref CSettings) (db : ref CDatabase) (w : W) (ex : exn)
         (cell : Prog unit),
    db_contract h rows ->
    get_row primitive_cell_query (rows w) = Raise ex ->
    cell = random_structures_cell settings \/ cell = gs_random_cell settings db ->
    outcome h cell w <> Ok tt /\
    (forall e, e ∈ trace h cell w ->
       writes_db (ent_call e) = false /\ rows (ent_world e) = rows w) /\
    rows (final h cell w) = rows w.
Proof.
  intros W h rows settings db w ex cell Hc He Hcell.
  assert (Hwp : wp (untouched rows (rows w)) no_state h cell
                   (fun r _ w' => r <> Ok tt /\ rows w' = rows w) tt w).
  { destruct Hcell as [-> | ->].
    - by eapply random_structures_cell_stops.
    - by eapply gs_random_cell_stops. }
  destruct (wp_sound _ _ _ _ _ _ _ Hwp) as [Hacc [Hout Hfin]].
  split; [done |]. split; [| done].
  by apply accepted_untouched.
Qed.

(** X10.  The random structures are generated on the primitive cell of the
    database.  In a complete run of the cell, the database had exactly one
    row named [primitive_cell] before the cell, and the template handed to
    [generate_random_structures] is the 3x3x3 repetition of the structure of
    this row. *)
Theorem random_structures_on_primitive_cell :
  forall (W : Type) (h : Handler W) (rows : W -> list Row)
         (settings : ref CSettings) (w : W),
    db_contract h rows ->
    outcome h (random_structures_cell settings) w = Ok tt ->
    exists row,
      get_row primitive_cell_query (rows w) = Ok row /\
      random_structures_run settings row (trace h (random_structures_cell settings) w).
Proof.
  intros W h rows settings w Hc. unfold random_structures_cell, call. simpl.
  intros H.
  apply call_ok in H as ([] & E1 & H & ->).
  apply call_ok in H as ([] & E2 & H & ->).
  apply call_ok in H as (db & E3 & H & ->).
  apply call_ok in H as (row & E4 & H & ->).
  apply call_ok in H as (atoms & E5 & H & ->).
  apply call_ok in H as (template & E6 & H & ->).
  apply call_ok in H as (ns & E7 & H & ->).
  apply call_ok in H as ([] & E8 & H & ->).
  exists row. split.
  - rewrite (get_result h rows Hc) in E4. etrans; [| exact E4].
    rewrite !(db_frame h rows Hc); done.
  - exists db, atoms, template, ns.
    unfold made_of, returned. repeat (constructor; [by eexists |]). constructor.
Qed.

(** X11.  The ground state of a random composition is searched on the
    primitive cell of the database.  In a complete run of the cell, the
    database had exactly one row named [primitive_cell] before the cell, the
    template handed to [generate_gs_structure] is the 6x6x6 repetition of
    the structure of this row, and the coefficients handed to it are what
    [json.load] returned for the file of the fitted coefficients, which is
    closed before the search. *)
Theorem gs_random_on_primitive_cell :
  forall (W : Type) (h : Handler W) (rows : W -> list Row)
         (settings : ref CSettings) (db : ref CDatabase) (w : W),
    db_contract h rows ->
    outcome h (gs_random_cell settings db) w = Ok tt ->
    exists row eci,
      get_row primitive_cell_query (rows w) = Ok row /\
      gs_random_run settings db row eci (trace h (gs_random_cell settings db) w).
Proof.
  intros W h rows settings db w Hc. unfold gs_random_cell, load_eci, call. simpl.
  intros H.
  apply call_ok in H as ([] & E1 & H & ->).
  apply call_ok in H as (row & E2 & H & ->).
  apply call_ok in H as (atoms & E3 & H & ->).
  apply call_ok in H as (template & E4 & H & ->).
  apply call_ok in H as (f & E5 & H & ->).
  rewrite outcome_try in H. rewrite trace_try.
  destruct (h _ (JsonLoad f) _).1 as [eci | ex] eqn:E6; simpl in H |- *.
  2:{ rewrite outcome_call in H. by destruct (h _ (Close f) _).1. }
  apply call_ok in H as ([] & E7 & H & ->).
  apply call_ok in H as (ns & E8 & H & ->).
  apply call_ok in H as ([] & E9 & H & ->).
  apply call_ok in H as ([] & E10 & H & ->).
  exists row, eci. split.
  - rewrite (get_result h rows Hc) in E2. etrans; [| exact E2].
    rewrite !(db_frame h rows Hc); done.
  - exists atoms, template, f, ns.
    unfold made_of, returned. repeat (constructor; [by eexists |]). constructor.
Qed.

Section Vars.
Context {W : Type} (h : Handler W).

Local Abbreviation vmon := (wp (var_ok (W:=W)) var_next h).
Local Abbreviation vstill s0 := (quiet (var_ok (W:=W)) var_next (var_inv s0) h).

Lemma var_calm {t : ty} (c : Ext t) s0 :
  uses s0 c -> (forall r, bound c r s0 = s0) ->
  calm var_ok var_next (var_inv s0) h c.
Proof.
  intros Hc Hb s w r w' -> E. split; [exact Hc |]. split; [apply Hb | done].
Qed.

Ltac vcalm := apply var_calm; [by simpl | by intros []].

Lemma wp_var {A : Type} {t : ty} (c : Ext t) (k : El t -> Prog A) Q s :
  uses s c ->
  (forall x w', vmon (k x) Q (bound c (Ok x) s) w') ->
  (forall ex w', Q (Raise ex) (bound c (Raise ex) s) w') ->
  forall w, vmon (Call c k) Q s w.
Proof.
  intros Hc Hk Hex w. apply wp_call_intro. intros r w' E. split; [done |].
  unfold var_next; simpl. destruct r as [x | ex]; [apply Hk | apply Hex].
Qed.

Lemma print_constraints_cell_vars conc s0 :
  v_conc s0 = Some conc -> vstill s0 (print_constraints_cell conc).
Proof. intros H. quiet_with vcalm. Qed.

Lemma ase_db_cell_vars cmd s0 : vstill s0 (ase_db_cell cmd).
Proof. quiet_with vcalm. Qed.

Lemma view_clusters_cell_vars settings s0 :
  v_settings s0 = Some settings -> vstill s0 (view_clusters_cell settings).
Proof. intros H. quiet_with vcalm. Qed.

Lemma initial_pool_cell_vars settings s0 :
  v_settings s0 = Some settings -> vstill s0 (initial_pool_cell settings).
Proof. intros H. quiet_with vcalm. Qed.

Lemma evaluation_cell_vars settings s0 :
  v_settings s0 = Some settings -> vstill s0 (evaluation_cell settings).
Proof. intros H. quiet_with vcalm. Qed.

Lemma probe_structures_cell_vars settings s0 :
  v_settings s0 = Some settings -> vstill s0 (probe_structures_cell settings).
Proof. intros H. quiet_with vcalm. Qed.

Lemma gs_random_cell_vars settings db s0 :
  v_settings s0 = Some settings -> v_db s0 = Some db ->
  vstill s0 (gs_random_cell settings db).
Proof. intros H H'. quiet_with vcalm. Qed.

Lemma templates_cell_vars s0 : vstill s0 templates_cell.
Proof. quiet_with vcalm. Qed.

Lemma gs_templates_cell_vars settings template_list s0 :
  v_settings s0 = Some settings ->
  vstill s0 (gs_templates_cell settings template_list).
Proof. intros H. quiet_with vcalm. Qed.

Lemma stable_phases_cell_vars s0 : vstill s0 stable_phases_cell.
Proof. quiet_with vcalm. Qed.

Lemma minimum_energy_cell_vars db s0 :
  v_db s0 = Some db -> vstill s0 (minimum_energy_cell db).
Proof. intros H. quiet_with vcalm. Qed.

Lemma calculation_body_vars calc row s0 : vstill s0 (calculation_body calc row).
Proof. quiet_with vcalm. Qed.

Ltac var_step := apply wp_var; [by simpl | intros ? ?; simpl | by intros ? ?].

Lemma concentration_cell_vars s w :
  vmon concentration_cell
       (fun r s' _ => forall conc, r = Ok conc ->
          s' = mkVars (Some conc) (v_settings s) (v_db s)) s w.
Proof.
  revert w. unfold concentration_cell, call. simpl.
  do 3 var_step. try apply wp_ret_intro. by intros ? [= <-].
Qed.

Lemma settings_cell_vars conc s w :
  v_conc s = Some conc ->
  vmon (settings_cell conc)
       (fun r s' _ => forall settings, r = Ok settings ->
          s' = mkVars (Some conc) (Some settings) (v_db s)) s w.
Proof.
  intros H. revert w. unfold settings_cell, call. simpl.
  do 4 var_step. try apply wp_ret_intro. intros ? [= <-]. by rewrite H.
Qed.

Lemma random_structures_cell_vars settings s w :
  v_settings s = Some settings ->
  vmon (random_structures_cell settings)
       (fun r s' _ => v_conc s' = v_conc s /\ v_settings s' = v_settings s) s w.
Proof.
  intros H. revert w. unfold random_structures_cell, call. simpl.
  do 8 var_step. try apply wp_ret_intro. done.
Qed.

Lemma calculation_cell_vars s w :
  vmon calculation_cell
       (fun r s' _ => forall db, r = Ok db ->
          s' = mkVars (v_conc s) (v_settings s) (Some db)) s w.
Proof.
  revert w. unfold calculation_cell, calculation_loop, call. simpl.
  do 8 var_step. unfold Prog_bind.
  eapply (wp_quiet _ _ (var_inv (mkVars (v_conc s) (v_settings s) (Some x5))));
    [| done | | done].
  - apply quiet_for_in. intros row []. apply calculation_body_vars.
  - intros [] w1 _. var_step. try apply wp_ret_intro. by intros ? [= <-].
Qed.

Ltac var_quiet lem :=
  match goal with
  | |- wp _ _ _ _ _ ?s _ =>
      eapply (wp_quiet _ _ (var_inv s));
      [ apply lem; try done | done | intros ? ? _ | done ]
  end.

Lemma notebook_vars w : vmon notebook (fun _ _ _ => True) no_vars w.
Proof.
  unfold notebook. rewrite !bind_unfold.
  apply wp_bind. eapply wp_mono; [| apply concentration_cell_vars].
  intros [conc | ex] s1 w1 Hs1; [| done]. rewrite (Hs1 conc eq_refl).
  var_quiet print_constraints_cell_vars.
  apply wp_bind. eapply wp_mono; [| by apply settings_cell_vars].
  intros [settings | ex] s2 w2 Hs2; [| done]. rewrite (Hs2 settings eq_refl).
  var_quiet ase_db_cell_vars.
  var_quiet view_clusters_cell_vars.
  var_quiet initial_pool_cell_vars.
  apply wp_bind. eapply wp_mono; [| by apply random_structures_cell_vars].
  intros [[] | ex] s3 w3 [Hc3 Hs3]; [| done]. simpl in Hc3, Hs3.
  var_quiet ase_db_cell_vars.
  var_quiet ase_db_cell_vars.
  apply wp_bind. eapply wp_mono; [| apply calculation_cell_vars].
  intros [db | ex] s4 w4 Hs4; [| done]. rewrite (Hs4 db eq_refl), Hc3, Hs3.
  var_quiet ase_db_cell_vars.
  var_quiet evaluation_cell_vars.
  var_quiet probe_structures_cell_vars.
  var_quiet gs_random_cell_vars.
  var_quiet templates_cell_vars.
  var_quiet gs_templates_cell_vars.
  var_quiet stable_phases_cell_vars.
  apply (minimum_energy_cell_vars db (mkVars (Some conc) (Some settings) (Some db)));
    done.
Qed.
End Vars.

(** X12.  The cells work on one concentration, one settings object and one
    database.  In every run of the notebook, [CEBulk] is given the object
    that [Concentration] returned, every structure generator, the cluster
    viewer, the evaluator and [settings.save] are given the object that
    [CEBulk] returned, every [select] and [get] goes to the connection that
    the last [connect] returned, and [CEBulk], [connect] and [update_db] all
    name the database [aucu_script.db]. *)
Theorem cells_share_settings_and_database :
  forall (W : Type) (h : Handler W) (w : W),
    accepted var_ok var_next no_vars (trace h notebook w).
Proof.
  intros W h w.
  by destruct (wp_sound _ _ _ _ _ _ _ (notebook_vars h w)) as [Hacc _].
Qed.

Lemma block_appends_one {W : Type} (h : Handler W) (db : ref CDatabase)
    (formula : string) (names names' : list value) (w : W) :
  outcome h (minimum_energy_block db formula names) w = Ok names' ->
  exists n, names' = names ++ [n].
Proof.
  unfold minimum_energy_block. rewrite !bind_unfold. simpl.
  rewrite outcome_call. destruct (h TRows _ w).1 as [rows |]; [| done].
  rewrite ?bind_unfold, outcome_bind.
  destruct (outcome h (for_in rows (energy_per_atom_body db) []) _) as [l |];
    [| done].
  cbv zeta. unfold getitem. destruct (sort_key snd l !! 0) as [p |]; [| done].
  simpl. intros [= <-]. by exists p.1.
Qed.

(** X4.  The list of names has three entries.  Whatever the libraries do,
    when the selection part of the cell completes, [names] holds exactly
    three names, one appended by each of the three blocks: no block is
    skipped and none appends more than one name. *)
Theorem selection_names_three :
  forall (W : Type) (h : Handler W) (db : ref CDatabase) (w : W)
         (names : list value),
    outcome h (minimum_energy_names db) w = Ok names ->
    length names = 3.
Proof.
  intros W h db w names. unfold minimum_energy_names. cbv zeta.
  rewrite !bind_unfold, outcome_bind.
  destruct (outcome h (minimum_energy_block db "Au3Cu1" []) w) as [l1 |] eqn:H1;
    [| done].
  apply block_appends_one in H1 as [n1 ->].
  cbv beta iota. rewrite ?bind_unfold, outcome_bind.
  destruct (outcome h (minimum_energy_block db "Au1Cu1" _) _) as [l2 |] eqn:H2;
    [| done].
  apply block_appends_one in H2 as [n2 ->].
  cbv beta iota. rewrite ?bind_unfold, outcome_bind.
  destruct (outcome h (minimum_energy_block db "Au1Cu3" _) _) as [l3 |] eqn:H3;
    [| done].
  apply block_appends_one in H3 as [n3 ->].
  cbv beta iota. rewrite outcome_ret. by intros [= <-].
Qed.

Lemma selection_names_three_witness :
  let names := [VStr "Au3Cu1_1"; VStr "Au1Cu1_0"; VStr "Au1Cu3_1"] in
  outcome Toy.toolkit (minimum_energy_names (Ref 0)) Toy.calculated = Ok names /\
  length names = 3.
Proof.
  intros names.
  assert (Hout : outcome Toy.toolkit (minimum_energy_names (Ref 0)) Toy.calculated
                 = Ok names).
  { vm_compute. reflexivity. }
  split; [exact Hout |].
  exact (selection_names_three Toy.World Toy.toolkit (Ref 0) Toy.calculated names Hout).
Defined.

(** The quotient is a float: [-1.0 / 3] and [-0.3333333333333333 / 1] are
    the same float, which is not the number -1/3. *)
Lemma per_atom_rounds :
  per_atom (lit (-1) 1) 3 = per_atom (round_float (lit (-1) 3)) 1 /\
  per_atom (lit (-1) 1) 3 <> lit (-1) 3.
Proof. split; [by vm_compute | by vm_compute]. Qed.

Lemma lowest_energy_first_of_ties_witness :
  let first := Toy.mark_converged 3 (Toy.initial 1 3 "first" "Au3Cu1" false) in
  let second := Toy.mark_converged 4 (Toy.initial 2 1 "second" "Au3Cu1" false) in
  db_contract Toy.toolkit Toy.store /\
  candidates "Au3Cu1" (Toy.store tied) = [first; second] /\
  energy_per_atom (Toy.store tied) first = energy_per_atom (Toy.store tied) second /\
  candidates "Au3Cu1" (Toy.store tied) <> [] /\
  (forall row, row ∈ candidates "Au3Cu1" (Toy.store tied) ->
     ready (Toy.store tied) row) /\
  outcome Toy.toolkit (minimum_energy_block (Ref 0) "Au3Cu1" []) tied
    = Ok [VStr "first"] /\
  exists n,
    outcome Toy.toolkit (minimum_energy_block (Ref 0) "Au3Cu1" []) tied
      = Ok ([] ++ [n]) /\
    first_lowest (Toy.store tied) "Au3Cu1" n.
Proof.
  intros first second.
  assert (H : candidates "Au3Cu1" (Toy.store tied) <> [] /\
              forall row, row ∈ candidates "Au3Cu1" (Toy.store tied) ->
                ready (Toy.store tied) row).
  { apply (ready_check (Toy.store tied) ["Au3Cu1"]);
      [vm_compute; reflexivity | by left]. }
  destruct H as [Hne Hready].
  split; [exact toolkit_db_contract |].
  split; [vm_compute; reflexivity |].
  split; [vm_compute; reflexivity |].
  split; [exact Hne |]. split; [exact Hready |].
  split; [vm_compute; reflexivity |].
  exact (lowest_energy_first_of_ties Toy.World Toy.toolkit Toy.store (Ref 0)
           "Au3Cu1" [] tied toolkit_db_contract Hne Hready).
Defined.

Lemma selection_first_failure_witness :
  let w := (Toy.update_db 2 Toy.world0).2 in
  let row := Toy.initial 3 8 "Au3Cu1_1" "Au3Cu1" false in
  let pre := take 1 (candidates "Au3Cu1" (Toy.store w)) in
  db_contract Toy.toolkit Toy.store /\
  candidates "Au3Cu1" (Toy.store w) = pre ++ row :: [] /\
  (forall r, r ∈ pre -> ready (Toy.store w) r) /\
  row_error (Toy.store w) row = Some (AttributeError "final_struct_id") /\
  outcome Toy.toolkit (minimum_energy_block (Ref 0) "Au3Cu1" []) w
    = Raise (AttributeError "final_struct_id") /\
  length (trace Toy.toolkit (minimum_energy_block (Ref 0) "Au3Cu1" []) w)
    <= S (S (length pre)).
Proof.
  intros w row pre.
  assert (Hsplit : candidates "Au3Cu1" (Toy.store w) = pre ++ row :: []).
  { vm_compute. reflexivity. }
  assert (Hpre : forall r, r ∈ pre -> ready (Toy.store w) r).
  { assert (H : forallb (readyb (Toy.store w)) pre = true)
      by (vm_compute; reflexivity).
    intros r Hr. rewrite forallb_forall in H. apply list_elem_of_In in Hr.
    specialize (H r Hr). unfold readyb in H. unfold ready.
    destruct (energy_per_atom (Toy.store w) r); [| done].
    destruct (key_value_pairs r !! "name"); [| done].
    split; by eexists. }
  assert (Herr : row_error (Toy.store w) row = Some (AttributeError "final_struct_id")).
  { vm_compute. reflexivity. }
  split; [exact toolkit_db_contract |]. split; [exact Hsplit |].
  split; [exact Hpre |]. split; [exact Herr |].
  exact (selection_first_failure Toy.World Toy.toolkit Toy.store (Ref 0) "Au3Cu1" []
           w pre row [] (AttributeError "final_struct_id")
           toolkit_db_contract Hsplit Hpre Herr).
Defined.

Lemma selection_cell_views_selected_witness :
  db_contract Toy.toolkit Toy.store /\
  outcome Toy.toolkit (minimum_energy_cell (Ref 0)) Toy.calculated = Ok tt /\
  exists names picked tr,
    outcome Toy.toolkit (minimum_energy_names (Ref 0)) Toy.calculated = Ok names /\
    trace Toy.toolkit (minimum_energy_cell (Ref 0)) Toy.calculated
      = trace Toy.toolkit (minimum_energy_names (Ref 0)) Toy.calculated ++ tr /\
    selection_view_run (Ref 0) names picked tr /\
    Forall2 (fun name p => named (Toy.store Toy.calculated) name = Ok p.1) names picked.
Proof.
  assert (Hout : outcome Toy.toolkit (minimum_energy_cell (Ref 0)) Toy.calculated = Ok tt).
  { vm_compute. reflexivity. }
  split; [exact toolkit_db_contract |]. split; [exact Hout |].
  exact (selection_cell_views_selected Toy.World Toy.toolkit Toy.store (Ref 0)
           Toy.calculated toolkit_db_contract Hout).
Defined.

Lemma selection_cell_reads_only_witness :
  db_contract Toy.toolkit Toy.store /\
  (forall e, e ∈ trace Toy.toolkit (minimum_energy_cell (Ref 0)) Toy.calculated ->
     selection_call _ (ent_call e) = true /\
     Toy.store (ent_world e) = Toy.store Toy.calculated) /\
  Toy.store (final Toy.toolkit (minimum_energy_cell (Ref 0)) Toy.calculated)
    = Toy.store Toy.calculated.
Proof.
  split; [exact toolkit_db_contract |].
  exact (selection_cell_reads_only Toy.World Toy.toolkit Toy.store (Ref 0)
           Toy.calculated toolkit_db_contract).
Defined.

Lemma selection_shows_all_or_nothing_witness :
  outcome Toy.toolkit (minimum_energy_names (Ref 0)) Toy.world0
    = Raise (AttributeError "final_struct_id") /\
  outcome Toy.toolkit (minimum_energy_cell (Ref 0)) Toy.world0
    = Raise (AttributeError "final_struct_id") /\
  forall e, e ∈ trace Toy.toolkit (minimum_energy_cell (Ref 0)) Toy.world0 ->
    query_call _ (ent_call e) = true.
Proof.
  assert (Hout : outcome Toy.toolkit (minimum_energy_names (Ref 0)) Toy.world0
                 = Raise (AttributeError "final_struct_id")).
  { vm_compute. reflexivity. }
  split; [exact Hout |].
  exact (selection_shows_all_or_nothing Toy.World Toy.toolkit (Ref 0) Toy.world0
           (AttributeError "final_struct_id") Hout).
Defined.

Lemma update_follows_relaxation_witness :
  let tr := trace Toy.toolkit calculation_cell Toy.one_pending in
  let e := nth 14 tr (mkEntry EMT (Raise KeyError) Toy.world0) in
  tr = take 14 tr ++ e :: drop 15 tr /\
  update_of (ent_call e) = Some (2, Ref 2) /\
  relaxed_before 2 (Ref 2) (take 14 tr).
Proof.
  intros tr e.
  assert (Hlen : 14 < length tr).
  { apply Nat.ltb_lt. vm_compute. reflexivity. }
  assert (Hsplit : tr = take 14 tr ++ e :: drop 15 tr).
  { symmetry. apply take_drop_middle. unfold e. rewrite nth_lookup.
    destruct (lookup_lt_is_Some_2 tr 14 Hlen) as [e' He']. by rewrite He'. }
  assert (Hup : update_of (ent_call e) = Some (2, Ref 2)).
  { vm_compute. reflexivity. }
  split; [exact Hsplit |]. split; [exact Hup |].
  exact (update_follows_relaxation Toy.World Toy.toolkit Toy.one_pending
           (take 14 tr) e (drop 15 tr) 2 (Ref 2) Hsplit Hup).
Defined.

Lemma calculation_without_pending_witness :
  db_contract Toy.toolkit Toy.store /\
  pending (Toy.store Toy.calculated) = [] /\
  (forall e, e ∈ trace Toy.toolkit calculation_cell Toy.calculated ->
     writes_db (ent_call e) = false /\ update_of (ent_call e) = None /\
     Toy.store (ent_world e) = Toy.store Toy.calculated) /\
  Toy.store (final Toy.toolkit calculation_cell Toy.calculated)
    = Toy.store Toy.calculated.
Proof.
  assert (Hnil : pending (Toy.store Toy.calculated) = []).
  { vm_compute. reflexivity. }
  split; [exact toolkit_db_contract |]. split; [exact Hnil |].
  exact (calculation_without_pending Toy.World Toy.toolkit Toy.store Toy.calculated
           toolkit_db_contract Hnil).
Defined.

Lemma primitive_cell_needed_witness :
  let w := Toy.set_store [] Toy.world0 in
  let cell := random_structures_cell (Ref 0) in
  db_contract Toy.toolkit Toy.store /\
  get_row primitive_cell_query (Toy.store w) = Raise KeyError /\
  outcome Toy.toolkit cell w <> Ok tt /\
  (forall e, e ∈ trace Toy.toolkit cell w ->
     writes_db (ent_call e) = false /\ Toy.store (ent_world e) = Toy.store w) /\
  Toy.store (final Toy.toolkit cell w) = Toy.store w.
Proof.
  intros w cell.
  assert (Hget : get_row primitive_cell_query (Toy.store w) = Raise KeyError).
  { reflexivity. }
  split; [exact toolkit_db_contract |]. split; [exact Hget |].
  exact (primitive_cell_needed Toy.World Toy.toolkit Toy.store (Ref 0) (Ref 0) w
           KeyError cell toolkit_db_contract Hget (or_introl eq_refl)).
Defined.

Lemma random_structures_on_primitive_cell_witness :
  db_contract Toy.toolkit Toy.store /\
  outcome Toy.toolkit (random_structures_cell (Ref 0)) Toy.world0 = Ok tt /\
  exists row,
    get_row primitive_cell_query (Toy.store Toy.world0) = Ok row /\
    random_structures_run (Ref 0) row
      (trace Toy.toolkit (random_structures_cell (Ref 0)) Toy.world0).
Proof.
  assert (Hout : outcome Toy.toolkit (random_structures_cell (Ref 0)) Toy.world0 = Ok tt).
  { vm_compute. reflexivity. }
  split; [exact toolkit_db_contract |]. split; [exact Hout |].
  exact (random_structures_on_primitive_cell Toy.World Toy.toolkit Toy.store (Ref 0)
           Toy.world0 toolkit_db_contract Hout).
Defined.

Lemma gs_random_on_primitive_cell_witness :
  let w := final Toy.toolkit (evaluation_cell (Ref 0)) Toy.world0 in
  db_contract Toy.toolkit Toy.store /\
  outcome Toy.toolkit (gs_random_cell (Ref 0) (Ref 1)) w = Ok tt /\
  exists row eci,
    get_row primitive_cell_query (Toy.store w) = Ok row /\
    gs_random_run (Ref 0) (Ref 1) row eci
      (trace Toy.toolkit (gs_random_cell (Ref 0) (Ref 1)) w).
Proof.
  intros w.
  assert (Hout : outcome Toy.toolkit (gs_random_cell (Ref 0) (Ref 1)) w = Ok tt).
  { vm_compute. reflexivity. }
  split; [exact toolkit_db_contract |]. split; [exact Hout |].
  exact (gs_random_on_primitive_cell Toy.World Toy.toolkit Toy.store (Ref 0) (Ref 1)
           w toolkit_db_contract Hout).
Defined.

(** ** Order of the stages, and their work *)

Arguments calls_only : simpl never.

Ltac only_calls :=
  repeat first
    [ match goal with
      | |- calls_only _ (Ret _) => exact I
      | |- calls_only _ (Throw _) => exact I
      | |- calls_only _ (Call _ _) => split; [reflexivity | intros ?]
      | |- calls_only _ (Try _ _) => split; [reflexivity | intros ?]
      | |- calls_only _ (for_in _ _ _) => apply calls_only_for_in; intros ? ?
      | |- calls_only _ (bind _ _) => apply calls_only_bind; [| intros ?]
      | |- calls_only _ (match ?x with _ => _ end) => destruct x
      | |- calls_only _ (mret _) => exact I
      | |- calls_only _ (_ ≫= _) => apply calls_only_bind; [| intros ?]
      end
    | progress cells_norm ].

Lemma completed_app {W : Type} (i : nat) (s t : list (Entry W)) :
  completed i s -> completed i (s ++ t).
Proof.
  destruct i as [| [| [| [| i]]]]; simpl; [| | | | done].
  - intros (conc & e & Hin & He). exists conc, e.
    split; [apply elem_of_app; by left | done].
  - intros [(ns & e & Hin & He) (ns' & template & e' & Hin' & He')]. split.
    + exists ns, e. split; [apply elem_of_app; by left | done].
    + exists ns', template, e'. split; [apply elem_of_app; by left | done].
  - intros (a & tr & b & selected & db & -> & Hrun).
    exists a, tr, (b ++ t), selected, db. by rewrite <- !app_assoc.
  - intros (a & tr & b & settings & eva & alphas & cvs & idx & alpha & d & -> & Hrun).
    exists a, tr, (b ++ t), settings, eva, alphas, cvs, idx, alpha, d.
    by rewrite <- !app_assoc.
Qed.

Section Staged.
Context {W : Type} (h : Handler W).

Local Abbreviation smon := (wp (staged_ok (W:=W)) history h).

(** A program that makes calls of the stages up to [j] only, when the work
    of the stages before [j] is done. *)
Lemma wp_below {A : Type} (p : Prog A) (j : nat) s w :
  calls_only (stage_le j) p ->
  (forall i, i < j -> completed i s) ->
  smon p (fun r s' _ => s' = s ++ trace h p w /\ r = outcome h p w) s w.
Proof.
  revert s w. induction p as [a | e | t c k IH | t c k IH]; intros s w Hp Hs.
  - apply wp_ret_intro. by rewrite app_nil_r.
  - split; [by rewrite app_nil_r | done].
  - destruct Hp as [Hc Hk]. apply wp_call_intro. intros r w' E.
    assert (Hok : staged_ok s (mkEntry c r w')).
    { unfold staged_ok, entry_stage; simpl. unfold stage_le in Hc.
      destruct (stage_of c) as [st |]; [| done]. simpl.
      apply Nat.leb_le in Hc. intros i Hi. apply Hs. lia. }
    split; [done |].
    rewrite trace_call, outcome_call, E. simpl.
    destruct r as [x | ex]; [| done].
    eapply wp_mono; [| apply IH; [apply Hk |]].
    + intros r s' _ [-> ->]. unfold history. by rewrite <- app_assoc.
    + intros i Hi. by apply completed_app, Hs.
  - destruct Hp as [Hc Hk]. apply wp_try_intro. intros r w' E.
    assert (Hok : staged_ok s (mkEntry c r w')).
    { unfold staged_ok, entry_stage; simpl. unfold stage_le in Hc.
      destruct (stage_of c) as [st |]; [| done]. simpl.
      apply Nat.leb_le in Hc. intros i Hi. apply Hs. lia. }
    split; [done |].
    rewrite trace_try, outcome_try, E. simpl.
    eapply wp_mono; [| apply IH; [apply Hk |]].
    + intros r' s' _ [-> ->]. unfold history. by rewrite <- app_assoc.
    + intros i Hi. by apply completed_app, Hs.
Qed.

(** Whatever a program calls, once the work of the stages is done. *)
Lemma wp_completed {A : Type} (p : Prog A) s w :
  (forall i, completed i s) -> smon p (fun _ _ _ => True) s w.
Proof.
  revert s w. induction p as [a | e | t c k IH | t c k IH]; intros s w Hs.
  - by apply wp_ret_intro.
  - done.
  - apply wp_call_intro. intros r w' E. split.
    + unfold staged_ok. destruct (entry_stage _); [| done]. intros i _. apply Hs.
    + destruct r as [x | ex]; [| done]. apply IH.
      intros i. by apply completed_app.
  - apply wp_try_intro. intros r w' E. split.
    + unfold staged_ok. destruct (entry_stage _); [| done]. intros i _. apply Hs.
    + apply IH. intros i. by apply completed_app.
Qed.

Lemma concentration_cell_run w conc :
  outcome h concentration_cell w = Ok conc ->
  completed 0 (trace h concentration_cell w).
Proof.
  unfold concentration_cell, call. simpl. intros H.
  apply call_ok in H as ([] & E1 & H & ->).
  apply call_ok in H as (conc' & E2 & H & ->).
  exists conc'. eexists. split; [right; left |]. by eexists.
Qed.

Lemma initial_pool_cell_run settings w :
  outcome h (initial_pool_cell settings) w = Ok tt ->
  exists ns e, e ∈ trace h (initial_pool_cell settings) w /\
               returned (GenerateInitialPool ns) tt e.
Proof.
  unfold initial_pool_cell, call. simpl. intros H.
  apply call_ok in H as ([] & E1 & H & ->).
  apply call_ok in H as (ns & E2 & H & ->).
  apply call_ok in H as ([] & E3 & H & ->).
  exists ns. eexists. split; [right; right; left |]. by eexists.
Qed.

Lemma random_structures_cell_run settings w :
  outcome h (random_structures_cell settings) w = Ok tt ->
  exists ns template e,
    e ∈ trace h (random_structures_cell settings) w /\
    returned (GenerateRandomStructures ns template) tt e.
Proof.
  unfold random_structures_cell, call. simpl. intros H.
  apply call_ok in H as ([] & E1 & H & ->).
  apply call_ok in H as ([] & E2 & H & ->).
  apply call_ok in H as (db & E3 & H & ->).
  apply call_ok in H as (row & E4 & H & ->).
  apply call_ok in H as (atoms & E5 & H & ->).
  apply call_ok in H as (template & E6 & H & ->).
  apply call_ok in H as (ns & E7 & H & ->).
  apply call_ok in H as ([] & E8 & H & ->).
  exists ns, template. eexists. split; [do 7 right; left |]. by eexists.
Qed.

Lemma calculation_cell_run w db :
  outcome h calculation_cell w = Ok db ->
  exists selected, calculation_run selected db (trace h calculation_cell w).
Proof.
  unfold calculation_cell, calculation_loop, call. simpl. intros H.
  apply call_ok in H as ([] & E1 & H & ->).
  apply call_ok in H as ([] & E2 & H & ->).
  apply call_ok in H as ([] & E3 & H & ->).
  apply call_ok in H as ([] & E4 & H & ->).
  apply call_ok in H as ([] & E5 & H & ->).
  apply call_ok in H as (calc & E6 & H & ->).
  apply call_ok in H as (db' & E7 & H & ->).
  apply call_ok in H as (selected & E8 & H & ->). unfold Prog_bind in *.
  rewrite outcome_bind in H. rewrite trace_bind.
  match type of H with
  | context [outcome h (for_in selected ?b tt) ?w'] =>
      destruct (outcome h (for_in selected b tt) w') as [[] |] eqn:Hloop; [| done];
      destruct (calculation_loop_ok h calc selected w' Hloop) as (blocks & Hblocks & Htr)
  end.
  apply call_ok in H as ([] & E9 & H & ->).
  injection H as <-.
  exists selected, calc. eexists _, blocks, _. split; [| split; [| split]]; last first.
  - unfold made_of, returned. repeat (constructor; [by eexists |]). constructor.
  - done.
  - unfold made_of, returned. repeat (constructor; [by eexists |]). constructor.
  - rewrite Htr. reflexivity.
Qed.

Lemma evaluation_cell_run settings w :
  outcome h (evaluation_cell settings) w = Ok tt ->
  exists eva alphas cvs idx alpha d,
    evaluation_run settings eva alphas cvs idx alpha d
      (trace h (evaluation_cell settings) w).
Proof.
  unfold evaluation_cell, call. simpl. intros H.
  apply call_ok in H as ([] & E1 & H & ->).
  apply call_ok in H as ([] & E2 & H & ->).
  apply call_ok in H as ([] & E3 & H & ->).
  apply call_ok in H as ([] & E4 & H & ->).
  apply call_ok in H as (eva & E5 & H & ->).
  apply call_ok in H as ([alphas cvs] & E6 & H & ->).
  apply call_ok in H as ([] & E7 & H & ->).
  apply call_ok in H as (idx & E8 & H & ->).
  unfold getitem in *. simpl in *.
  destruct (alphas !! idx) as [alpha |] eqn:Ha; [| done]. simpl in *.
  apply call_ok in H as ([] & E9 & H & ->).
  apply call_ok in H as ([] & E10 & H & ->).
  apply call_ok in H as ([] & E11 & H & ->).
  apply call_ok in H as ([] & E12 & H & ->).
  apply call_ok in H as ([] & E13 & H & ->).
  apply call_ok in H as ([] & E14 & H & ->).
  apply call_ok in H as (d & E15 & H & ->).
  apply call_ok in H as ([] & E16 & H & ->).
  apply call_ok in H as ([] & E17 & H & ->).
  exists eva, alphas, cvs, idx, alpha, d.
  unfold evaluation_run, made_of, returned.
  repeat (constructor; [by eexists |]). constructor.
Qed.

Ltac below j :=
  apply wp_bind; eapply wp_mono;
  [| apply (wp_below _ j); [only_calls | intros [| [| [| [| ?]]]] ?; first [lia | eassumption | exact I]]];
  intros [? | ?] ? ? [-> Hout]; [symmetry in Hout | exact I];
  repeat match goal with x : unit |- _ => destruct x end.

Ltac grow tr :=
  repeat match goal with
         | H : completed ?i ?s |- _ =>
             lazymatch s with
             | _ ++ tr => fail
             | _ => apply (completed_app i s tr) in H
             end
         end.

Lemma notebook_staged w : smon notebook (fun _ _ _ => True) [] w.
Proof.
  unfold notebook. rewrite !bind_unfold.
  below 0.
  pose proof (concentration_cell_run _ _ Hout) as H0. clear Hout.
  change (trace h concentration_cell w) with ([] ++ trace h concentration_cell w) in H0.
  below 1. match goal with |- smon _ _ (_ ++ ?tr) _ => grow tr end. clear Hout.
  below 1. match goal with |- smon _ _ (_ ++ ?tr) _ => grow tr end. clear Hout.
  below 1. match goal with |- smon _ _ (_ ++ ?tr) _ => grow tr end. clear Hout.
  below 1. match goal with |- smon _ _ (_ ++ ?tr) _ => grow tr end. clear Hout.
  below 1. match goal with |- smon _ _ (_ ++ ?tr) _ => grow tr end.
  destruct (initial_pool_cell_run _ _ Hout) as (ns1 & e1 & Hin1 & He1). clear Hout.
  below 1. match goal with |- smon _ _ (_ ++ ?tr) _ => grow tr end.
  destruct (random_structures_cell_run _ _ Hout) as (ns2 & tpl & e2 & Hin2 & He2).
  clear Hout.
  match goal with
  | |- smon _ _ ?s _ =>
      assert (H1 : completed 1 s);
      [ split; [exists ns1, e1 | exists ns2, tpl, e2];
        (split; [| done]);
        [ apply elem_of_app; left; apply elem_of_app; by right
        | apply elem_of_app; by right ] |]
  end.
  clear Hin1 Hin2.
  below 2. match goal with |- smon _ _ (_ ++ ?tr) _ => grow tr end. clear Hout.
  below 2. match goal with |- smon _ _ (_ ++ ?tr) _ => grow tr end. clear Hout.
  below 2. match goal with |- smon _ _ (_ ++ ?tr) _ => grow tr end.
  destruct (calculation_cell_run _ _ Hout) as (selected & Hrun). clear Hout.
  match goal with
  | |- smon _ _ (?s ++ ?tr) _ =>
      assert (H2 : completed 2 (s ++ tr));
      [ exists s, tr, [], selected; eexists; split; [by rewrite app_nil_r | done] |]
  end.
  clear Hrun.
  below 3. match goal with |- smon _ _ (_ ++ ?tr) _ => grow tr end. clear Hout.
  below 3. match goal with |- smon _ _ (_ ++ ?tr) _ => grow tr end.
  destruct (evaluation_cell_run _ _ Hout)
    as (eva & alphas & cvs & idx & alpha & d & Hrun). clear Hout.
  match goal with
  | |- smon _ _ (?s ++ ?tr) _ =>
      assert (H3 : completed 3 (s ++ tr));
      [ exists s, tr, []; do 7 eexists; split; [by rewrite app_nil_r | exact Hrun] |]
  end.
  apply wp_completed. intros [| [| [| [| ?]]]]; first [assumption | exact I].
Qed.
End Staged.

(** C6.  Run from top to bottom against any behaviour of the libraries, the
    notebook goes through its stages in the order constraints, structure
    generation, relaxation, fitting, ground-state search.  It makes no call
    of a stage before a call of every earlier stage, and none before the
    work of every earlier stage is done: before a structure is generated the
    concentration object was returned; before the structures that are not
    converged are selected, [generate_initial_pool] and
    [generate_random_structures] returned; before the first call of the
    evaluation the calculation cell ran to its end, so that every structure
    it selected was relaxed and written back; before a ground state is
    searched the evaluation cell ran to its end, so that the model was
    fitted and its coefficients saved.  A run that completes has gone
    through the five stages. *)
Theorem stages_run_in_order :
  forall (W : Type) (h : Handler W) (w : W),
    stages_in_order (trace h notebook w) /\
    stages_completed (trace h notebook w) /\
    (outcome h notebook w = Ok tt -> all_stages (trace h notebook w)).
Proof.
  intros W h w.
  destruct (wp_sound _ _ _ _ _ _ _ (notebook_stage h w)) as [Hacc Hend].
  split; [| split].
  - intros pre e post j Htr Hj i Hi.
    destruct (accepted_in_order (trace h notebook w) [] 0) with
      (pre := pre) (e := e) (post := post) (j := j) (i := i) as [e' [? ?]];
      try done.
    + intros ? ?; lia.
    + by exists e'.
  - intros pre e post j Htr Hj i Hi.
    destruct (wp_sound _ _ _ _ _ _ _ (notebook_staged h w)) as [Hst _].
    rewrite Htr in Hst. apply accepted_history in Hst.
    unfold staged_ok in Hst. rewrite Hj in Hst. by apply Hst.
  - intros Hout i Hi. rewrite Hout in Hend. simpl in Hend.
    destruct (accepted_all_stages (trace h notebook w) [] 0) with (i := i)
      as [e' [? ?]]; try done.
    + intros ? ?; lia.
    + by rewrite Hend.
    + by exists e'.
Qed.

Lemma stages_run_in_order_witness :
  outcome Toy.toolkit notebook Toy.world0 = Ok tt /\
  stages_in_order (trace Toy.toolkit notebook Toy.world0) /\
  stages_completed (trace Toy.toolkit notebook Toy.world0) /\
  all_stages (trace Toy.toolkit notebook Toy.world0).
Proof.
  assert (Hout : outcome Toy.toolkit notebook Toy.world0 = Ok tt).
  { vm_compute. reflexivity. }
  destruct (stages_run_in_order Toy.World Toy.toolkit Toy.world0)
    as (Horder & Hdone & Hall).
  split; [exact Hout |]. split; [exact Horder |]. split; [exact Hdone |].
  exact (Hall Hout).
Defined.
